(** * Ledger core of go-projects: balances, balance history, transactions

    A shallow embedding of [internal/services/balance_service.go] and
    [internal/services/transaction_service.go] together with the tables of
    [db.RunMigrations] and the structs of package [models], and of the
    handlers of [internal/handlers] that call these services.

    Conventions of the embedding.
    - Go [int] identifiers and SQL [INT] columns are [Z].
    - Amounts are [float64] in Go and [DECIMAL(20,2)] columns in MySQL. The
      embedding takes the amounts that are whole numbers, as [Z]. A column
      holds the amount that was written to it, and reading it back copies
      it. Go's [+] on two amounts is [float64_add]: the exact sum rounded to
      the nearest [float64], ties to even, so sums are exact up to 2^53 in
      magnitude and rounded beyond. A sum computed by the store ([SUM]) is
      exact, and is rounded the same way when it is scanned into a
      [float64]. Comparisons and negation are exact on [float64]. Fractions
      of a unit, the limit of the column (18 digits before the point), the
      infinities and NaN are outside the model.
    - Timestamps ([time.Time], [DATETIME]) are [Z]; the store stamps a row
      with the current value of the world's clock.
    - Every call that reaches the database may fail with a driver error.
      Those failures are decided by an oracle, [faults], a list of booleans
      consumed one per call; an exhausted list means no further failure.
    - A [sql.Tx] runs in place on the store and keeps the tables as they were
      at [Begin] for undo; AUTO_INCREMENT counters are not undone.
    - Everything observable besides the store is appended to [events]:
      guard acquisition and release, unit boundaries, the statements sent
      to the store, and the log lines. *)

From stdpp Require Import gmap strings list.
From Stdlib Require Import ZArith Lia SpecFloat.

Open Scope string_scope.
Open Scope list_scope.
Open Scope Z_scope.

(** ** float64 on whole amounts *)

(** The [float64] nearest to a whole number, ties to even. A [float64] has
    a significand of 53 bits: a whole number below 2^53 in magnitude is held
    as it is, and one of [53 + e] bits is rounded to a multiple of [2^e]. *)
Definition float64_round (z : Z) : Z :=
  let e := Z.log2 (Z.abs z) - 52 in
  if e <=? 0 then z
  else
    let ulp := 2 ^ e in
    let q := Z.abs z / ulp in
    let r := Z.abs z mod ulp in
    let q' := match 2 * r ?= ulp with
              | Lt => q
              | Gt => q + 1
              | Eq => if Z.even q then q else q + 1
              end in
    Z.sgn z * (q' * ulp).

(** Go's [x + y] on two [float64] amounts: the exact sum, rounded. On whole
    numbers that no [float64] holds, and so no Go variable, the sum is left
    as it is. *)
Definition float64_add (x y : Z) : Z :=
  if (float64_round x =? x) && (float64_round y =? y)
  then float64_round (x + y)
  else x + y.
Arguments float64_round : simpl never.
Arguments float64_add : simpl never.

(** [rows.Scan] of a decimal the store computed into a [float64]. *)
Definition scan_float64 (z : Z) : Z := float64_round z.

(** The whole numbers up to which [float64] is exact: every whole number of
    this range is a [float64]. *)
Definition float64_exact (z : Z) : Prop := - 2 ^ 53 <= z <= 2 ^ 53.

(** A whole number that a [float64] holds. *)
Definition is_float64 (z : Z) : Prop := float64_round z = z.

(** The same rounding in the Standard Library's specification of IEEE 754
    binary64 (53 bits of precision, exponents up to 1024), to compare with. *)
Definition binary64_of_Z (z : Z) : spec_float := binary_normalize 53 1024 z 0 false.

Definition Z_of_binary64 (f : spec_float) : option Z :=
  match f with
  | S754_zero _ => Some 0
  | S754_finite s m e => Some (cond_Zopp s (Z.shiftl (Z.pos m) e))
  | _ => None
  end.

(** ** package models *)

Module Balance.
Record t := mk { UserID : Z; Amount : Z; LastUpdatedAt : Z }.
End Balance.

Module BalanceHistory.
Record t := mk {
    ID : Z; UserID : Z; Balance : Z; ChangeAmount : Z;
    TransactionID : option Z; CreatedAt : Z }.
End BalanceHistory.

Module Transaction.
Record t := mk {
    ID : Z; FromUserID : option Z; ToUserID : option Z; Amount : Z;
    Typ : string; Status : string; CreatedAt : Z }.
End Transaction.

Definition TransactionTypeCredit : string := "credit".
Definition TransactionTypeDebit : string := "debit".
Definition TransactionTypeTransfer : string := "transfer".

Definition TransactionStatusPending : string := "pending".
Definition TransactionStatusCompleted : string := "completed".
Definition TransactionStatusFailed : string := "failed".
Definition TransactionStatusRolledBack : string := "rolled_back".

Module CreditRequest.
Record t := mk { UserID : Z; Amount : Z }.
End CreditRequest.

Module DebitRequest.
Record t := mk { UserID : Z; Amount : Z }.
End DebitRequest.

Module TransferRequest.
Record t := mk { FromUserID : Z; ToUserID : Z; Amount : Z }.
End TransferRequest.

(** ** The store: the tables of [RunMigrations] *)

Module BalancesRow.
  (** [balances (user_id PK, amount, last_updated_at)] without its key. *)
Record t := mk { amount : Z; last_updated_at : Z }.
End BalancesRow.

Module TransactionsRow.
  (** [transactions (id PK, from_user_id, to_user_id, amount, type, status,
      created_at)] without its key. *)
Record t := mk {
    from_user_id : option Z; to_user_id : option Z; amount : Z;
    type : string; status : string; created_at : Z }.
End TransactionsRow.

Module HistoryRow.
  (** [balance_history (id PK, user_id, balance, change_amount,
      transaction_id, created_at)]. *)
Record t := mk {
    id : Z; user_id : Z; balance : Z; change_amount : Z;
    transaction_id : option Z; created_at : Z }.
End HistoryRow.

#[global] Instance HistoryRow_eq_dec : EqDecision HistoryRow.t.
Proof. solve_decision. Defined.

Record DB := mkDB {
  users : gset Z;
  transactions : gmap Z TransactionsRow.t;
  transactions_auto_increment : Z;
  balances : gmap Z BalancesRow.t;
  balance_history : list HistoryRow.t;
  balance_history_auto_increment : Z }.

Inductive sql_error :=
| ErrDriver           (* connection or server failure, decided by the oracle *)
| ErrDuplicateEntry   (* primary key already present *)
| ErrForeignKey       (* balance_history.user_id REFERENCES users(id) *)
| ErrTxDone.          (* Commit or Rollback on a finished sql.Tx *)

(** *** Statements as functions on the tables *)

Definition select_balance (user_id : Z) (d : DB) : option BalancesRow.t :=
  balances d !! user_id.

Definition insert_balance (user_id amount now : Z) (d : DB) : sql_error + DB :=
  match balances d !! user_id with
  | Some _ => inl ErrDuplicateEntry
  | None =>
      inr (mkDB (users d) (transactions d) (transactions_auto_increment d)
             (<[user_id := BalancesRow.mk amount now]> (balances d))
             (balance_history d) (balance_history_auto_increment d))
  end.

Definition update_balance (user_id amount now : Z) (d : DB) : DB :=
  mkDB (users d) (transactions d) (transactions_auto_increment d)
    (alter (fun _ => BalancesRow.mk amount now) user_id (balances d))
    (balance_history d) (balance_history_auto_increment d).

Definition insert_history (user_id balance change_amount : Z)
    (transaction_id : option Z) (now : Z) (d : DB) : sql_error + DB :=
  if decide (user_id ∈ users d) then
    inr (mkDB (users d) (transactions d) (transactions_auto_increment d)
           (balances d)
           (balance_history d ++
              [HistoryRow.mk (balance_history_auto_increment d) user_id balance
                 change_amount transaction_id now])
           (balance_history_auto_increment d + 1))
  else inl ErrForeignKey.

Definition insert_transaction (from_user_id to_user_id : option Z) (amount : Z)
    (type status : string) (now : Z) (d : DB) : sql_error + (Z * DB) :=
  let id := transactions_auto_increment d in
  match transactions d !! id with
  | Some _ => inl ErrDuplicateEntry
  | None =>
      inr (id,
           mkDB (users d)
             (<[id := TransactionsRow.mk from_user_id to_user_id amount type
                        status now]> (transactions d))
             (id + 1) (balances d) (balance_history d)
             (balance_history_auto_increment d))
  end.

Definition set_status (status : string) (r : TransactionsRow.t) : TransactionsRow.t :=
  TransactionsRow.mk (TransactionsRow.from_user_id r) (TransactionsRow.to_user_id r)
    (TransactionsRow.amount r) (TransactionsRow.type r) status
    (TransactionsRow.created_at r).

Definition update_transaction_status (id : Z) (status : string) (d : DB) : DB :=
  mkDB (users d) (alter (set_status status) id (transactions d))
    (transactions_auto_increment d) (balances d) (balance_history d)
    (balance_history_auto_increment d).

Definition select_transaction (id : Z) (d : DB) : option TransactionsRow.t :=
  transactions d !! id.

(** [SELECT COALESCE(SUM(change_amount), 0) FROM balance_history WHERE user_id = ?] *)
Definition sum_change_amount (user_id : Z) (d : DB) : Z :=
  foldr Z.add 0
    (HistoryRow.change_amount <$>
       filter (fun r => HistoryRow.user_id r = user_id) (balance_history d)).

(** [ORDER BY created_at DESC] as an insertion sort. SQL leaves the order of
    rows with equal timestamps open; here the row inserted last comes first. *)
Fixpoint insert_desc (r : HistoryRow.t) (l : list HistoryRow.t) : list HistoryRow.t :=
  match l with
  | [] => [r]
  | x :: l' =>
      if HistoryRow.created_at x <? HistoryRow.created_at r
      then r :: x :: l'
      else x :: insert_desc r l'
  end.

Definition order_by_created_at_desc (l : list HistoryRow.t) : list HistoryRow.t :=
  foldr insert_desc [] l.

(** [SELECT balance FROM balance_history WHERE user_id = ? AND created_at <= ?
     ORDER BY created_at DESC LIMIT 1] *)
Definition rows_until (user_id target : Z) (d : DB) : list HistoryRow.t :=
  filter (fun r => HistoryRow.user_id r = user_id ∧ HistoryRow.created_at r ≤ target)
    (balance_history d).

Definition select_balance_at (user_id target : Z) (d : DB) : option Z :=
  HistoryRow.balance <$> head (order_by_created_at_desc (rows_until user_id target d)).

(** [SELECT ... FROM balance_history WHERE user_id = ? ORDER BY created_at DESC
     LIMIT ? OFFSET ?] *)
Definition select_history_page (user_id : Z) (limit offset : Z) (d : DB)
    : list HistoryRow.t :=
  take (Z.to_nat limit)
    (drop (Z.to_nat offset)
       (order_by_created_at_desc
          (filter (fun r => HistoryRow.user_id r = user_id) (balance_history d)))).

(** Undo of an aborted unit: the tables return to what they were at [Begin],
    the AUTO_INCREMENT counters stay where the unit left them. *)
Definition restore_tables (snapshot current : DB) : DB :=
  mkDB (users snapshot) (transactions snapshot)
    (transactions_auto_increment current) (balances snapshot)
    (balance_history snapshot) (balance_history_auto_increment current).

(** ** Errors, events and the world a service call runs in *)

Inductive error :=
| errors_New (msg : string)                 (* errors.New(msg) *)
| fmt_Errorf (msg : string) (err : error)   (* fmt.Errorf("msg: %w", err) *)
| sql_err (e : sql_error).                  (* an error of database/sql or the driver *)

(** The innermost error of a chain of [%w] wrappings. *)
Fixpoint root_cause (e : error) : error :=
  match e with
  | fmt_Errorf _ e' => root_cause e'
  | _ => e
  end.

Inductive result (A : Type) :=
| Ok (a : A)
| Err (e : error).
Arguments Ok {A} a.
Arguments Err {A} e.

Inductive stmt :=
| SelectBalance (user_id : Z) (for_update : bool)
| InsertBalance (user_id amount : Z)
| UpdateBalanceAmount (user_id amount : Z)
| InsertHistory (user_id balance change_amount : Z) (transaction_id : option Z)
| InsertTransaction (from_user_id to_user_id : option Z) (amount : Z) (type status : string)
| UpdateTransactionStatus (id : Z) (status : string)
| SelectTransaction (id : Z)
| SelectHistorySum (user_id : Z)
| SelectHistoryAt (user_id target : Z)
| SelectHistoryPage (user_id limit offset : Z).

Inductive event :=
| EvLock (user_id : Z)              (* mu.Lock() of the account's mutex *)
| EvUnlock (user_id : Z)            (* mu.Unlock() *)
| EvBegin                           (* db.Begin() *)
| EvCommit                          (* tx.Commit() *)
| EvRollback                        (* tx.Rollback() on an open unit *)
| EvSql (in_tx : bool) (s : stmt)   (* a statement on [tx] or on [s.db] *)
| EvLastInsertId
| EvLog (level msg : string).       (* a zerolog line *)

(** [sql.Tx]: what [Rollback] needs to undo the unit. *)
Record Tx := mkTx { undo : DB }.

Record World := mkWorld {
  db : DB;                (* the MySQL store *)
  open_tx : bool;         (* an sql.Tx is begun and neither committed nor rolled back *)
  mu : gset Z;            (* BalanceService.mu: the accounts that have a mutex *)
  clock : Z;              (* NOW() *)
  faults : list bool;     (* the failure oracle *)
  events : list event }.

Definition with_db (d : DB) (w : World) : World :=
  mkWorld d (open_tx w) (mu w) (clock w) (faults w) (events w).
Definition with_open_tx (b : bool) (w : World) : World :=
  mkWorld (db w) b (mu w) (clock w) (faults w) (events w).
Definition with_mu (m : gset Z) (w : World) : World :=
  mkWorld (db w) (open_tx w) m (clock w) (faults w) (events w).
Definition with_faults (fs : list bool) (w : World) : World :=
  mkWorld (db w) (open_tx w) (mu w) (clock w) fs (events w).
Definition with_event (e : event) (w : World) : World :=
  mkWorld (db w) (open_tx w) (mu w) (clock w) (faults w) (events w ++ [e]).

Definition next_fault (fs : list bool) : bool * list bool :=
  match fs with
  | [] => (false, [])
  | b :: fs' => (b, fs')
  end.

(** *** The monad of service code: state and early return with an error *)

Definition M (A : Type) : Type := World -> result A * World.

Definition ret {A} (a : A) : M A := fun w => (Ok a, w).
Definition fail {A} (e : error) : M A := fun w => (Err e, w).
Definition bind {A B} (m : M A) (k : A -> M B) : M B :=
  fun w =>
    match m w with
    | (Ok a, w1) => k a w1
    | (Err e, w1) => (Err e, w1)
    end.

(** [if err != nil { ...log...; return nil, wrapped }] after a call. *)
Definition on_err {A} (m : M A) (h : error -> M error) : M A :=
  fun w =>
    match m w with
    | (Ok a, w1) => (Ok a, w1)
    | (Err e, w1) =>
        match h e w1 with
        | (Ok e', w2) => (Err e', w2)
        | (Err e', w2) => (Err e', w2)
        end
    end.

(** [defer d] placed before [body]: [d] runs when [body] returns, whatever
    it returns, and its own result is dropped. *)
Definition defer {A B} (d : M B) (body : M A) : M A :=
  fun w =>
    match body w with
    | (r, w1) => (r, snd (d w1))
    end.

Declare Scope go_scope.
Delimit Scope go_scope with go.
Notation "x <- m ; k" := (bind m (fun x => k))
  (at level 20, m at level 100, k at level 200, only parsing) : go_scope.
Notation "m ;; k" := (bind m (fun _ => k))
  (at level 100, k at level 200, only parsing, right associativity) : go_scope.
Notation "m 'or_else' h" := (on_err m h) (at level 60, only parsing) : go_scope.
Open Scope go_scope.

Definition emit (e : event) : M unit := fun w => (Ok tt, with_event e w).
Definition logger (level msg : string) : M unit := emit (EvLog level msg).
Definition wrap (msg : string) (err : error) : M error := ret (fmt_Errorf msg err).
Definition logged (level log_msg msg : string) (err : error) : M error :=
  logger level log_msg ;; ret (fmt_Errorf msg err).

(** *** database/sql *)

(** One round trip to the store: the oracle decides whether the driver
    fails; otherwise the statement runs on the tables. *)
Definition round_trip {A} (ev : event) (run : Z -> DB -> sql_error + (A * DB)) : M A :=
  fun w =>
    let (failed, fs) := next_fault (faults w) in
    let w1 := with_faults fs (with_event ev w) in
    if failed then (Err (sql_err ErrDriver), w1)
    else match run (clock w) (db w) with
         | inl e => (Err (sql_err e), w1)
         | inr (a, d) => (Ok a, with_db d w1)
         end.

Definition query {A} (in_tx : bool) (s : stmt) (q : DB -> A) : M A :=
  round_trip (EvSql in_tx s) (fun _ d => inr (q d, d)).

Definition exec (in_tx : bool) (s : stmt) (run : Z -> DB -> sql_error + DB) : M unit :=
  round_trip (EvSql in_tx s)
    (fun now d => match run now d with inl e => inl e | inr d' => inr (tt, d') end).

(** [s.db.Begin()]. *)
Definition Begin : M Tx :=
  fun w =>
    let (failed, fs) := next_fault (faults w) in
    let w1 := with_faults fs (with_event EvBegin w) in
    if failed then (Err (sql_err ErrDriver), w1)
    else (Ok (mkTx (db w)), with_open_tx true w1).

(** [tx.Commit()]. A commit that fails is taken to leave nothing of the unit
    behind; on a finished unit it is [sql.ErrTxDone]. *)
Definition Commit (tx : Tx) : M unit :=
  fun w =>
    if open_tx w then
      let (failed, fs) := next_fault (faults w) in
      let w1 := with_open_tx false (with_faults fs (with_event EvCommit w)) in
      if failed then (Err (sql_err ErrDriver), with_db (restore_tables (undo tx) (db w)) w1)
      else (Ok tt, w1)
    else (Err (sql_err ErrTxDone), w).

(** [tx.Rollback()]: undoes an open unit; after [Commit] it does nothing but
    return [sql.ErrTxDone], which is what makes [defer tx.Rollback()] safe. *)
Definition Rollback (tx : Tx) : M unit :=
  fun w =>
    if open_tx w then
      (Ok tt, with_db (restore_tables (undo tx) (db w))
                (with_open_tx false (with_event EvRollback w)))
    else (Err (sql_err ErrTxDone), w).

(** [result.LastInsertId()]: the id the INSERT produced. The services check
    the error it returns, so it may fail like any other call. *)
Definition LastInsertId (id : Z) : M Z :=
  round_trip EvLastInsertId (fun _ d => inr (id, d)).

(** *** sync.Map and sync.Mutex *)

(** [s.mu.LoadOrStore(userID, &sync.Mutex{})]: the mutex of an account is
    created the first time it is asked for. A mutex is named by its account. *)
Definition getMutex (userID : Z) : M Z :=
  fun w => (Ok userID, with_mu ({[userID]} ∪ mu w) w).

Definition Lock (m : Z) : M unit := emit (EvLock m).
Definition Unlock (m : Z) : M unit := emit (EvUnlock m).

Definition time_Now : M Z := fun w => (Ok (clock w), w).

(** A call whose error is only logged: [if err != nil { log }] and go on. *)
Definition tolerate (m : M unit) (h : error -> M unit) : M unit :=
  fun w =>
    match m w with
    | (Ok _, w1) => (Ok tt, w1)
    | (Err e, w1) => (Ok tt, snd (h e w1))
    end.

(** ** BalanceService (internal/services/balance_service.go) *)

Definition GetBalance (userID : Z) : M Balance.t :=
  row <- query false (SelectBalance userID false) (select_balance userID)
           or_else logged "error" "Error fetching balance" "database error";
  match row with
  | None => (* sql.ErrNoRows *)
      exec false (InsertBalance userID 0) (insert_balance userID 0)
        or_else logged "error" "Error initializing balance" "failed to initialize balance";;
      now <- time_Now;
      ret (Balance.mk userID 0 now)
  | Some r => ret (Balance.mk userID (BalancesRow.amount r) (BalancesRow.last_updated_at r))
  end.

Definition record_history (userID newBalance amount : Z) : M unit :=
  tolerate
    (exec true (InsertHistory userID newBalance amount None)
       (insert_history userID newBalance amount None))
    (fun _ => logger "warn" "Failed to record balance history (non-critical)").

Definition updateBalanceInTx (tx : Tx) (userID amount : Z) : M unit :=
  row <- query true (SelectBalance userID true) (select_balance userID)
           or_else wrap "failed to fetch balance";
  match row with
  | None => (* sql.ErrNoRows *)
      let newBalance := amount in
      if newBalance <? 0 then fail (errors_New "insufficient balance") else
      exec true (InsertBalance userID newBalance) (insert_balance userID newBalance)
        or_else wrap "failed to initialize balance";;
      record_history userID newBalance amount;;
      ret tt
  | Some r =>
      let currentBalance := BalancesRow.amount r in
      let newBalance := float64_add currentBalance amount in
      if newBalance <? 0 then fail (errors_New "insufficient balance") else
      exec true (UpdateBalanceAmount userID newBalance)
        (fun now d => inr (update_balance userID newBalance now d))
        or_else wrap "failed to update balance";;
      record_history userID newBalance amount;;
      ret tt
  end.

Definition UpdateBalance (userID amount : Z) : M unit :=
  mu <- getMutex userID;
  Lock mu;;
  defer (Unlock mu) (
    tx <- Begin or_else logged "error" "Error starting balance update transaction"
                          "failed to start transaction";
    defer (Rollback tx) (
      updateBalanceInTx tx userID amount;;
      Commit tx or_else logged "error" "Error committing balance update"
                          "failed to commit balance update";;
      logger "info" "Balance updated successfully";;
      ret tt)).

Definition scan_history (r : HistoryRow.t) : BalanceHistory.t :=
  BalanceHistory.mk (HistoryRow.id r) (HistoryRow.user_id r) (HistoryRow.balance r)
    (HistoryRow.change_amount r) (HistoryRow.transaction_id r) (HistoryRow.created_at r).

Definition GetBalanceHistory (userID limit offset : Z) : M (list BalanceHistory.t) :=
  rows <- query false (SelectHistoryPage userID limit offset)
            (select_history_page userID limit offset)
            or_else logged "error" "Error fetching balance history" "database error";
  ret (scan_history <$> rows).

Definition CalculateBalanceFromHistory (userID : Z) : M Z :=
  query false (SelectHistorySum userID)
    (fun d => scan_float64 (sum_change_amount userID d))
    or_else logged "error" "Error calculating balance from history" "database error".

(** [currentBalance.Amount != calculatedBalance] compares two [float64]: the
    amount as [GetBalance] scanned it and the sum as
    [CalculateBalanceFromHistory] scanned it. *)
Definition ReconcileBalance (userID : Z) : M unit :=
  currentBalance <- GetBalance userID;
  calculatedBalance <- CalculateBalanceFromHistory userID;
  (if decide (Balance.Amount currentBalance = calculatedBalance) then ret tt
   else logger "warn" "Balance discrepancy detected");;
  ret tt.

Definition GetBalanceAtTime (userID targetTime : Z) : M Z :=
  row <- query false (SelectHistoryAt userID targetTime) (select_balance_at userID targetTime)
           or_else logged "error" "Error fetching balance at time" "database error";
  match row with
  | None => ret 0 (* sql.ErrNoRows *)
  | Some balance => ret balance
  end.

(** ** TransactionService (internal/services/transaction_service.go) *)

(** [rows.Scan] of a row of [transactions] into a [models.Transaction]. *)
Definition scan_transaction (id : Z) (r : TransactionsRow.t) : Transaction.t :=
  Transaction.mk id (TransactionsRow.from_user_id r) (TransactionsRow.to_user_id r)
    (TransactionsRow.amount r) (TransactionsRow.type r) (TransactionsRow.status r)
    (TransactionsRow.created_at r).

Definition GetTransactionByID (transactionID : Z) : M Transaction.t :=
  row <- query false (SelectTransaction transactionID) (select_transaction transactionID)
           or_else logged "error" "Error fetching transaction" "database error";
  match row with
  | None => fail (errors_New "transaction not found") (* sql.ErrNoRows *)
  | Some r => ret (scan_transaction transactionID r)
  end.

Definition create_transaction (log_msg : string) (from to : option Z) (amount : Z)
    (type : string) : M Z :=
  result <- round_trip
              (EvSql true (InsertTransaction from to amount type TransactionStatusPending))
              (fun now d => insert_transaction from to amount type TransactionStatusPending now d)
              or_else logged "error" log_msg "failed to create transaction";
  LastInsertId result or_else wrap "failed to get transaction ID".

Definition set_transaction_status (log_msg : string) (transactionID : Z) (status : string)
    : M unit :=
  exec true (UpdateTransactionStatus transactionID status)
    (fun _ d => inr (update_transaction_status transactionID status d))
    or_else logged "error" log_msg "failed to update transaction status".

Definition Credit (req : CreditRequest.t) : M Transaction.t :=
  if CreditRequest.Amount req <=? 0 then fail (errors_New "amount must be greater than zero") else
  tx <- Begin or_else logged "error" "Error starting transaction" "failed to start transaction";
  defer (Rollback tx) (
    transactionID <- create_transaction "Error creating credit transaction"
                       None (Some (CreditRequest.UserID req)) (CreditRequest.Amount req)
                       TransactionTypeCredit;
    updateBalanceInTx tx (CreditRequest.UserID req) (CreditRequest.Amount req)
      or_else logged "error" "Error updating balance for credit" "failed to update balance";;
    set_transaction_status "Error updating transaction status" transactionID
      TransactionStatusCompleted;;
    Commit tx or_else logged "error" "Error committing credit transaction"
                        "failed to commit transaction";;
    transaction <- GetTransactionByID transactionID;
    logger "info" "Credit transaction completed";;
    ret transaction).

Definition Debit (req : DebitRequest.t) : M Transaction.t :=
  if DebitRequest.Amount req <=? 0 then fail (errors_New "amount must be greater than zero") else
  balance <- GetBalance (DebitRequest.UserID req) or_else wrap "failed to check balance";
  if Balance.Amount balance <? DebitRequest.Amount req
  then fail (errors_New "insufficient balance") else
  tx <- Begin or_else logged "error" "Error starting transaction" "failed to start transaction";
  defer (Rollback tx) (
    transactionID <- create_transaction "Error creating debit transaction"
                       (Some (DebitRequest.UserID req)) None (DebitRequest.Amount req)
                       TransactionTypeDebit;
    updateBalanceInTx tx (DebitRequest.UserID req) (- DebitRequest.Amount req)
      or_else logged "error" "Error updating balance for debit" "failed to update balance";;
    set_transaction_status "Error updating transaction status" transactionID
      TransactionStatusCompleted;;
    Commit tx or_else logged "error" "Error committing debit transaction"
                        "failed to commit transaction";;
    transaction <- GetTransactionByID transactionID;
    logger "info" "Debit transaction completed";;
    ret transaction).

Definition Transfer (req : TransferRequest.t) : M Transaction.t :=
  if TransferRequest.Amount req <=? 0
  then fail (errors_New "amount must be greater than zero") else
  if decide (TransferRequest.FromUserID req = TransferRequest.ToUserID req)
  then fail (errors_New "cannot transfer to the same account") else
  balance <- GetBalance (TransferRequest.FromUserID req) or_else wrap "failed to check balance";
  if Balance.Amount balance <? TransferRequest.Amount req
  then fail (errors_New "insufficient balance") else
  tx <- Begin or_else logged "error" "Error starting transfer transaction"
                        "failed to start transaction";
  defer (Rollback tx) (
    transactionID <- create_transaction "Error creating transfer transaction"
                       (Some (TransferRequest.FromUserID req))
                       (Some (TransferRequest.ToUserID req)) (TransferRequest.Amount req)
                       TransactionTypeTransfer;
    updateBalanceInTx tx (TransferRequest.FromUserID req) (- TransferRequest.Amount req)
      or_else logged "error" "Error debiting from sender" "failed to debit from sender";;
    updateBalanceInTx tx (TransferRequest.ToUserID req) (TransferRequest.Amount req)
      or_else logged "error" "Error crediting to receiver" "failed to credit to receiver";;
    set_transaction_status "Error updating transaction status" transactionID
      TransactionStatusCompleted;;
    Commit tx or_else logged "error" "Error committing transfer transaction"
                        "failed to commit transaction";;
    transaction <- GetTransactionByID transactionID;
    logger "info" "Transfer transaction completed";;
    ret transaction).

(** The [switch transaction.Type] of [RollbackTransaction]. *)
Definition compensate (tx : Tx) (transaction : Transaction.t) : M unit :=
  if decide (Transaction.Typ transaction = TransactionTypeCredit) then
    match Transaction.ToUserID transaction with
    | Some to =>
        updateBalanceInTx tx to (- Transaction.Amount transaction)
          or_else wrap "failed to reverse credit"
    | None => ret tt
    end
  else if decide (Transaction.Typ transaction = TransactionTypeDebit) then
    match Transaction.FromUserID transaction with
    | Some from =>
        updateBalanceInTx tx from (Transaction.Amount transaction)
          or_else wrap "failed to reverse debit"
    | None => ret tt
    end
  else if decide (Transaction.Typ transaction = TransactionTypeTransfer) then
    match Transaction.FromUserID transaction, Transaction.ToUserID transaction with
    | Some from, Some to =>
        updateBalanceInTx tx from (Transaction.Amount transaction)
          or_else wrap "failed to reverse transfer (sender)";;
        updateBalanceInTx tx to (- Transaction.Amount transaction)
          or_else wrap "failed to reverse transfer (receiver)"
    | _, _ => ret tt
    end
  else fail (errors_New "unknown transaction type").

Definition RollbackTransaction (transactionID : Z) : M unit :=
  transaction <- GetTransactionByID transactionID;
  if decide (Transaction.Status transaction = TransactionStatusRolledBack)
  then fail (errors_New "transaction already rolled back") else
  if decide (Transaction.Status transaction = TransactionStatusCompleted) then
    tx <- Begin or_else logged "error" "Error starting rollback transaction"
                          "failed to start transaction";
    defer (Rollback tx) (
      compensate tx transaction;;
      set_transaction_status "Error updating transaction status to rolled_back"
        transactionID TransactionStatusRolledBack;;
      Commit tx or_else logged "error" "Error committing rollback transaction"
                          "failed to commit rollback";;
      logger "info" "Transaction rolled back successfully";;
      ret tt)
  else fail (errors_New "only completed transactions can be rolled back").

(** ** TransactionService.GetUserTransactions *)

(** Insertion into a list kept in the order [before]. *)
Fixpoint insert_sorted {A} (before : A -> A -> bool) (r : A) (l : list A) : list A :=
  match l with
  | [] => [r]
  | x :: l' => if before r x then r :: x :: l' else x :: insert_sorted before r l'
  end.

(** The [SELECT] of [GetUserTransactions], the one statement the trace does
    not record: the oracle decides whether the driver fails; otherwise the
    store answers and stays as it is. *)
Definition unrecorded_query {A} (q : DB -> A) : M A :=
  fun w =>
    let (failed, fs) := next_fault (faults w) in
    let w1 := with_faults fs w in
    if failed then (Err (sql_err ErrDriver), w1) else (Ok (q (db w)), w1).

(** [WHERE from_user_id = ? OR to_user_id = ?]: a NULL column matches no
    account. *)
Definition involves (user_id : Z) (r : TransactionsRow.t) : Prop :=
  TransactionsRow.from_user_id r = Some user_id \/
  TransactionsRow.to_user_id r = Some user_id.

#[global] Instance involves_dec user_id r : Decision (involves user_id r).
Proof. unfold involves. apply _. Defined.

(** [ORDER BY created_at DESC] on records with their ids. SQL leaves the
    order of records with equal timestamps open; here the higher id comes
    first. *)
Definition newer (p q : Z * TransactionsRow.t) : bool :=
  (TransactionsRow.created_at (snd q) <? TransactionsRow.created_at (snd p)) ||
  ((TransactionsRow.created_at (snd q) =? TransactionsRow.created_at (snd p)) &&
   (fst q <? fst p)).

(** The records an account is a party of. *)
Definition transactions_of (user_id : Z) (d : DB) : list (Z * TransactionsRow.t) :=
  filter (fun p => involves user_id (snd p)) (map_to_list (transactions d)).

(** [SELECT ... FROM transactions WHERE from_user_id = ? OR to_user_id = ?
     ORDER BY created_at DESC LIMIT ? OFFSET ?] *)
Definition select_user_transactions (user_id limit offset : Z) (d : DB)
    : list (Z * TransactionsRow.t) :=
  take (Z.to_nat limit)
    (drop (Z.to_nat offset) (foldr (insert_sorted newer) [] (transactions_of user_id d))).

Definition GetUserTransactions (userID limit offset : Z) : M (list Transaction.t) :=
  rows <- unrecorded_query (select_user_transactions userID limit offset)
            or_else logged "error" "Error fetching user transactions" "database error";
  ret ((fun p => scan_transaction (fst p) (snd p)) <$> rows).

(** ** package handlers (internal/handlers) *)

Definition StatusOK : Z := 200.
Definition StatusCreated : Z := 201.
Definition StatusBadRequest : Z := 400.
Definition StatusUnauthorized : Z := 401.
Definition StatusForbidden : Z := 403.
Definition StatusNotFound : Z := 404.
Definition StatusInternalServerError : Z := 500.

Definition RoleAdmin : string := "admin".

(** What the handlers call from libraries, as parameters: a call that
    returns an error is [None]. *)
Record Lib := mkLib {
  Atoi : string -> option Z;                                  (* strconv.Atoi *)
  time_Parse : string -> option Z;                            (* time.Parse(time.RFC3339, _) *)
  decode_CreditRequest : string -> option CreditRequest.t;    (* json Decode of the body *)
  decode_DebitRequest : string -> option DebitRequest.t;
  decode_TransferRequest : string -> option TransferRequest.t }.

(** What a handler reads of a request: the values the authentication
    middleware left in the context, the query parameters ([""] for one that
    is absent), the route variables and the body. *)
Record Request := mkRequest {
  context_user_id : option Z;
  context_user_role : option string;
  url_query : string -> string;
  mux_vars : string -> string;
  request_body : string }.

(** [middleware.GetUserID] and [middleware.GetUserRole]: the value, or the
    zero value, and whether it was there. *)
Definition GetUserID (r : Request) : Z * bool :=
  match context_user_id r with
  | Some v => (v, true)
  | None => (0, false)
  end.

Definition GetUserRole (r : Request) : string * bool :=
  match context_user_role r with
  | Some v => (v, true)
  | None => ("", false)
  end.

Inductive message :=
| literal (s : string)
| err_Error (err : error).     (* err.Error() *)

Inductive payload :=
| ErrorBody (error : string) (msg : message)
| TransactionBody (t : Transaction.t)
| TransactionsBody (ts : list Transaction.t)
| BalanceBody (b : Balance.t)
| HistoryBody (h : list BalanceHistory.t)
| BalanceAtBody (user_id balance at_time : Z).

Record Response := mkResponse { status_code : Z; response_body : payload }.

Definition Handler : Type := World -> Response * World.

Definition respondWithError (code : Z) (errorCode msg : string) : Handler :=
  fun w => (mkResponse code (ErrorBody errorCode (literal msg)), w).

Definition respondWithJSON (code : Z) (p : payload) : Handler :=
  fun w => (mkResponse code p, w).

(** The account a request is about, a block the handlers that read repeat
    word for word: an admin may name another account in [user_id], and an
    unreadable number falls back to the admin's own. *)
Definition requested_user_id (lib : Lib) (r : Request) (currentUserID : Z) : Z :=
  let userRole := fst (GetUserRole r) in
  if decide (userRole = RoleAdmin) then
    let userIDStr := url_query r "user_id" in
    if decide (userIDStr <> "") then
      match Atoi lib userIDStr with
      | Some uid => uid
      | None => currentUserID
      end
    else currentUserID
  else currentUserID.

(** [limit] and [offset] of a request, as the paging handlers read them. *)
Definition page_limit (lib : Lib) (r : Request) : Z :=
  let limitStr := url_query r "limit" in
  if decide (limitStr <> "") then
    match Atoi lib limitStr with
    | Some l => if 0 <? l then l else 50
    | None => 50
    end
  else 50.

Definition page_offset (lib : Lib) (r : Request) : Z :=
  let offsetStr := url_query r "offset" in
  if decide (offsetStr <> "") then
    match Atoi lib offsetStr with
    | Some o => if 0 <=? o then o else 0
    | None => 0
    end
  else 0.

(** The end of [Credit], [Debit] and [Transfer]: the record with 201, or the
    error of the service with 400 after a log line. *)
Definition transaction_response (log_msg : string) (call : M Transaction.t) : Handler :=
  fun w =>
    match call w with
    | (Ok transaction, w1) => respondWithJSON StatusCreated (TransactionBody transaction) w1
    | (Err err, w1) =>
        (mkResponse StatusBadRequest (ErrorBody "transaction_failed" (err_Error err)),
         with_event (EvLog "error" log_msg) w1)
    end.

Module TransactionHandler.

Definition Credit (lib : Lib) (r : Request) : Handler :=
  match decode_CreditRequest lib (request_body r) with
  | None => respondWithError StatusBadRequest "invalid_request" "Invalid request body"
  | Some req =>
      let (userRole, ok) := GetUserRole r in
      if negb ok || bool_decide (userRole <> RoleAdmin)
      then respondWithError StatusForbidden "forbidden" "Only admins can credit accounts"
      else transaction_response "Credit transaction failed" (Credit req)
  end.

Definition Debit (lib : Lib) (r : Request) : Handler :=
  match decode_DebitRequest lib (request_body r) with
  | None => respondWithError StatusBadRequest "invalid_request" "Invalid request body"
  | Some req =>
      let (currentUserID, ok) := GetUserID r in
      if negb ok
      then respondWithError StatusUnauthorized "unauthorized" "User not authenticated" else
      let userRole := fst (GetUserRole r) in
      if bool_decide (userRole <> RoleAdmin) &&
         bool_decide (currentUserID <> DebitRequest.UserID req)
      then respondWithError StatusForbidden "forbidden" "You can only debit your own account"
      else transaction_response "Debit transaction failed" (Debit req)
  end.

Definition Transfer (lib : Lib) (r : Request) : Handler :=
  match decode_TransferRequest lib (request_body r) with
  | None => respondWithError StatusBadRequest "invalid_request" "Invalid request body"
  | Some req =>
      let (currentUserID, ok) := GetUserID r in
      if negb ok
      then respondWithError StatusUnauthorized "unauthorized" "User not authenticated" else
      let userRole := fst (GetUserRole r) in
      if bool_decide (userRole <> RoleAdmin) &&
         bool_decide (currentUserID <> TransferRequest.FromUserID req)
      then respondWithError StatusForbidden "forbidden"
             "You can only transfer from your own account"
      else transaction_response "Transfer transaction failed" (Transfer req)
  end.

Definition GetHistory (lib : Lib) (r : Request) : Handler :=
  let (currentUserID, ok) := GetUserID r in
  if negb ok
  then respondWithError StatusUnauthorized "unauthorized" "User not authenticated" else
  let limit := page_limit lib r in
  let offset := page_offset lib r in
  let userID := requested_user_id lib r currentUserID in
  fun w =>
    match GetUserTransactions userID limit offset w with
    | (Ok transactions, w1) => respondWithJSON StatusOK (TransactionsBody transactions) w1
    | (Err err, w1) =>
        respondWithError StatusInternalServerError "fetch_failed"
          "Failed to fetch transaction history"
          (with_event (EvLog "error" "Failed to fetch transaction history") w1)
    end.

Definition GetTransaction (lib : Lib) (r : Request) : Handler :=
  match Atoi lib (mux_vars r "id") with
  | None =>
      respondWithError StatusBadRequest "invalid_transaction_id" "Invalid transaction ID"
  | Some transactionID =>
      let (currentUserID, ok) := GetUserID r in
      if negb ok
      then respondWithError StatusUnauthorized "unauthorized" "User not authenticated" else
      fun w =>
        match GetTransactionByID transactionID w with
        | (Err err, w1) =>
            respondWithError StatusNotFound "transaction_not_found" "Transaction not found" w1
        | (Ok transaction, w1) =>
            let userRole := fst (GetUserRole r) in
            if bool_decide (userRole <> RoleAdmin) &&
               (match Transaction.FromUserID transaction with
                | Some from => bool_decide (from <> currentUserID)
                | None => false
                end &&
                match Transaction.ToUserID transaction with
                | Some to => bool_decide (to <> currentUserID)
                | None => false
                end)
            then respondWithError StatusForbidden "forbidden"
                   "You can only view your own transactions" w1
            else respondWithJSON StatusOK (TransactionBody transaction) w1
        end
  end.

End TransactionHandler.

Module BalanceHandler.

Definition GetCurrentBalance (lib : Lib) (r : Request) : Handler :=
  let (currentUserID, ok) := GetUserID r in
  if negb ok
  then respondWithError StatusUnauthorized "unauthorized" "User not authenticated" else
  let userID := requested_user_id lib r currentUserID in
  fun w =>
    match GetBalance userID w with
    | (Ok balance, w1) => respondWithJSON StatusOK (BalanceBody balance) w1
    | (Err err, w1) =>
        respondWithError StatusInternalServerError "fetch_failed" "Failed to fetch balance"
          (with_event (EvLog "error" "Failed to fetch balance") w1)
    end.

Definition GetHistoricalBalance (lib : Lib) (r : Request) : Handler :=
  let (currentUserID, ok) := GetUserID r in
  if negb ok
  then respondWithError StatusUnauthorized "unauthorized" "User not authenticated" else
  let limit := page_limit lib r in
  let offset := page_offset lib r in
  let userID := requested_user_id lib r currentUserID in
  fun w =>
    match GetBalanceHistory userID limit offset w with
    | (Ok history, w1) => respondWithJSON StatusOK (HistoryBody history) w1
    | (Err err, w1) =>
        respondWithError StatusInternalServerError "fetch_failed"
          "Failed to fetch balance history"
          (with_event (EvLog "error" "Failed to fetch balance history") w1)
    end.

Definition GetBalanceAtTime (lib : Lib) (r : Request) : Handler :=
  let (currentUserID, ok) := GetUserID r in
  if negb ok
  then respondWithError StatusUnauthorized "unauthorized" "User not authenticated" else
  let timeStr := url_query r "time" in
  if decide (timeStr = "")
  then respondWithError StatusBadRequest "missing_parameter" "time parameter is required" else
  match time_Parse lib timeStr with
  | None =>
      respondWithError StatusBadRequest "invalid_time"
        "Invalid time format. Use RFC3339 format"
  | Some targetTime =>
      let userID := requested_user_id lib r currentUserID in
      fun w =>
        match GetBalanceAtTime userID targetTime w with
        | (Ok balance, w1) =>
            respondWithJSON StatusOK (BalanceAtBody userID balance targetTime) w1
        | (Err err, w1) =>
            respondWithError StatusInternalServerError "fetch_failed"
              "Failed to fetch balance at time"
              (with_event (EvLog "error" "Failed to fetch balance at time") w1)
        end
  end.

End BalanceHandler.

(** ** Sequences of core operations *)

Inductive op :=
| OpCredit (req : CreditRequest.t)
| OpDebit (req : DebitRequest.t)
| OpTransfer (req : TransferRequest.t)
| OpRollbackTransaction (transactionID : Z)
| OpUpdateBalance (userID amount : Z).

(** The world after one operation; what the operation returned is dropped. *)
Definition run_op (o : op) (w : World) : World :=
  match o with
  | OpCredit req => snd (Credit req w)
  | OpDebit req => snd (Debit req w)
  | OpTransfer req => snd (Transfer req w)
  | OpRollbackTransaction id => snd (RollbackTransaction id w)
  | OpUpdateBalance u a => snd (UpdateBalance u a w)
  end.

Definition run_ops (os : list op) (w : World) : World :=
  foldl (fun w o => run_op o w) w os.

(** ** Observations on the store *)

(** The amount held for an account in a balances table: the stored one, or
    zero without a row. This is what [GetBalance] reports. *)
Definition amount_at (b : gmap Z BalancesRow.t) (user_id : Z) : Z :=
  match b !! user_id with
  | Some r => BalancesRow.amount r
  | None => 0
  end.

Definition balance_of (d : DB) (user_id : Z) : Z := amount_at (balances d) user_id.

(** The amount [updateBalanceInTx] computes for an account to which it
    applies [delta]: for an account with a row the [float64] sum of the
    stored amount and [delta], for an account without one [delta] itself. *)
Definition new_amount (b : gmap Z BalancesRow.t) (user_id delta : Z) : Z :=
  match b !! user_id with
  | Some r => float64_add (BalancesRow.amount r) delta
  | None => delta
  end.

(** The balances table after [delta] is applied to one account at [now]. *)
Definition adjust (user_id delta now : Z) (b : gmap Z BalancesRow.t)
    : gmap Z BalancesRow.t :=
  <[user_id := BalancesRow.mk (new_amount b user_id delta) now]> b.

(** The balances table after the compensation [RollbackTransaction] applies
    for a record of type credit, debit or transfer: a credit is taken back
    from its receiver, a debit given back to its sender, a transfer given
    back to its sender and taken back from its receiver. *)
Definition compensation (r : TransactionsRow.t) (now : Z) (b : gmap Z BalancesRow.t)
    : gmap Z BalancesRow.t :=
  if decide (TransactionsRow.type r = TransactionTypeCredit) then
    match TransactionsRow.to_user_id r with
    | Some to => adjust to (- TransactionsRow.amount r) now b
    | None => b
    end
  else if decide (TransactionsRow.type r = TransactionTypeDebit) then
    match TransactionsRow.from_user_id r with
    | Some from => adjust from (TransactionsRow.amount r) now b
    | None => b
    end
  else
    match TransactionsRow.from_user_id r, TransactionsRow.to_user_id r with
    | Some from, Some to =>
        adjust to (- TransactionsRow.amount r) now
          (adjust from (TransactionsRow.amount r) now b)
    | _, _ => b
    end.

(** No stored balance is negative. *)
Definition balances_nonneg (d : DB) : Prop :=
  forall user_id r, balances d !! user_id = Some r -> 0 <= BalancesRow.amount r.

(** The four tables are the same (the AUTO_INCREMENT counters may differ). *)
Definition same_tables (d d' : DB) : Prop :=
  users d' = users d /\ transactions d' = transactions d /\
  balances d' = balances d /\ balance_history d' = balance_history d.

(** Predicates on the store kept by every write the services issue: a balance
    row written with a non-negative amount, a history row with a NULL
    transaction id, a transaction inserted as pending, a status update, and
    the undo of a unit. *)
Record ledger_stable (I : DB -> Prop) : Prop := {
  stable_insert_balance : forall u a now d d',
    0 <= a -> insert_balance u a now d = inr d' -> I d -> I d';
  stable_update_balance : forall u a now d,
    0 <= a -> I d -> I (update_balance u a now d);
  stable_insert_history : forall u b c now d d',
    insert_history u b c None now d = inr d' -> I d -> I d';
  stable_insert_transaction : forall f t a ty now d id d',
    insert_transaction f t a ty TransactionStatusPending now d = inr (id, d') -> I d -> I d';
  stable_update_status : forall id s d, I d -> I (update_transaction_status id s d);
  stable_restore : forall snap cur, I snap -> I (restore_tables snap cur) }.

(** What the services may put on the trace. [guards] tells whether the
    per-account mutex may be taken. Writes of a balance carry a non-negative
    amount, history rows a NULL transaction id; a transaction is inserted
    inside a unit with the status pending, and a status is only ever set,
    inside a unit, to completed or rolled_back. *)
Definition service_event (guards : bool) (e : event) : Prop :=
  match e with
  | EvLock _ | EvUnlock _ => guards = true
  | EvSql _ (InsertBalance _ amount) | EvSql _ (UpdateBalanceAmount _ amount) => 0 <= amount
  | EvSql _ (InsertHistory _ _ _ transaction_id) => transaction_id = None
  | EvSql in_tx (InsertTransaction _ _ _ _ status) =>
      in_tx = true /\ status = TransactionStatusPending
  | EvSql in_tx (UpdateTransactionStatus _ status) =>
      in_tx = true /\
      (status = TransactionStatusCompleted \/ status = TransactionStatusRolledBack)
  | _ => True
  end.

(** [evs] extends [evs0] by events that all satisfy [P]. *)
Definition extends_by (P : event -> Prop) (evs0 evs : list event) : Prop :=
  exists new, evs = evs0 ++ new /\ Forall P new.

(** The oracle has no failure left to inject. *)
Definition no_faults (w : World) : Prop := faults w = [].

(** What a call leaves alone besides the store and the trace: the state of
    the unit, the clock, and an exhausted oracle stays exhausted. *)
Definition frame (w w' : World) : Prop :=
  open_tx w' = open_tx w /\ clock w' = clock w /\ (no_faults w -> no_faults w').

(** The effect of [updateBalanceInTx] on the tables when it succeeds: the
    account's row holds [new], stamped [now]; the history gains the row
    describing the change, or, when that insert failed, nothing. *)
Definition balance_written (user_id new change now : Z) (d d' : DB) : Prop :=
  users d' = users d /\ transactions d' = transactions d /\
  balances d' = <[user_id := BalancesRow.mk new now]> (balances d) /\
  (balance_history d' = balance_history d \/
   balance_history d' =
     balance_history d ++
       [HistoryRow.mk (balance_history_auto_increment d) user_id new change None now]).

(** The effect of a successful insert into [transactions]. *)
Definition transaction_inserted (id : Z) (row : TransactionsRow.t) (d d' : DB) : Prop :=
  transactions d !! id = None /\
  transactions d' = <[id := row]> (transactions d) /\
  users d' = users d /\ balances d' = balances d /\
  balance_history d' = balance_history d.

(** Nothing the ledger records has changed: the tables are as before, up to
    balance rows that did not exist and now hold zero. *)
Definition untouched (d d' : DB) : Prop :=
  users d' = users d /\ transactions d' = transactions d /\
  balance_history d' = balance_history d /\
  balances d ⊆ balances d' /\
  forall user_id, balance_of d' user_id = balance_of d user_id.

(** A committed unit left exactly one new record, completed. *)
Definition recorded (id : Z) (from to : option Z) (amount : Z) (type : string)
    (now : Z) (d d' : DB) : Prop :=
  transactions d !! id = None /\
  transactions d' =
    <[id := TransactionsRow.mk from to amount type TransactionStatusCompleted now]>
      (transactions d).

(** The statements that write an amount into [balances] carry a non-negative
    one. *)
Definition balance_write_nonneg (e : event) : Prop :=
  match e with
  | EvSql _ (InsertBalance _ amount) | EvSql _ (UpdateBalanceAmount _ amount) => 0 <= amount
  | _ => True
  end.

(** The statements that insert into [balance_history] leave the transaction
    id NULL. *)
Definition history_write_unlinked (e : event) : Prop :=
  match e with
  | EvSql _ (InsertHistory _ _ _ transaction_id) => transaction_id = None
  | _ => True
  end.

(** The history of [d'] is the one of [d] followed by rows without a
    transaction id. *)
Definition history_grows_unlinked (d d' : DB) : Prop :=
  exists new,
    balance_history d' = balance_history d ++ new /\
    Forall (fun r => HistoryRow.transaction_id r = None) new.

(** A small ledger for examples: accounts 1 and 2 are registered users,
    account 1 holds 100, nothing else is stored. *)
Definition ledger_example : DB :=
  mkDB {[1; 2]} ∅ 1 {[1 := BalancesRow.mk 100 0]} [] 1.

Definition world_example (fs : list bool) : World :=
  mkWorld ledger_example false ∅ 10 fs [].


(** Acquisition or release of a per-account mutex. *)
Definition guard_event (e : event) : Prop :=
  match e with
  | EvLock _ | EvUnlock _ => True
  | _ => False
  end.

(** The accounts whose mutex is taken on a trace before a unit is opened,
    in the order of acquisition. *)
Fixpoint guards_before_unit (evs : list event) : list Z :=
  match evs with
  | [] => []
  | EvBegin :: _ => []
  | EvLock user_id :: evs' => user_id :: guards_before_unit evs'
  | _ :: evs' => guards_before_unit evs'
  end.

(** The discipline the specification asks of a transfer between [a] and [b]:
    both guards are taken before the unit opens, lower account id first. *)
Definition guards_in_ascending_order (a b : Z) (evs : list event) : Prop :=
  guards_before_unit evs = [Z.min a b; Z.max a b].

(** One legal move of the record stored under an id, from one committed
    store to the next: the record appears, completed; or a completed record
    becomes rolled back. A record that stays as it is makes no move. *)
Inductive status_step : option TransactionsRow.t -> option TransactionsRow.t -> Prop :=
| step_created r :
    TransactionsRow.status r = TransactionStatusCompleted ->
    status_step None (Some r)
| step_rolled_back r :
    TransactionsRow.status r = TransactionStatusCompleted ->
    status_step (Some r) (Some (set_status TransactionStatusRolledBack r)).

(** The writes of a status on the trace: a record is inserted inside a unit
    as pending; a status is set, inside a unit, to completed or rolled_back. *)
Definition status_write_legal (e : event) : Prop :=
  match e with
  | EvSql in_tx (InsertTransaction _ _ _ _ status) =>
      in_tx = true /\ status = TransactionStatusPending
  | EvSql in_tx (UpdateTransactionStatus _ status) =>
      in_tx = true /\
      (status = TransactionStatusCompleted \/ status = TransactionStatusRolledBack)
  | _ => True
  end.

(** The log lines on a trace, as (level, message). *)
Definition log_lines (evs : list event) : list (string * string) :=
  omap (fun e => match e with
                 | EvLog level msg => Some (level, msg)
                 | _ => None
                 end) evs.

(** The sum of the history deltas of an account, in the words of the
    specification: every history row of the account counts with its change
    amount, no other row counts. *)
Fixpoint sum_of_changes (user_id : Z) (rows : list HistoryRow.t) : Z :=
  match rows with
  | [] => 0
  | r :: rows' =>
      if decide (HistoryRow.user_id r = user_id)
      then HistoryRow.change_amount r + sum_of_changes user_id rows'
      else sum_of_changes user_id rows'
  end.

Definition history_deltas (user_id : Z) (d : DB) : Z :=
  sum_of_changes user_id (balance_history d).

(** The history rows of an account written at or before [target]. *)
Definition recorded_until (user_id target : Z) (d : DB) (r : HistoryRow.t) : Prop :=
  r ∈ balance_history d /\ HistoryRow.user_id r = user_id /\
  HistoryRow.created_at r <= target.

(** The row lock a statement takes: [SELECT ... FOR UPDATE] on a balance
    row locks the row of that account until the unit ends. *)
Definition row_lock (e : event) : list Z :=
  match e with
  | EvSql _ (SelectBalance user_id true) => [user_id]
  | _ => []
  end.

(** [evs] extends [evs0] by events that take the row locks [locks], in that
    order. *)
Definition locks_since (evs0 evs : list event) (locks : list Z) : Prop :=
  exists new, evs = evs0 ++ new /\ flat_map row_lock new = locks.

(** ** The ledger when the store answers every call *)

(** The tables after [updateBalanceInTx] has applied [delta] to an account at
    [now] and every statement was answered: the row of the account holds the
    new balance, and the history has the row of the change when the account
    is a registered user (otherwise the foreign key refuses the row, which
    the service only logs). *)
Definition apply_delta (user_id delta now : Z) (d : DB) : DB :=
  let new := new_amount (balances d) user_id delta in
  let d1 := mkDB (users d) (transactions d) (transactions_auto_increment d)
              (<[user_id := BalancesRow.mk new now]> (balances d))
              (balance_history d) (balance_history_auto_increment d) in
  match insert_history user_id new delta None now d1 with
  | inr d2 => d2
  | inl _ => d1
  end.

(** Several deltas applied in turn, as the two updates of a transfer are. *)
Definition apply_deltas (now : Z) (deltas : list (Z * Z)) (d : DB) : DB :=
  foldl (fun d p => apply_delta (fst p) (snd p) now d) d deltas.

(** No delta of the list takes its account below zero when they are applied
    in turn. *)
Fixpoint affordable (now : Z) (deltas : list (Z * Z)) (d : DB) : Prop :=
  match deltas with
  | [] => True
  | p :: deltas' =>
      0 <= balance_of d (fst p) + snd p /\
      affordable now deltas' (apply_delta (fst p) (snd p) now d)
  end.


(** The deltas by which [RollbackTransaction] compensates a record. *)
Definition compensating_deltas (r : TransactionsRow.t) : list (Z * Z) :=
  if decide (TransactionsRow.type r = TransactionTypeCredit) then
    match TransactionsRow.to_user_id r with
    | Some to => [(to, - TransactionsRow.amount r)]
    | None => []
    end
  else if decide (TransactionsRow.type r = TransactionTypeDebit) then
    match TransactionsRow.from_user_id r with
    | Some from => [(from, TransactionsRow.amount r)]
    | None => []
    end
  else
    match TransactionsRow.from_user_id r, TransactionsRow.to_user_id r with
    | Some from, Some to =>
        [(from, TransactionsRow.amount r); (to, - TransactionsRow.amount r)]
    | _, _ => []
    end.

(** The type of a record is one [RollbackTransaction] knows to compensate. *)
Definition known_type (r : TransactionsRow.t) : Prop :=
  TransactionsRow.type r = TransactionTypeCredit \/
  TransactionsRow.type r = TransactionTypeDebit \/
  TransactionsRow.type r = TransactionTypeTransfer.


(** The AUTO_INCREMENT counter of [transactions] is past every stored id. *)
Definition counter_fresh (d : DB) : Prop :=
  forall id, transactions_auto_increment d <= id -> transactions d !! id = None.

(** ** Pages of rows, newest first *)

(** Timestamps from the most recent to the oldest. *)
Fixpoint descending (ts : list Z) : Prop :=
  match ts with
  | [] => True
  | t :: ts' => Forall (fun t' => t' <= t) ts' /\ descending ts'
  end.

(** The history rows of one account. *)
Definition history_of (user_id : Z) (d : DB) : list HistoryRow.t :=
  filter (fun r => HistoryRow.user_id r = user_id) (balance_history d).

(** ** The reconciliation invariant *)

(** Every balance is the sum of the history deltas of its account. *)
Definition reconciled (d : DB) : Prop :=
  forall user_id, balance_of d user_id = history_deltas user_id d.







(** A ledger for examples in which nothing has happened yet: accounts 1 and
    2 are registered users, no balance, no history, no record. *)
Definition ledger_empty : DB := mkDB {[1; 2]} ∅ 1 ∅ [] 1.

(** The empty ledger after a credit of 2^53 to account 1 and a credit of 1
    more, with the store answering: the second sum is rounded. *)
Definition world_rounded : World :=
  run_ops [OpCredit (CreditRequest.mk 1 9007199254740992); OpCredit (CreditRequest.mk 1 1)]
    (mkWorld ledger_empty false ∅ 10 [] []).

(** Every amount of the store is one a [float64] holds: the balances, the
    amounts of the records, and the balances and changes of the history. *)
Definition store_float64 (d : DB) : Prop :=
  (forall user_id r, balances d !! user_id = Some r -> is_float64 (BalancesRow.amount r)) /\
  (forall id r, transactions d !! id = Some r -> is_float64 (TransactionsRow.amount r)) /\
  Forall (fun r => is_float64 (HistoryRow.balance r) /\ is_float64 (HistoryRow.change_amount r))
    (balance_history d).

(** The amount an operation names is one a [float64] holds, as the amount
    of a decoded request is. *)
Definition op_float64 (o : op) : Prop :=
  match o with
  | OpCredit req => is_float64 (CreditRequest.Amount req)
  | OpDebit req => is_float64 (DebitRequest.Amount req)
  | OpTransfer req => is_float64 (TransferRequest.Amount req)
  | OpRollbackTransaction _ => True
  | OpUpdateBalance _ amount => is_float64 amount
  end.

(** Inside a unit begun on [snapshot]: the counter of [transactions] has not
    gone back and is past every stored id. *)
Definition ids_ahead (snapshot d : DB) : Prop :=
  transactions_auto_increment snapshot <= transactions_auto_increment d /\
  counter_fresh d.

(** ** Reasoning about service code: weakest preconditions *)

Definition wp {A} (m : M A) (w : World) (Q : result A -> World -> Prop) : Prop :=
  Q (fst (m w)) (snd (m w)).

Lemma wp_mono {A} (m : M A) w (P Q : result A -> World -> Prop) :
  wp m w P -> (forall r w', P r w' -> Q r w') -> wp m w Q.
Proof. unfold wp. auto. Qed.

Lemma wp_ret {A} (a : A) w Q : Q (Ok a) w -> wp (ret a) w Q.
Proof. auto. Qed.

Lemma wp_fail {A} e w (Q : result A -> World -> Prop) : Q (Err e) w -> wp (fail e) w Q.
Proof. auto. Qed.

Lemma wp_bind {A B} (m : M A) (k : A -> M B) w Q :
  wp m w (fun r w1 => match r with
                      | Ok a => wp (k a) w1 Q
                      | Err e => Q (Err e) w1
                      end) ->
  wp (bind m k) w Q.
Proof. unfold wp, bind. destruct (m w) as [[a|e] w1]; auto. Qed.

Lemma wp_on_err {A} (m : M A) h w Q :
  wp m w (fun r w1 => match r with
                      | Ok a => Q (Ok a) w1
                      | Err e => wp (h e) w1 (fun r' w2 =>
                                   match r' with Ok e' | Err e' => Q (Err e') w2 end)
                      end) ->
  wp (on_err m h) w Q.
Proof.
  unfold wp, on_err. destruct (m w) as [[a|e] w1]; simpl; auto.
  destruct (h e w1) as [[e'|e'] w2]; auto.
Qed.

Lemma wp_defer {A B} (d : M B) (body : M A) w Q :
  wp body w (fun r w1 => wp d w1 (fun _ w2 => Q r w2)) -> wp (defer d body) w Q.
Proof. unfold wp, defer. destruct (body w) as [r w1]; auto. Qed.

Lemma wp_tolerate m h w Q :
  wp m w (fun r w1 => match r with
                      | Ok _ => Q (Ok tt) w1
                      | Err e => wp (h e) w1 (fun _ w2 => Q (Ok tt) w2)
                      end) ->
  wp (tolerate m h) w Q.
Proof. unfold wp, tolerate. destruct (m w) as [[a|e] w1]; auto. Qed.

Lemma wp_emit e w Q : Q (Ok tt) (with_event e w) -> wp (emit e) w Q.
Proof. auto. Qed.

Lemma wp_logger level msg w Q :
  Q (Ok tt) (with_event (EvLog level msg) w) -> wp (logger level msg) w Q.
Proof. auto. Qed.

Lemma wp_wrap msg e w Q : Q (Ok (fmt_Errorf msg e)) w -> wp (wrap msg e) w Q.
Proof. auto. Qed.

Lemma wp_logged level log_msg msg e w Q :
  Q (Ok (fmt_Errorf msg e)) (with_event (EvLog level log_msg) w) ->
  wp (logged level log_msg msg e) w Q.
Proof. auto. Qed.

Lemma wp_round_trip {A} ev (run : Z -> DB -> sql_error + (A * DB)) w Q :
  (forall fs, next_fault (faults w) = (true, fs) ->
     Q (Err (sql_err ErrDriver)) (with_faults fs (with_event ev w))) ->
  (forall fs e, next_fault (faults w) = (false, fs) -> run (clock w) (db w) = inl e ->
     Q (Err (sql_err e)) (with_faults fs (with_event ev w))) ->
  (forall fs a d, next_fault (faults w) = (false, fs) -> run (clock w) (db w) = inr (a, d) ->
     Q (Ok a) (with_db d (with_faults fs (with_event ev w)))) ->
  wp (round_trip ev run) w Q.
Proof.
  intros Hf He Hok. unfold wp, round_trip.
  destruct (next_fault (faults w)) as [[|] fs]; simpl; [apply Hf; reflexivity|].
  destruct (run (clock w) (db w)) as [e|[a d]] eqn:E; simpl; auto.
Qed.

Lemma wp_query {A} in_tx s (q : DB -> A) w Q :
  (forall fs, next_fault (faults w) = (true, fs) ->
     Q (Err (sql_err ErrDriver)) (with_faults fs (with_event (EvSql in_tx s) w))) ->
  (forall fs, next_fault (faults w) = (false, fs) ->
     Q (Ok (q (db w))) (with_faults fs (with_event (EvSql in_tx s) w))) ->
  wp (query in_tx s q) w Q.
Proof.
  intros Hf Hok. apply wp_round_trip; auto; [discriminate|].
  intros fs a d Hn [= <- <-]. destruct w; apply Hok, Hn.
Qed.

Lemma wp_exec in_tx s run w Q :
  (forall fs, next_fault (faults w) = (true, fs) ->
     Q (Err (sql_err ErrDriver)) (with_faults fs (with_event (EvSql in_tx s) w))) ->
  (forall fs e, next_fault (faults w) = (false, fs) -> run (clock w) (db w) = inl e ->
     Q (Err (sql_err e)) (with_faults fs (with_event (EvSql in_tx s) w))) ->
  (forall fs d, next_fault (faults w) = (false, fs) -> run (clock w) (db w) = inr d ->
     Q (Ok tt) (with_db d (with_faults fs (with_event (EvSql in_tx s) w)))) ->
  wp (exec in_tx s run) w Q.
Proof.
  intros Hf He Hok. apply wp_round_trip; auto.
  - intros fs e Hn. destruct (run (clock w) (db w)) eqn:E; [|discriminate].
    intros [= <-]. auto.
  - intros fs [] d Hn. destruct (run (clock w) (db w)) eqn:E; [discriminate|].
    intros [= <-]. auto.
Qed.

Lemma wp_Begin w Q :
  (forall fs, next_fault (faults w) = (true, fs) ->
     Q (Err (sql_err ErrDriver)) (with_faults fs (with_event EvBegin w))) ->
  (forall fs, next_fault (faults w) = (false, fs) ->
     Q (Ok (mkTx (db w))) (with_open_tx true (with_faults fs (with_event EvBegin w)))) ->
  wp Begin w Q.
Proof.
  intros Hf Hok. unfold wp, Begin.
  destruct (next_fault (faults w)) as [[|] fs]; simpl; auto.
Qed.

Lemma wp_Commit tx w Q :
  (open_tx w = false -> Q (Err (sql_err ErrTxDone)) w) ->
  (forall fs, open_tx w = true -> next_fault (faults w) = (true, fs) ->
     Q (Err (sql_err ErrDriver))
       (with_db (restore_tables (undo tx) (db w))
          (with_open_tx false (with_faults fs (with_event EvCommit w))))) ->
  (forall fs, open_tx w = true -> next_fault (faults w) = (false, fs) ->
     Q (Ok tt) (with_open_tx false (with_faults fs (with_event EvCommit w)))) ->
  wp (Commit tx) w Q.
Proof.
  intros Hd Hf Hok. unfold wp, Commit. destruct (open_tx w); [|auto].
  destruct (next_fault (faults w)) as [[|] fs]; simpl; auto.
Qed.

Lemma wp_Rollback tx w Q :
  (open_tx w = false -> Q (Err (sql_err ErrTxDone)) w) ->
  (open_tx w = true ->
     Q (Ok tt) (with_db (restore_tables (undo tx) (db w))
                  (with_open_tx false (with_event EvRollback w)))) ->
  wp (Rollback tx) w Q.
Proof. intros Hd Hok. unfold wp, Rollback. destruct (open_tx w); auto. Qed.

Lemma wp_time_Now w Q : Q (Ok (clock w)) w -> wp time_Now w Q.
Proof. auto. Qed.

Lemma wp_getMutex u w Q : Q (Ok u) (with_mu ({[u]} ∪ mu w) w) -> wp (getMutex u) w Q.
Proof. auto. Qed.

(** ** Rounding to float64 *)

Lemma float64_round_small z : Z.abs z < 2 ^ 53 -> float64_round z = z.
Proof.
  intros H. unfold float64_round.
  assert (Z.log2 (Z.abs z) - 52 <= 0) as He.
  { destruct (Z.eq_dec (Z.abs z) 0) as [->|Hne]; [simpl; lia|].
    assert (Z.log2 (Z.abs z) < 53); [|lia].
    apply Z.log2_lt_pow2; lia. }
  apply Z.leb_le in He. rewrite He. reflexivity.
Qed.

(** The shape of a rounded amount of 2^53 or more in magnitude. *)
Lemma float64_round_large z :
  2 ^ 53 <= Z.abs z ->
  let e := Z.log2 (Z.abs z) - 52 in
  let q := Z.abs z / 2 ^ e in
  0 < e /\ 2 ^ 52 <= q < 2 ^ 53 /\
  exists q', float64_round z = Z.sgn z * (q' * 2 ^ e) /\
             q <= q' <= q + 1 /\ (Z.abs z mod 2 ^ e = 0 -> q' = q).
Proof.
  intros H. cbv zeta.
  assert (53 <= Z.log2 (Z.abs z)) as Hlog by (apply Z.log2_le_pow2; lia).
  set (e := Z.log2 (Z.abs z) - 52).
  assert (0 < e) as He by lia.
  destruct (Z.log2_spec (Z.abs z)) as [Hlo Hhi]; [lia|].
  replace (Z.log2 (Z.abs z)) with (52 + e) in Hlo by lia.
  replace (Z.succ (Z.log2 (Z.abs z))) with (53 + e) in Hhi by lia.
  rewrite Z.pow_add_r in Hlo, Hhi by lia.
  assert (0 < 2 ^ e) as Hu by (apply Z.pow_pos_nonneg; lia).
  split; [exact He|]. split.
  - split; [apply Z.div_le_lower_bound; lia | apply Z.div_lt_upper_bound; lia].
  - unfold float64_round. fold e. rewrite (proj2 (Z.leb_gt e 0)) by lia.
    eexists. split; [reflexivity|].
    pose proof (Z.mod_pos_bound (Z.abs z) (2 ^ e) Hu) as Hr.
    destruct (Z.compare_spec (2 * (Z.abs z mod 2 ^ e)) (2 ^ e)) as [Heq|Hlt|Hgt].
    + destruct (Z.even _); split; try lia; intros H0; rewrite H0 in Heq; lia.
    + split; [lia | reflexivity].
    + split; [lia | intros H0; rewrite H0 in Hgt; lia].
Qed.

Lemma float64_round_exact z : float64_exact z -> float64_round z = z.
Proof.
  unfold float64_exact. intros H.
  destruct (Z_lt_le_dec (Z.abs z) (2 ^ 53)) as [Hs|Hl]; [apply float64_round_small, Hs|].
  assert (Z.abs z = 2 ^ 53) as Habs by lia.
  unfold float64_round. rewrite Habs.
  destruct z; try discriminate; simpl in Habs; injection Habs as ->; reflexivity.
Qed.

Lemma float64_round_opp z : float64_round (- z) = - float64_round z.
Proof.
  unfold float64_round. rewrite Z.abs_opp, Z.sgn_opp.
  destruct (_ <=? 0); [reflexivity | lia].
Qed.

Lemma float64_round_pos z : 0 < z -> 0 < float64_round z.
Proof.
  intros Hz. destruct (Z_lt_le_dec (Z.abs z) (2 ^ 53)) as [Hs|Hl].
  - rewrite float64_round_small by exact Hs. exact Hz.
  - destruct (float64_round_large z Hl) as (He & Hq & q' & -> & Hq' & _).
    rewrite Z.sgn_pos by exact Hz.
    assert (0 < 2 ^ (Z.log2 (Z.abs z) - 52)) by (apply Z.pow_pos_nonneg; lia).
    nia.
Qed.

Lemma float64_round_ltb z : (float64_round z <? 0) = (z <? 0).
Proof.
  destruct (Z.lt_total z 0) as [Hn|[->|Hp]].
  - assert (0 < float64_round (- z)) as H by (apply float64_round_pos; lia).
    rewrite float64_round_opp in H.
    rewrite (proj2 (Z.ltb_lt _ _)) by lia. symmetry. apply Z.ltb_lt. exact Hn.
  - reflexivity.
  - apply float64_round_pos in Hp as H.
    rewrite (proj2 (Z.ltb_ge _ _)) by lia. symmetry. apply Z.ltb_ge. lia.
Qed.

(** A [float64] of 2^53 or more is a multiple of the unit of its binade. *)
Lemma float64_multiple g :
  float64_round g = g -> 2 ^ 53 <= g ->
  exists m, g = m * 2 ^ (Z.log2 g - 52).
Proof.
  intros Hg Hl. assert (Z.abs g = g) as Habs by lia.
  destruct (float64_round_large g) as (_ & _ & q' & Hr & _); [lia|].
  rewrite Habs, Hg, Z.sgn_pos in Hr by lia. exists q'. lia.
Qed.

(** No [float64] lies between an amount and its rounding, from below. *)
Lemma float64_round_above g a :
  float64_round g = g -> 0 <= g <= a -> g <= float64_round a.
Proof.
  intros Hg [H0 Hga].
  destruct (Z_lt_le_dec (Z.abs a) (2 ^ 53)) as [Hs|Hl].
  { rewrite float64_round_small by exact Hs. exact Hga. }
  assert (Z.abs a = a) as Habs by lia.
  destruct (float64_round_large a Hl) as (He & Hq & q' & -> & Hq' & _).
  rewrite Habs in *. rewrite Z.sgn_pos by lia.
  set (e := Z.log2 a - 52) in *.
  assert (0 < 2 ^ e) as Hu by (apply Z.pow_pos_nonneg; lia).
  destruct (Z.log2_spec a) as [Hlo Hhi]; [lia|].
  replace (Z.log2 a) with (52 + e) in Hlo by lia.
  rewrite Z.pow_add_r in Hlo by lia.
  assert (2 ^ 52 * 2 ^ e <= q' * 2 ^ e) as Hbase by nia.
  destruct (Z_lt_le_dec g (2 ^ 52 * 2 ^ e)) as [Hlow|Hsame]; [lia|].
  assert (Z.log2 g = 52 + e) as Hlg.
  { apply Z.le_antisymm.
    - replace (52 + e) with (Z.log2 a) by lia. apply Z.log2_le_mono. exact Hga.
    - apply Z.log2_le_pow2; [lia|]. rewrite Z.pow_add_r by lia. exact Hsame. }
  assert (2 ^ 1 <= 2 ^ e) as Htwo by (apply Z.pow_le_mono_r; lia).
  destruct (float64_multiple g Hg) as [m Hm]; [lia|].
  rewrite Hlg in Hm. replace (52 + e - 52) with e in Hm by lia.
  assert (m <= a / 2 ^ e) by (apply Z.div_le_lower_bound; lia).
  nia.
Qed.

(** No [float64] lies between an amount and its rounding, from above. *)
Lemma float64_round_below g a :
  float64_round g = g -> 0 <= a <= g -> float64_round a <= g.
Proof.
  intros Hg [H0 Hag].
  destruct (Z_lt_le_dec (Z.abs a) (2 ^ 53)) as [Hs|Hl].
  { rewrite float64_round_small by exact Hs. exact Hag. }
  assert (Z.abs a = a) as Habs by lia.
  destruct (float64_round_large a Hl) as (He & Hq & q' & -> & Hq' & Hzero).
  rewrite Habs in *. rewrite Z.sgn_pos by lia.
  set (e := Z.log2 a - 52) in *.
  assert (0 < 2 ^ e) as Hu by (apply Z.pow_pos_nonneg; lia).
  destruct (Z.log2_spec a) as [Hlo Hhi]; [lia|].
  replace (Z.succ (Z.log2 a)) with (53 + e) in Hhi by lia.
  rewrite Z.pow_add_r in Hhi by lia.
  assert (q' * 2 ^ e <= 2 ^ 53 * 2 ^ e) as Htop by nia.
  destruct (Z_lt_le_dec g (2 ^ 53 * 2 ^ e)) as [Hsame|Hhigh]; [|lia].
  assert (Z.log2 g = 52 + e) as Hlg.
  { apply Z.le_antisymm.
    - assert (Z.log2 g < 53 + e); [|lia].
      apply Z.log2_lt_pow2; [lia|]. rewrite Z.pow_add_r by lia. exact Hsame.
    - replace (52 + e) with (Z.log2 a) by lia. apply Z.log2_le_mono. exact Hag. }
  destruct (float64_multiple g Hg) as [m Hm]; [lia|].
  rewrite Hlg in Hm. replace (52 + e - 52) with e in Hm by lia.
  pose proof (Z.div_mod a (2 ^ e) ltac:(lia)) as Hdm.
  pose proof (Z.mod_pos_bound a (2 ^ e) Hu) as Hr.
  destruct (Z.eq_dec (a mod 2 ^ e) 0) as [Hz|Hnz].
  - rewrite (Hzero Hz). nia.
  - assert (a / 2 ^ e < m) by nia. nia.
Qed.

(** Rounding never passes a [float64]. *)
Lemma float64_round_ge g z : float64_round g = g -> g <= z -> g <= float64_round z.
Proof.
  intros Hg Hle. destruct (Z_lt_le_dec z 0) as [Hneg|Hnn].
  - assert (float64_round (- z) <= - g); [|rewrite float64_round_opp in *; lia].
    apply float64_round_below; [rewrite float64_round_opp, Hg; reflexivity | lia].
  - destruct (Z_lt_le_dec g 0) as [Hg0|Hg0].
    + destruct (Z.eq_dec z 0) as [->|];
        [rewrite float64_round_exact by (unfold float64_exact; lia); lia|].
      assert (0 < float64_round z) by (apply float64_round_pos; lia). lia.
    + apply float64_round_above; [exact Hg | lia].
Qed.

Lemma float64_round_le g z : float64_round g = g -> z <= g -> float64_round z <= g.
Proof.
  intros Hg Hle.
  assert (- g <= float64_round (- z)); [|rewrite float64_round_opp in *; lia].
  apply float64_round_ge; [rewrite float64_round_opp, Hg; reflexivity | lia].
Qed.


Lemma float64_add_ltb x y : (float64_add x y <? 0) = (x + y <? 0).
Proof.
  unfold float64_add. destruct (_ && _); [apply float64_round_ltb | reflexivity].
Qed.

Lemma float64_add_ge x y : 0 <= y -> x <= float64_add x y.
Proof.
  intros Hy. unfold float64_add.
  destruct (float64_round x =? x) eqn:Hx; simpl; [|lia].
  destruct (float64_round y =? y); [|lia].
  apply float64_round_ge; [apply Z.eqb_eq, Hx | lia].
Qed.

Lemma float64_add_le x y : y <= 0 -> float64_add x y <= x.
Proof.
  intros Hy. unfold float64_add.
  destruct (float64_round x =? x) eqn:Hx; simpl; [|lia].
  destruct (float64_round y =? y); [|lia].
  apply float64_round_le; [apply Z.eqb_eq, Hx | lia].
Qed.


Lemma new_amount_ltb b u delta : (new_amount b u delta <? 0) = (amount_at b u + delta <? 0).
Proof.
  unfold new_amount, amount_at. destruct (b !! u); [apply float64_add_ltb | reflexivity].
Qed.

Lemma new_amount_ge b u delta : 0 <= delta -> amount_at b u <= new_amount b u delta.
Proof.
  unfold new_amount, amount_at. destruct (b !! u); [apply float64_add_ge|]. auto.
Qed.

(** [float64_round] against the Standard Library's binary64, on amounts
    around the binades where rounding starts, with ties of both parities,
    and at the limit of the column. *)
Example float64_round_is_binary64 :
  Forall (fun z => Z_of_binary64 (binary64_of_Z z) = Some (float64_round z))
    [0; 1; -1; 100; 2 ^ 52; 2 ^ 53 - 1; 2 ^ 53; 2 ^ 53 + 1; 2 ^ 53 + 2; 2 ^ 53 + 3;
     2 ^ 54 - 1; 2 ^ 54; 2 ^ 54 + 1; 2 ^ 54 + 2; 2 ^ 54 + 3; 2 ^ 54 + 5; 2 ^ 54 + 6;
     - (2 ^ 53 + 1); - (2 ^ 53 + 3); - (2 ^ 54 + 6); 10 ^ 17; 10 ^ 18 - 1; 10 ^ 18;
     10 ^ 18 + 1; 2 ^ 60 + 2 ^ 7; 2 ^ 60 + 2 ^ 7 + 1; 2 ^ 60 + 3 * 2 ^ 7].
Proof. repeat constructor. Qed.

(** [float64_add] against the Standard Library's addition of binary64. *)
Example float64_add_is_binary64 :
  Forall (fun p => Z_of_binary64
                     (SFadd 53 1024 (binary64_of_Z (fst p)) (binary64_of_Z (snd p))) =
                   Some (float64_add (fst p) (snd p)))
    [(0, 0); (100, 40); (100, -150); (2 ^ 53, 1); (2 ^ 53, -1); (2 ^ 53 + 2, -1);
     (2 ^ 53 + 2, 1); (2 ^ 53, 2 ^ 53); (2 ^ 54, 2); (2 ^ 54, 6); (2 ^ 54 + 4, 2);
     (- 2 ^ 53, -1); (- 2 ^ 53 - 2, 1); (10, 2 ^ 53); (10 ^ 18, 1); (10 ^ 18, 10 ^ 18)].
Proof. repeat constructor. Qed.

(** ** Predicates on the store kept by every write of the ledger *)

Ltac wp_step :=
  lazymatch goal with
  | |- wp (bind _ _) _ _ => apply wp_bind
  | |- wp (on_err _ _) _ _ => apply wp_on_err
  | |- wp (defer _ _) _ _ => apply wp_defer
  | |- wp (tolerate _ _) _ _ => apply wp_tolerate
  | |- wp (ret _) _ _ => apply wp_ret
  | |- wp (fail _) _ _ => apply wp_fail
  | |- wp (logger _ _) _ _ => apply wp_logger
  | |- wp (emit _) _ _ => apply wp_emit
  | |- wp time_Now _ _ => apply wp_time_Now
  | |- wp (getMutex _) _ _ => apply wp_getMutex
  | |- wp (Lock _) _ _ => apply wp_emit
  | |- wp (Unlock _) _ _ => apply wp_emit
  | |- wp (wrap _ _) _ _ => apply wp_wrap
  | |- wp (logged _ _ _ _) _ _ => apply wp_logged
  | |- wp (query _ _ _) _ _ => apply wp_query; intros
  | |- wp (exec _ _ _) _ _ => apply wp_exec; intros
  | |- wp (round_trip _ _) _ _ => apply wp_round_trip; intros
  | |- wp Begin _ _ => apply wp_Begin; intros
  | |- wp (Commit _) _ _ => apply wp_Commit; intros
  | |- wp (Rollback _) _ _ => apply wp_Rollback; intros
  | |- wp (if ?c then _ else _) _ _ => destruct c eqn:?
  | |- wp (match ?c with _ => _ end) _ _ => destruct c eqn:?
  end.

Ltac ltb_to_prop :=
  repeat match goal with
         | H : (_ <? _) = false |- _ => apply Z.ltb_ge in H
         | H : (_ <? _) = true |- _ => apply Z.ltb_lt in H
         | H : (_ <=? _) = false |- _ => apply Z.leb_gt in H
         | H : (_ <=? _) = true |- _ => apply Z.leb_le in H
         end.

Section Stable.
Variable I : DB -> Prop.
Hypothesis HI : ledger_stable I.

Local Ltac stable :=
    simpl in *; ltb_to_prop;
    let H1 := fresh in let H2 := fresh in let H3 := fresh in
    let H4 := fresh in let H5 := fresh in let H6 := fresh in
    destruct HI as [H1 H2 H3 H4 H5 H6]; pose proof (Z.le_refl 0); solve [eauto].

Local Ltac call lem :=
    eapply wp_mono; [apply lem; try stable | simpl; intros [?|?] ? ?].

Lemma GetBalance_stable u w :
  I (db w) -> wp (GetBalance u) w (fun _ w' => I (db w')).
Proof.
  intros H. unfold GetBalance. repeat wp_step; stable.
Qed.

Lemma GetTransactionByID_stable id w :
  I (db w) -> wp (GetTransactionByID id) w (fun _ w' => I (db w')).
Proof. intros H. unfold GetTransactionByID. repeat wp_step; stable. Qed.

Lemma updateBalanceInTx_stable tx u amt w :
  I (db w) -> wp (updateBalanceInTx tx u amt) w (fun _ w' => I (db w')).
Proof.
  intros H. unfold updateBalanceInTx, record_history.
  repeat wp_step; try stable.
  all: simpl in *; ltb_to_prop.
  all: match goal with
       | E : inr _ = inr _ |- _ => injection E as <-
       end.
  all: try stable.
  all: eapply (stable_insert_history I HI); [eassumption|]; stable.
Qed.

Lemma create_transaction_stable msg from to amt ty w :
  I (db w) -> wp (create_transaction msg from to amt ty) w (fun _ w' => I (db w')).
Proof.
  intros H. unfold create_transaction, LastInsertId.
  repeat wp_step; try stable.
  all: simpl in *; try discriminate.
  all: match goal with E : inr _ = inr _ |- _ => injection E as <- <- end.
  all: stable.
Qed.

Lemma set_transaction_status_stable msg id s w :
  I (db w) -> wp (set_transaction_status msg id s) w (fun _ w' => I (db w')).
Proof.
  intros H. unfold set_transaction_status. repeat wp_step; try stable.
  all: simpl in *; try discriminate.
  match goal with E : inr _ = inr _ |- _ => injection E as <- end. stable.
Qed.

Lemma compensate_stable tx t w :
  I (db w) -> wp (compensate tx t) w (fun _ w' => I (db w')).
Proof.
  intros H. unfold compensate.
  repeat first [ wp_step | call updateBalanceInTx_stable ]; stable.
Qed.

Lemma Credit_stable req w : I (db w) -> I (db (snd (Credit req w))).
Proof.
  intros H. change (wp (Credit req) w (fun _ w' => I (db w'))). unfold Credit.
  repeat first [ wp_step | call create_transaction_stable | call updateBalanceInTx_stable
               | call set_transaction_status_stable | call GetTransactionByID_stable ];
    stable.
Qed.

Lemma Debit_stable req w : I (db w) -> I (db (snd (Debit req w))).
Proof.
  intros H. change (wp (Debit req) w (fun _ w' => I (db w'))). unfold Debit.
  repeat first [ wp_step | call create_transaction_stable | call updateBalanceInTx_stable
               | call set_transaction_status_stable | call GetTransactionByID_stable
               | call GetBalance_stable ];
    stable.
Qed.

Lemma Transfer_stable req w : I (db w) -> I (db (snd (Transfer req w))).
Proof.
  intros H. change (wp (Transfer req) w (fun _ w' => I (db w'))). unfold Transfer.
  repeat first [ wp_step | call create_transaction_stable | call updateBalanceInTx_stable
               | call set_transaction_status_stable | call GetTransactionByID_stable
               | call GetBalance_stable ];
    stable.
Qed.

Lemma RollbackTransaction_stable id w : I (db w) -> I (db (snd (RollbackTransaction id w))).
Proof.
  intros H. change (wp (RollbackTransaction id) w (fun _ w' => I (db w'))).
  unfold RollbackTransaction.
  repeat first [ wp_step | call compensate_stable
               | call set_transaction_status_stable | call GetTransactionByID_stable ];
    stable.
Qed.

Lemma UpdateBalance_stable u amt w : I (db w) -> I (db (snd (UpdateBalance u amt w))).
Proof.
  intros H. change (wp (UpdateBalance u amt) w (fun _ w' => I (db w'))).
  unfold UpdateBalance.
  repeat first [ wp_step | call updateBalanceInTx_stable ]; stable.
Qed.

Lemma run_op_stable o w : I (db w) -> I (db (run_op o w)).
Proof.
  destruct o; simpl;
    auto using Credit_stable, Debit_stable, Transfer_stable,
      RollbackTransaction_stable, UpdateBalance_stable.
Qed.

Lemma run_ops_stable os w : I (db w) -> I (db (run_ops os w)).
Proof.
  revert w. induction os as [|o os IH]; intros w H; simpl; [assumption|].
  apply IH, run_op_stable, H.
Qed.
End Stable.

(** ** What the services put on the trace *)

Lemma extends_by_refl P evs : extends_by P evs evs.
Proof. exists []. split; [symmetry; apply app_nil_r | constructor]. Qed.

Lemma extends_by_snoc P evs0 evs e :
  P e -> extends_by P evs0 evs -> extends_by P evs0 (evs ++ [e]).
Proof.
  intros He (new & -> & Hnew). exists (new ++ [e]). split.
  - symmetry. apply app_assoc.
  - apply Forall_app. split; [assumption | repeat constructor; assumption].
Qed.

Lemma extends_by_trans P evs0 evs1 evs2 :
  extends_by P evs0 evs1 -> extends_by P evs1 evs2 -> extends_by P evs0 evs2.
Proof.
  intros (n1 & -> & H1) (n2 & -> & H2). exists (n1 ++ n2). split.
  - symmetry. apply app_assoc.
  - apply Forall_app. auto.
Qed.

Lemma extends_by_impl (P Q : event -> Prop) evs0 evs :
  (forall e, P e -> Q e) -> extends_by P evs0 evs -> extends_by Q evs0 evs.
Proof.
  intros HPQ (new & -> & Hnew). exists new. split; [reflexivity|].
  eapply Forall_impl; eauto.
Qed.

Section Emits.
Variable guards : bool.
Variable evs0 : list event.
Variable mu0 : gset Z.

(** The trace grew by events the services may emit, and the map of mutexes
    is untouched wherever no guard may be taken. *)
Local Abbreviation emitted w :=
  (extends_by (service_event guards) evs0 (events w) /\ (guards = false -> mu w = mu0)).

Local Ltac trace :=
  simpl in *; ltb_to_prop;
  repeat match goal with H : _ /\ _ |- _ => destruct H end;
  split;
  [ repeat (apply extends_by_snoc; [simpl; solve [auto | lia] |]); assumption
  | solve [assumption | intros; congruence] ].

Local Ltac call lem :=
  eapply wp_mono; [apply lem; try trace | simpl; intros [?|?] ? ?].

Lemma GetBalance_emits u w :
  emitted w -> wp (GetBalance u) w (fun _ w' => emitted w').
Proof. intros H. unfold GetBalance. repeat wp_step; trace. Qed.

Lemma GetTransactionByID_emits id w :
  emitted w -> wp (GetTransactionByID id) w (fun _ w' => emitted w').
Proof. intros H. unfold GetTransactionByID. repeat wp_step; trace. Qed.

Lemma updateBalanceInTx_emits tx u amt w :
  emitted w -> wp (updateBalanceInTx tx u amt) w (fun _ w' => emitted w').
Proof. intros H. unfold updateBalanceInTx, record_history. repeat wp_step; trace. Qed.

Lemma create_transaction_emits msg from to amt ty w :
  emitted w -> wp (create_transaction msg from to amt ty) w (fun _ w' => emitted w').
Proof. intros H. unfold create_transaction, LastInsertId. repeat wp_step; trace. Qed.

Lemma set_transaction_status_emits msg id s w :
  s = TransactionStatusCompleted \/ s = TransactionStatusRolledBack ->
  emitted w -> wp (set_transaction_status msg id s) w (fun _ w' => emitted w').
Proof. intros Hs H. unfold set_transaction_status. repeat wp_step; trace. Qed.

Lemma compensate_emits tx t w :
  emitted w -> wp (compensate tx t) w (fun _ w' => emitted w').
Proof.
  intros H. unfold compensate.
  repeat first [ wp_step | call updateBalanceInTx_emits ]; trace.
Qed.

Lemma Credit_emits req w : emitted w -> emitted (snd (Credit req w)).
Proof.
  intros H. change (wp (Credit req) w (fun _ w' => emitted w')). unfold Credit.
  repeat first [ wp_step | call create_transaction_emits | call updateBalanceInTx_emits
               | call set_transaction_status_emits | call GetTransactionByID_emits ];
    solve [trace | auto].
Qed.

Lemma Debit_emits req w : emitted w -> emitted (snd (Debit req w)).
Proof.
  intros H. change (wp (Debit req) w (fun _ w' => emitted w')). unfold Debit.
  repeat first [ wp_step | call create_transaction_emits | call updateBalanceInTx_emits
               | call set_transaction_status_emits | call GetTransactionByID_emits
               | call GetBalance_emits ];
    solve [trace | auto].
Qed.

Lemma Transfer_emits req w : emitted w -> emitted (snd (Transfer req w)).
Proof.
  intros H. change (wp (Transfer req) w (fun _ w' => emitted w')). unfold Transfer.
  repeat first [ wp_step | call create_transaction_emits | call updateBalanceInTx_emits
               | call set_transaction_status_emits | call GetTransactionByID_emits
               | call GetBalance_emits ];
    solve [trace | auto].
Qed.

Lemma RollbackTransaction_emits id w :
  emitted w -> emitted (snd (RollbackTransaction id w)).
Proof.
  intros H. change (wp (RollbackTransaction id) w (fun _ w' => emitted w')).
  unfold RollbackTransaction.
  repeat first [ wp_step | call compensate_emits
               | call set_transaction_status_emits | call GetTransactionByID_emits ];
    solve [trace | auto].
Qed.

Lemma UpdateBalance_emits u amt w :
  guards = true -> emitted w -> emitted (snd (UpdateBalance u amt w)).
Proof.
  intros Hg H. change (wp (UpdateBalance u amt) w (fun _ w' => emitted w')).
  unfold UpdateBalance, Lock, Unlock.
  repeat first [ wp_step | call updateBalanceInTx_emits ]; trace.
Qed.
End Emits.

(** ** Exact effects of the building blocks *)

Ltac oracle :=
  unfold no_faults in *; simpl in *;
  repeat match goal with
         | Hn : ?f = [], H : next_fault ?f = (_, _) |- _ =>
             rewrite Hn in H; simpl in H; inversion H; subst; clear H
         | H : next_fault [] = (_, _) |- _ =>
             simpl in H; inversion H; subst; clear H
         end;
  try discriminate.

Ltac framed :=
  unfold frame in *; simpl in *;
  repeat match goal with H : _ /\ _ |- _ => destruct H end;
  repeat split; try congruence;
  try solve [intros ?; oracle; auto].

Lemma frame_refl w : frame w w.
Proof. framed. Qed.

Lemma frame_trans w1 w2 w3 : frame w1 w2 -> frame w2 w3 -> frame w1 w3.
Proof. unfold frame. intros (? & ? & ?) (? & ? & ?). repeat split; try congruence. auto. Qed.

Lemma balance_of_lookup d u r : balances d !! u = Some r -> balance_of d u = BalancesRow.amount r.
Proof. unfold balance_of, amount_at. intros ->. reflexivity. Qed.

Lemma balance_of_none d u : balances d !! u = None -> balance_of d u = 0.
Proof. unfold balance_of, amount_at. intros ->. reflexivity. Qed.

Lemma alter_const_insert (m : gmap Z BalancesRow.t) k v x :
  m !! k = Some x -> alter (fun _ => v) k m = <[k := v]> m.
Proof.
  intros H. apply map_eq. intros j. rewrite lookup_alter, lookup_insert.
  repeat case_decide; subst; try congruence. rewrite H. reflexivity.
Qed.

Lemma wp_GetBalance u w Q :
  (forall e w', frame w w' -> db w' = db w -> ~ no_faults w -> Q (Err e) w') ->
  (forall row w', balances (db w) !! u = Some row -> frame w w' -> db w' = db w ->
     Q (Ok (Balance.mk u (BalancesRow.amount row) (BalancesRow.last_updated_at row))) w') ->
  (forall w', balances (db w) !! u = None -> frame w w' ->
     insert_balance u 0 (clock w) (db w) = inr (db w') ->
     Q (Ok (Balance.mk u 0 (clock w))) w') ->
  wp (GetBalance u) w Q.
Proof.
  intros Herr Hrow Hnew. unfold GetBalance. repeat wp_step.
  all: unfold select_balance in *; simpl in *.
  all: try solve [apply Herr; framed | eapply Hrow; eauto; framed | apply Hnew; auto; framed].
  unfold insert_balance in *.
  match goal with H : balances _ !! _ = None |- _ => rewrite H in * end. discriminate.
Qed.

Lemma wp_GetTransactionByID id w Q :
  (forall w', frame w w' -> db w' = db w -> ~ no_faults w ->
     Q (Err (fmt_Errorf "database error" (sql_err ErrDriver))) w') ->
  (forall w', transactions (db w) !! id = None -> frame w w' -> db w' = db w ->
     Q (Err (errors_New "transaction not found")) w') ->
  (forall row w', transactions (db w) !! id = Some row -> frame w w' -> db w' = db w ->
     Q (Ok (scan_transaction id row)) w') ->
  wp (GetTransactionByID id) w Q.
Proof.
  intros Herr Hnone Hrow. unfold GetTransactionByID. repeat wp_step.
  all: unfold select_transaction in *; simpl in *.
  all: solve [apply Herr; framed | apply Hnone; auto; framed
             | eapply (Hrow _ _ ltac:(eassumption)); framed].
Qed.

Lemma insert_history_inr u b c txid now d d' :
  insert_history u b c txid now d = inr d' ->
  users d' = users d /\ transactions d' = transactions d /\
  transactions_auto_increment d' = transactions_auto_increment d /\
  balances d' = balances d /\
  balance_history d' =
    balance_history d ++ [HistoryRow.mk (balance_history_auto_increment d) u b c txid now].
Proof.
  unfold insert_history. destruct (decide (u ∈ users d)); [|discriminate].
  intros [= <-]. simpl. auto.
Qed.

Lemma balance_written_update u new chg now d r d2 :
  balances d !! u = Some r ->
  d2 = update_balance u new now d \/
  insert_history u new chg None now (update_balance u new now d) = inr d2 ->
  balance_written u new chg now d d2.
Proof.
  intros Hr [-> | Hh]; unfold balance_written.
  - simpl. rewrite (alter_const_insert _ _ _ _ Hr). auto.
  - apply insert_history_inr in Hh as (-> & -> & _ & -> & ->). simpl.
    rewrite (alter_const_insert _ _ _ _ Hr). auto.
Qed.

Lemma balance_written_insert u new chg now d d1 d2 :
  insert_balance u new now d = inr d1 ->
  d2 = d1 \/ insert_history u new chg None now d1 = inr d2 ->
  balance_written u new chg now d d2.
Proof.
  unfold insert_balance. destruct (balances d !! u); [discriminate|].
  intros [= <-] [-> | Hh]; unfold balance_written.
  - simpl. auto.
  - apply insert_history_inr in Hh as (-> & -> & _ & -> & ->). simpl. auto.
Qed.

Lemma wp_updateBalanceInTx tx u amt w Q :
  (forall e w', frame w w' -> db w' = db w ->
     (balance_of (db w) u + amt < 0 /\ e = errors_New "insufficient balance") \/
     ~ no_faults w ->
     Q (Err e) w') ->
  (forall w', frame w w' -> 0 <= balance_of (db w) u + amt ->
     balance_written u (new_amount (balances (db w)) u amt) amt (clock w) (db w) (db w') ->
     Q (Ok tt) w') ->
  wp (updateBalanceInTx tx u amt) w Q.
Proof.
  intros Herr Hok. unfold updateBalanceInTx, record_history. repeat wp_step.
  all: unfold select_balance, new_amount in *; simpl in *.
  all: rewrite ?float64_add_ltb in *; ltb_to_prop.
  all: repeat match goal with
              | H : balances _ !! _ = _, Hok : context [match balances _ !! _ with _ => _ end]
                |- _ => rewrite H in Hok
              end.
  all: try (erewrite balance_of_lookup in * by eassumption).
  all: try (rewrite balance_of_none in * by assumption).
  all: try solve [apply Herr; [framed | reflexivity | right; intros ?; oracle]].
  all: try solve [apply Herr; [framed | reflexivity | left; split; [lia | reflexivity]]].
  all: try match goal with
           | H : inr (update_balance _ _ _ _) = inr _ |- _ => injection H as <-
           end.
  all: try solve [apply Hok; [framed | lia |];
                  solve [ eapply balance_written_update; eauto
                        | eapply balance_written_insert; eauto ]].
  unfold insert_balance in *.
  match goal with H : balances _ !! _ = None |- _ => rewrite H in * end. discriminate.
Qed.

Lemma wp_create_transaction msg from to amt ty w Q :
  (forall e w', open_tx w' = open_tx w -> Q (Err e) w') ->
  (forall w', frame w w' ->
     transaction_inserted (transactions_auto_increment (db w))
       (TransactionsRow.mk from to amt ty TransactionStatusPending (clock w))
       (db w) (db w') ->
     Q (Ok (transactions_auto_increment (db w))) w') ->
  wp (create_transaction msg from to amt ty) w Q.
Proof.
  intros Herr Hok. unfold create_transaction, LastInsertId. repeat wp_step.
  all: simpl in *; try discriminate.
  all: try solve [apply Herr; reflexivity].
  unfold insert_transaction in *.
  destruct (transactions (db w) !! transactions_auto_increment (db w)) eqn:E;
    [discriminate|].
  repeat match goal with H : inr _ = inr _ |- _ => injection H as ? ?; subst end.
  apply Hok; [framed | unfold transaction_inserted; simpl; auto].
Qed.

Lemma wp_set_transaction_status msg id s w Q :
  (forall e w', frame w w' -> db w' = db w -> ~ no_faults w -> Q (Err e) w') ->
  (forall w', frame w w' -> db w' = update_transaction_status id s (db w) ->
     Q (Ok tt) w') ->
  wp (set_transaction_status msg id s) w Q.
Proof.
  intros Herr Hok. unfold set_transaction_status. repeat wp_step.
  all: simpl in *; try discriminate.
  - apply Herr; framed.
  - match goal with H : inr _ = inr _ |- _ => injection H as <- end.
    apply Hok; framed.
Qed.

Lemma wp_Begin_frame w Q :
  (forall w', frame w w' -> db w' = db w -> ~ no_faults w ->
     Q (Err (sql_err ErrDriver)) w') ->
  (forall w', open_tx w' = true -> clock w' = clock w -> (no_faults w -> no_faults w') ->
     db w' = db w -> Q (Ok (mkTx (db w))) w') ->
  wp Begin w Q.
Proof.
  intros Herr Hok. wp_step.
  - apply Herr; framed.
  - apply Hok; simpl; auto. intros ?; oracle; auto.
Qed.

Lemma wp_Commit_frame tx w Q :
  open_tx w = true ->
  (forall w', open_tx w' = false -> clock w' = clock w ->
     db w' = restore_tables (undo tx) (db w) -> ~ no_faults w ->
     Q (Err (sql_err ErrDriver)) w') ->
  (forall w', open_tx w' = false -> clock w' = clock w -> (no_faults w -> no_faults w') ->
     db w' = db w -> Q (Ok tt) w') ->
  wp (Commit tx) w Q.
Proof.
  intros Hopen Herr Hok. wp_step.
  - congruence.
  - apply Herr; simpl; auto. intros ?; oracle.
  - apply Hok; simpl; auto. intros ?; oracle; auto.
Qed.

Lemma wp_Rollback_frame tx w Q :
  (open_tx w = false -> Q (Err (sql_err ErrTxDone)) w) ->
  (forall w', open_tx w = true -> open_tx w' = false -> faults w' = faults w ->
     db w' = restore_tables (undo tx) (db w) -> Q (Ok tt) w') ->
  wp (Rollback tx) w Q.
Proof.
  intros Hdone Hok. wp_step; [auto|]. apply Hok; simpl; auto.
Qed.

(** ** Outcomes of the orchestrator operations *)

Ltac opened :=
  unfold frame in *; simpl in *;
  repeat match goal with H : _ /\ _ |- _ => destruct H end; congruence.

Ltac xstep :=
  lazymatch goal with
  | |- wp (GetBalance _) _ _ => apply wp_GetBalance; intros
  | |- wp (GetTransactionByID _) _ _ => apply wp_GetTransactionByID; intros
  | |- wp (updateBalanceInTx _ _ _) _ _ => apply wp_updateBalanceInTx; intros
  | |- wp (create_transaction _ _ _ _ _) _ _ => apply wp_create_transaction; intros
  | |- wp (set_transaction_status _ _ _) _ _ => apply wp_set_transaction_status; intros
  | |- wp Begin _ _ => apply wp_Begin_frame; intros
  | |- wp (Commit _) _ _ => apply wp_Commit_frame; [opened | intros | intros]
  | |- wp (Rollback _) _ _ => apply wp_Rollback_frame; intros; try (exfalso; opened)
  | _ => wp_step
  end.


Lemma restore_tables_same snap cur : same_tables snap (restore_tables snap cur).
Proof. repeat split. Qed.

(** Rewrites the tables of later worlds into those of the world the
    operation started from. *)
Ltac tables :=
  unfold transaction_inserted, balance_written, recorded, frame, balance_of, adjust,
    amount_at in *;
  simpl in *;
  repeat match goal with H : _ /\ _ |- _ => destruct H end;
  repeat match goal with
         | H : db ?w = _ |- _ => is_var w; rewrite H in *; clear H; simpl in *
         | H : clock ?w = _ |- _ => is_var w; rewrite H in *; clear H
         | H : users (db ?w) = _ |- _ => is_var w; rewrite H in *; clear H
         | H : transactions (db ?w) = _ |- _ => is_var w; rewrite H in *; clear H
         | H : balances (db ?w) = _ |- _ => is_var w; rewrite H in *; clear H
         end;
  rewrite ?alter_insert_eq, ?lookup_insert_eq in *;
  unfold set_status in *; simpl in *.

Ltac aborted :=
  left; split; [eauto|]; simpl in *;
  repeat match goal with H : db _ = _ |- _ => rewrite H end;
  simpl; auto using restore_tables_same; repeat split.

Ltac still_faulty :=
  let Hn := fresh in
  intros Hn; unfold frame, no_faults in *; simpl in *;
  repeat match goal with H : _ /\ _ |- _ => destruct H end; tauto.

Lemma Credit_outcome req w :
  wp (Credit req) w (fun r w' =>
    let u := CreditRequest.UserID req in
    let amt := CreditRequest.Amount req in
    let id := transactions_auto_increment (db w) in
    ((exists e, r = Err e) /\ same_tables (db w) (db w')) \/
    ((r = Ok (Transaction.mk id None (Some u) amt TransactionTypeCredit
                TransactionStatusCompleted (clock w)) \/
      r = Err (fmt_Errorf "database error" (sql_err ErrDriver)) /\ ~ no_faults w) /\
     0 < amt /\
     recorded id None (Some u) amt TransactionTypeCredit (clock w) (db w) (db w') /\
     balances (db w') = adjust u amt (clock w) (balances (db w)))).
Proof.
  unfold Credit. repeat xstep.
  all: try solve [aborted].
  all: ltb_to_prop.
  - right. split; [right; split; [reflexivity | still_faulty]|].
    tables. auto.
  - exfalso. tables. discriminate.
  - right. tables.
    match goal with H : Some _ = Some _ |- _ => injection H as <- end.
    auto 6.
Qed.

Lemma untouched_refl d : untouched d d.
Proof. repeat split; auto. Qed.

Lemma insert_zero_untouched u now d d' :
  insert_balance u 0 now d = inr d' -> untouched d d'.
Proof.
  unfold insert_balance. destruct (balances d !! u) eqn:E; [discriminate|].
  intros [= <-]. unfold untouched, balance_of, amount_at. simpl.
  repeat split; auto.
  - apply insert_subseteq, E.
  - intros v. rewrite lookup_insert. case_decide; subst; [rewrite E|]; reflexivity.
Qed.

Lemma untouched_restore d snap cur : untouched d snap -> untouched d (restore_tables snap cur).
Proof. intros H. exact H. Qed.

Lemma insert_balance_counter u a now d d' :
  insert_balance u a now d = inr d' ->
  transactions_auto_increment d' = transactions_auto_increment d /\
  transactions d' = transactions d /\ users d' = users d /\
  balance_history d' = balance_history d /\
  balances d' = <[u := BalancesRow.mk a now]> (balances d) /\ balances d !! u = None.
Proof.
  unfold insert_balance. destruct (balances d !! u) eqn:E; [discriminate|].
  intros [= <-]. simpl. auto 6.
Qed.

Lemma wp_compensate tx id row w Q :
  (forall e w', open_tx w' = open_tx w -> Q (Err e) w') ->
  (forall w', frame w w' -> users (db w') = users (db w) ->
     transactions (db w') = transactions (db w) ->
     balances (db w') = compensation row (clock w) (balances (db w)) ->
     TransactionsRow.type row = TransactionTypeCredit \/
     TransactionsRow.type row = TransactionTypeDebit \/
     TransactionsRow.type row = TransactionTypeTransfer ->
     Q (Ok tt) w') ->
  wp (compensate tx (scan_transaction id row)) w Q.
Proof.
  intros Herr Hok. unfold compensate; simpl.
  repeat xstep.
  all: try solve [apply Herr; opened].
  all: apply Hok; auto; try solve [framed]; try solve [tables; auto].
  all: unfold compensation, adjust.
  all: repeat match goal with
              | H : decide _ = _ |- _ => rewrite H
              | H : TransactionsRow.from_user_id _ = _ |- _ => rewrite H
              | H : TransactionsRow.to_user_id _ = _ |- _ => rewrite H
              end.
  all: try reflexivity.
  all: try solve [tables; auto].
  all: try solve [eapply frame_trans; eauto].
Qed.

Lemma Debit_outcome req w :
  wp (Debit req) w (fun r w' =>
    let u := DebitRequest.UserID req in
    let amt := DebitRequest.Amount req in
    let id := transactions_auto_increment (db w) in
    ((exists e, r = Err e) /\ untouched (db w) (db w')) \/
    ((r = Ok (Transaction.mk id (Some u) None amt TransactionTypeDebit
                TransactionStatusCompleted (clock w)) \/
      r = Err (fmt_Errorf "database error" (sql_err ErrDriver)) /\ ~ no_faults w) /\
     0 < amt /\ amt <= balance_of (db w) u /\
     recorded id (Some u) None amt TransactionTypeDebit (clock w) (db w) (db w') /\
     balances (db w') = adjust u (- amt) (clock w) (balances (db w)))).
Proof.
  unfold Debit. repeat xstep.
  all: ltb_to_prop; simpl in *.
  all: try solve [left; split; [eauto|]; simpl in *;
                  repeat match goal with H : db _ = _ |- _ => rewrite H end;
                  eauto using untouched_refl, insert_zero_untouched, untouched_restore].
  all: try lia.
  - right. split; [right; split; [reflexivity | still_faulty]|].
    tables. repeat match goal with H : balances _ !! _ = Some _ |- _ => rewrite H in * end.
    auto 6.
  - exfalso. tables. discriminate.
  - right. tables.
    repeat match goal with H : balances _ !! _ = Some _ |- _ => rewrite H in * end.
    match goal with H : Some _ = Some _ |- _ => injection H as <- end.
    auto 7.
Qed.

Lemma Transfer_outcome req w :
  wp (Transfer req) w (fun r w' =>
    let from := TransferRequest.FromUserID req in
    let to := TransferRequest.ToUserID req in
    let amt := TransferRequest.Amount req in
    let id := transactions_auto_increment (db w) in
    ((exists e, r = Err e) /\ untouched (db w) (db w')) \/
    ((r = Ok (Transaction.mk id (Some from) (Some to) amt TransactionTypeTransfer
                TransactionStatusCompleted (clock w)) \/
      r = Err (fmt_Errorf "database error" (sql_err ErrDriver)) /\ ~ no_faults w) /\
     from <> to /\ 0 < amt /\ amt <= balance_of (db w) from /\
     recorded id (Some from) (Some to) amt TransactionTypeTransfer (clock w)
       (db w) (db w') /\
     balances (db w') =
       adjust to amt (clock w) (adjust from (- amt) (clock w) (balances (db w))))).
Proof.
  unfold Transfer. repeat xstep.
  all: ltb_to_prop; simpl in *.
  all: try solve [left; split; [eauto|]; simpl in *;
                  repeat match goal with H : db _ = _ |- _ => rewrite H end;
                  eauto using untouched_refl, insert_zero_untouched, untouched_restore].
  all: try lia.
  - right. split; [right; split; [reflexivity | still_faulty]|].
    tables. repeat match goal with H : balances _ !! _ = Some _ |- _ => rewrite H in * end.
    auto 7.
  - exfalso. tables. discriminate.
  - right. tables.
    repeat match goal with H : balances _ !! _ = Some _ |- _ => rewrite H in * end.
    match goal with H : Some _ = Some _ |- _ => injection H as <- end.
    auto 8.
Qed.

Ltac rstep :=
  lazymatch goal with
  | |- wp (compensate _ _) _ _ => apply wp_compensate; intros
  | _ => xstep
  end.

Lemma RollbackTransaction_outcome id w :
  wp (RollbackTransaction id) w (fun r w' =>
    ((exists e, r = Err e) /\ same_tables (db w) (db w')) \/
    (r = Ok tt /\
     exists row,
       transactions (db w) !! id = Some row /\
       TransactionsRow.status row = TransactionStatusCompleted /\
       transactions (db w') =
         <[id := set_status TransactionStatusRolledBack row]> (transactions (db w)) /\
       balances (db w') = compensation row (clock w) (balances (db w)))).
Proof.
  unfold RollbackTransaction. repeat rstep.
  all: try solve [aborted].
  right. split; [reflexivity|]. eexists. split; [eassumption|].
  split; [assumption|].
  match goal with H : transactions (db w) !! id = Some _ |- _ => revert H end.
  tables. intros Hrow. split; [|reflexivity].
  apply map_eq. intros j. rewrite lookup_alter, lookup_insert.
  destruct (decide (id = j)) as [<-|]; [rewrite Hrow|]; reflexivity.
Qed.

Lemma UpdateBalance_outcome u amt w :
  wp (UpdateBalance u amt) w (fun r w' =>
    ((exists e, r = Err e /\
        (balance_of (db w) u + amt < 0 /\ e = errors_New "insufficient balance" \/
         ~ no_faults w)) /\
     same_tables (db w) (db w')) \/
    (r = Ok tt /\ 0 <= balance_of (db w) u + amt /\
     balance_written u (new_amount (balances (db w)) u amt) amt (clock w) (db w) (db w'))).
Proof.
  unfold UpdateBalance, Lock, Unlock. repeat xstep.
  - left. split; [eexists; split; [reflexivity | right; still_faulty]|].
    tables. repeat split.
  - left. split.
    + exists e. split; [reflexivity|].
      match goal with H : _ \/ _ |- _ => destruct H as [[Hlt ->]|Hf] end.
      * left. split; [|reflexivity]. revert Hlt. tables. auto.
      * right. still_faulty.
    + tables. repeat split.
  - left. split; [eexists; split; [reflexivity | right; still_faulty]|].
    tables. repeat split.
  - right. split; [reflexivity|]. simpl in *.
    match goal with
    | H : balance_written _ _ _ _ _ _ |- _ => revert H
    end.
    match goal with H : 0 <= _ |- _ => revert H end.
    tables. auto.
Qed.

(** ** The row locks of a transfer *)

Lemma locks_since_refl evs : locks_since evs evs [].
Proof. exists []. split; [symmetry; apply app_nil_r | reflexivity]. Qed.

Lemma locks_since_snoc evs0 evs L L' e :
  locks_since evs0 evs L -> L' = L ++ row_lock e -> locks_since evs0 (evs ++ [e]) L'.
Proof.
  intros (new & -> & <-) ->. exists (new ++ [e]). split; [symmetry; apply app_assoc|].
  rewrite flat_map_app. simpl. rewrite app_nil_r. reflexivity.
Qed.

Ltac locks_back :=
  lazymatch goal with
  | |- locks_since _ (_ ++ [_]) _ =>
      eapply locks_since_snoc; [locks_back | simpl; rewrite ?app_nil_r; reflexivity]
  | |- _ => eassumption
  end.

Section RowLocks.
Variable evs0 : list event.

Local Ltac locks := simpl in *; locks_back.

Local Ltac call lem :=
  eapply wp_mono; [eapply lem; locks | simpl; intros [?|?] ? ?].

Lemma GetBalance_locks u L w :
  locks_since evs0 (events w) L ->
  wp (GetBalance u) w (fun _ w' => locks_since evs0 (events w') L).
Proof. intros H. unfold GetBalance. repeat wp_step; locks. Qed.

Lemma GetTransactionByID_locks id L w :
  locks_since evs0 (events w) L ->
  wp (GetTransactionByID id) w (fun _ w' => locks_since evs0 (events w') L).
Proof. intros H. unfold GetTransactionByID. repeat wp_step; locks. Qed.

Lemma create_transaction_locks msg from to amt ty L w :
  locks_since evs0 (events w) L ->
  wp (create_transaction msg from to amt ty) w (fun _ w' => locks_since evs0 (events w') L).
Proof. intros H. unfold create_transaction, LastInsertId. repeat wp_step; locks. Qed.

Lemma set_transaction_status_locks msg id s L w :
  locks_since evs0 (events w) L ->
  wp (set_transaction_status msg id s) w (fun _ w' => locks_since evs0 (events w') L).
Proof. intros H. unfold set_transaction_status. repeat wp_step; locks. Qed.

(** [updateBalanceInTx] takes the row lock of its account, first thing,
    whatever happens next. *)
Lemma updateBalanceInTx_locks tx u amt L w :
  locks_since evs0 (events w) L ->
  wp (updateBalanceInTx tx u amt) w (fun _ w' => locks_since evs0 (events w') (L ++ [u])).
Proof. intros H. unfold updateBalanceInTx, record_history. repeat wp_step; locks. Qed.
End RowLocks.

(** The row locks of a transfer: the sender's row, then the receiver's, in
    the order of the request whatever the account ids; a transfer that fails
    on the way has taken a prefix of them. *)
Lemma Transfer_row_locks req w :
  wp (Transfer req) w (fun r w' =>
    let from := TransferRequest.FromUserID req in
    let to := TransferRequest.ToUserID req in
    exists L,
      locks_since (events w) (events w') L /\
      (L = [] \/ L = [from] \/ L = [from; to]) /\
      (forall t, r = Ok t -> L = [from; to])).
Proof.
  pose proof (locks_since_refl (events w)) as H0.
  unfold Transfer.
  repeat first
    [ wp_step
    | eapply wp_mono;
      [ first [ eapply (GetBalance_locks (events w))
              | eapply (create_transaction_locks (events w))
              | eapply (updateBalanceInTx_locks (events w))
              | eapply (set_transaction_status_locks (events w))
              | eapply (GetTransactionByID_locks (events w)) ];
        simpl in *; locks_back
      | simpl; intros [?|?] ? ? ] ].
  all: simpl in *; eexists; split; [locks_back|].
  all: split; [auto | first [discriminate | reflexivity | intros; discriminate]].
Qed.

(** ** Sequences of operations: what every write keeps *)

Lemma run_op_emits evs0 o w :
  extends_by (service_event true) evs0 (events w) ->
  extends_by (service_event true) evs0 (events (run_op o w)).
Proof.
  intros H.
  assert (extends_by (service_event true) evs0 (events w) /\ (true = false -> mu w = ∅))
    as H' by (split; [exact H | discriminate]).
  destruct o; simpl.
  - apply (Credit_emits true evs0 ∅ req w H').
  - apply (Debit_emits true evs0 ∅ req w H').
  - apply (Transfer_emits true evs0 ∅ req w H').
  - apply (RollbackTransaction_emits true evs0 ∅ transactionID w H').
  - apply (UpdateBalance_emits true evs0 ∅ userID amount w eq_refl H').
Qed.

Lemma run_ops_emits os w :
  extends_by (service_event true) (events w) (events (run_ops os w)).
Proof.
  generalize (extends_by_refl (service_event true) (events w)).
  generalize (events w) at 1 3. revert w.
  induction os as [|o os IH]; intros w evs0 H; simpl; [assumption|].
  apply IH, run_op_emits, H.
Qed.

Lemma balances_nonneg_stable : ledger_stable balances_nonneg.
Proof.
  split; unfold balances_nonneg.
  - intros u a now d d' Ha Hins H v r.
    apply insert_balance_counter in Hins as (_ & _ & _ & _ & -> & _).
    rewrite lookup_insert. case_decide; [intros [= <-]; exact Ha | apply H].
  - intros u a now d Ha H v r. simpl. rewrite lookup_alter.
    case_decide; [|apply H].
    destruct (balances d !! u); simpl; [intros [= <-]; exact Ha | discriminate].
  - intros u b c now d d' Hins H v r.
    apply insert_history_inr in Hins as (_ & _ & _ & -> & _). apply H.
  - intros f t a ty now d id d'. unfold insert_transaction.
    destruct (transactions d !! _); [discriminate|]. intros [= _ <-] H. exact H.
  - intros id s d H. exact H.
  - intros snap cur H. exact H.
Qed.

Lemma history_grows_unlinked_refl d : history_grows_unlinked d d.
Proof. exists []. split; [symmetry; apply app_nil_r | constructor]. Qed.

Lemma history_grows_unlinked_stable d0 : ledger_stable (history_grows_unlinked d0).
Proof.
  split; unfold history_grows_unlinked.
  - intros u a now d d' _ Hins H.
    apply insert_balance_counter in Hins as (_ & _ & _ & -> & _). exact H.
  - intros u a now d _ H. exact H.
  - intros u b c now d d' Hins (new & Hnew & Hall).
    apply insert_history_inr in Hins as (_ & _ & _ & _ & ->).
    eexists (new ++ [_]). rewrite Hnew, <- app_assoc. split; [reflexivity|].
    apply Forall_app. split; [assumption | repeat constructor].
  - intros f t a ty now d id d'. unfold insert_transaction.
    destruct (transactions d !! _); [discriminate|]. intros [= _ <-] H. exact H.
  - intros id s d H. exact H.
  - intros snap cur H. exact H.
Qed.

(** ** C1: balances never go negative *)

(** C1. From a store in which no balance is negative, every sequence of core
    operations (Credit, Debit, Transfer, RollbackTransaction, UpdateBalance),
    whatever each of them returns and whichever calls to the store fail,
    leads to a store in which no balance is negative; and every statement
    the operations send to write an amount into [balances] carries a
    non-negative amount, so a negative one is rejected before it is
    persisted. *)
Theorem balances_stay_nonneg (os : list op) (w : World) :
  balances_nonneg (db w) ->
  balances_nonneg (db (run_ops os w)) /\
  extends_by balance_write_nonneg (events w) (events (run_ops os w)).
Proof.
  intros H. split.
  - apply run_ops_stable; [apply balances_nonneg_stable | exact H].
  - eapply extends_by_impl; [|apply run_ops_emits].
    intros e He. destruct e as [| | | | |? s| |]; simpl; auto.
    destruct s; simpl in *; tauto.
Qed.

Lemma ledger_example_nonneg : balances_nonneg ledger_example.
Proof.
  intros u r. simpl. intros [_ <-]%lookup_singleton_Some. simpl. lia.
Qed.

Lemma balances_stay_nonneg_witness :
  balances_nonneg (db (world_example [])) /\
  balances_nonneg
    (db (run_ops [OpCredit (CreditRequest.mk 2 40); OpDebit (DebitRequest.mk 1 30);
                  OpTransfer (TransferRequest.mk 2 1 50); OpRollbackTransaction 1;
                  OpUpdateBalance 1 (-500)] (world_example []))).
Proof.
  split; [exact ledger_example_nonneg|].
  apply (balances_stay_nonneg _ (world_example [])). exact ledger_example_nonneg.
Defined.

(** ** C2: atomicity of Transfer *)

(** When the store answers every call, [Transfer] is all-or-nothing as seen
    by its caller: it returns the completed record and the transfer is
    applied, or it returns an error and nothing the ledger records has
    changed. *)
Lemma Transfer_atomic_when_store_answers req w :
  no_faults w ->
  let from := TransferRequest.FromUserID req in
  let to := TransferRequest.ToUserID req in
  let amt := TransferRequest.Amount req in
  let id := transactions_auto_increment (db w) in
  let r := fst (Transfer req w) in
  let d' := db (snd (Transfer req w)) in
  ((exists e, r = Err e) /\ untouched (db w) d') \/
  (r = Ok (Transaction.mk id (Some from) (Some to) amt TransactionTypeTransfer
             TransactionStatusCompleted (clock w)) /\
   recorded id (Some from) (Some to) amt TransactionTypeTransfer (clock w) (db w) d' /\
   balances d' = adjust to amt (clock w) (adjust from (- amt) (clock w) (balances (db w)))).
Proof.
  intros Hnf. simpl.
  destruct (Transfer_outcome req w) as [Habort|([Hok|[_ Hf]] & _ & _ & _ & Hrec & Hbal)];
    [left; exact Habort | right; auto | contradiction].
Qed.

(** C2, where the code departs from it. The transfer of 50 from account 1
    (holding 100) to account 2 on the example ledger, when the store fails
    the one read that follows the commit: [Transfer] returns an error, yet
    account 1 holds 50, account 2 holds 50 and the transfer is recorded as
    completed. *)
Theorem transfer_error_after_commit :
  let w := world_example (replicate 12 false ++ [true]) in
  let r := Transfer (TransferRequest.mk 1 2 50) w in
  fst r = Err (fmt_Errorf "database error" (sql_err ErrDriver)) /\
  balance_of (db w) 1 = 100 /\ balance_of (db w) 2 = 0 /\
  transactions (db w) !! 1 = None /\
  balance_of (db (snd r)) 1 = 50 /\ balance_of (db (snd r)) 2 = 50 /\
  transactions (db (snd r)) !! 1 =
    Some (TransactionsRow.mk (Some 1) (Some 2) 50 TransactionTypeTransfer
            TransactionStatusCompleted 10).
Proof. vm_compute. repeat split. Qed.

(** ** C3: insufficient funds *)







(** After a credit of 40 has been spent (account 1 goes 100, 140, 10), its
    rollback would take the balance to -30: [updateBalanceInTx] refuses under
    the row lock, the unit is undone, and every table is as before the
    call. *)
Example rollback_refused_for_lack_of_funds :
  let w2 := run_ops [OpCredit (CreditRequest.mk 1 40); OpDebit (DebitRequest.mk 1 130)]
              (world_example []) in
  let r := RollbackTransaction 1 w2 in
  balance_of (db w2) 1 = 10 /\
  fst r = Err (fmt_Errorf "failed to reverse credit" (errors_New "insufficient balance")) /\
  root_cause (fmt_Errorf "failed to reverse credit" (errors_New "insufficient balance")) =
    errors_New "insufficient balance" /\
  balances (db (snd r)) = balances (db w2) /\
  transactions (db (snd r)) = transactions (db w2) /\
  balance_history (db (snd r)) = balance_history (db w2).
Proof. vm_compute. repeat split. Qed.

(** ** C4: Credit, then rollback, then rollback again *)

Ltac store_answers :=
  exfalso; unfold frame in *; simpl in *;
  repeat match goal with H : _ /\ _ |- _ => destruct H end;
  tauto.

Lemma amount_at_adjust u delta now b v :
  amount_at (adjust u delta now b) v =
    if decide (u = v) then new_amount b u delta else amount_at b v.
Proof.
  unfold adjust, amount_at at 1. rewrite lookup_insert.
  case_decide; [subst|]; reflexivity.
Qed.

Lemma new_amount_adjust_ne u v delta now b x :
  u <> v -> new_amount (adjust u delta now b) v x = new_amount b v x.
Proof.
  intros Hne. unfold new_amount, adjust. rewrite lookup_insert_ne by exact Hne. reflexivity.
Qed.






(** ** C5: the status of a transaction record *)

Lemma recorded_step id0 from to amt ty now d d' id :
  recorded id0 from to amt ty now d d' ->
  rtc status_step (transactions d !! id) (transactions d' !! id).
Proof.
  intros [Hnone ->]. rewrite lookup_insert. case_decide; [subst|apply rtc_refl].
  rewrite Hnone. apply rtc_once, step_created. reflexivity.
Qed.

Lemma run_op_status_step o w id :
  rtc status_step (transactions (db w) !! id) (transactions (db (run_op o w)) !! id).
Proof.
  destruct o; simpl.
  - destruct (Credit_outcome req w) as [[_ (_ & -> & _)]|(_ & _ & Hrec & _)];
      [apply rtc_refl | eapply recorded_step, Hrec].
  - destruct (Debit_outcome req w) as [[_ (_ & -> & _)]|(_ & _ & _ & Hrec & _)];
      [apply rtc_refl | eapply recorded_step, Hrec].
  - destruct (Transfer_outcome req w) as [[_ (_ & -> & _)]|(_ & _ & _ & _ & Hrec & _)];
      [apply rtc_refl | eapply recorded_step, Hrec].
  - destruct (RollbackTransaction_outcome transactionID w)
      as [[_ (_ & -> & _)]|(_ & row & Hrow & Hst & -> & _)]; [apply rtc_refl|].
    rewrite lookup_insert. case_decide; [subst|apply rtc_refl].
    rewrite Hrow. apply rtc_once, step_rolled_back, Hst.
  - destruct (UpdateBalance_outcome userID amount w)
      as [[_ (_ & -> & _)]|(_ & _ & _ & -> & _)]; apply rtc_refl.
Qed.

Lemma run_ops_status_steps os w id :
  rtc status_step (transactions (db w) !! id) (transactions (db (run_ops os w)) !! id).
Proof.
  revert w. induction os as [|o os IH]; intros w; simpl; [apply rtc_refl|].
  etrans; [apply run_op_status_step | apply IH].
Qed.

Lemma status_steps_from_settled r b :
  TransactionsRow.status r <> TransactionStatusCompleted ->
  rtc status_step (Some r) b -> b = Some r.
Proof.
  intros Hr Hsteps. remember (Some r) as a eqn:Ea.
  destruct Hsteps as [|a b c Hstep _]; [reflexivity|].
  subst a. inversion Hstep; subst. contradiction.
Qed.

Lemma status_steps_to_failed a r :
  TransactionsRow.status r = TransactionStatusFailed ->
  rtc status_step a (Some r) -> a = Some r.
Proof.
  intros Hr Hsteps. remember (Some r) as b eqn:Eb.
  induction Hsteps as [|a b c Hstep Hsteps IH]; [reflexivity|].
  specialize (IH Eb). subst b. inversion Hstep; subst; simpl in *.
  - unfold TransactionStatusCompleted, TransactionStatusFailed in *. congruence.
  - match goal with H : Some _ = Some r |- _ => injection H as <- end.
    simpl in Hr. discriminate.
Qed.

(** C5. The status of a transaction record follows pending -> completed ->
    rolled_back. On the trace of any sequence of core operations a record is
    only ever inserted inside a unit, as pending, and a status is only ever
    set inside a unit, to completed or to rolled_back. Between the stores
    before and after the sequence every record has either not moved, or
    appeared as completed, or gone from completed to rolled_back, in that
    order and each at most once; a record that is not completed (rolled back,
    or anything else) never changes again; and a record with status failed
    can only be one that was stored as such before. *)
Theorem status_state_machine (os : list op) (w : World) :
  extends_by status_write_legal (events w) (events (run_ops os w)) /\
  (forall id,
     rtc status_step (transactions (db w) !! id)
       (transactions (db (run_ops os w)) !! id)) /\
  (forall id r,
     transactions (db w) !! id = Some r ->
     TransactionsRow.status r <> TransactionStatusCompleted ->
     transactions (db (run_ops os w)) !! id = Some r) /\
  (forall id r,
     transactions (db (run_ops os w)) !! id = Some r ->
     TransactionsRow.status r = TransactionStatusFailed ->
     transactions (db w) !! id = Some r).
Proof.
  split; [|split; [|split]].
  - eapply extends_by_impl; [|apply run_ops_emits].
    intros e He. destruct e as [| | | | |? s| |]; simpl; auto.
    destruct s; simpl in *; tauto.
  - intros id. apply run_ops_status_steps.
  - intros id r Hr Hst. eapply status_steps_from_settled; [exact Hst|].
    rewrite <- Hr. apply run_ops_status_steps.
  - intros id r Hr Hst. eapply status_steps_to_failed; [exact Hst|].
    rewrite <- Hr. apply run_ops_status_steps.
Qed.

(** ** C6: the per-account guard *)

Lemma service_event_no_guard e : service_event false e -> ~ guard_event e.
Proof. destruct e; simpl; auto; discriminate. Qed.

Lemma UpdateBalance_trace u amt w :
  exists unit,
    events (snd (UpdateBalance u amt w)) =
      events w ++ [EvLock u; EvBegin] ++ unit ++ [EvUnlock u] /\
    Forall (service_event false) unit /\
    mu (snd (UpdateBalance u amt w)) = {[u]} ∪ mu w.
Proof.
  cut (wp (UpdateBalance u amt) w (fun _ w' =>
         exists E, events w' = E ++ [EvUnlock u] /\
           extends_by (service_event false) (events w ++ [EvLock u; EvBegin]) E /\
           mu w' = {[u]} ∪ mu w)).
  { unfold wp. intros (E & -> & (unit & -> & Hunit) & Hmu).
    exists unit. rewrite <- !app_assoc. auto. }
  assert (forall w' : World,
            events w' = (events w ++ [EvLock u]) ++ [EvBegin] ->
            extends_by (service_event false) (events w ++ [EvLock u; EvBegin]) (events w'))
    as Hstart.
  { intros w' ->. rewrite <- app_assoc. apply extends_by_refl. }
  unfold UpdateBalance, Lock, Unlock. repeat wp_step.
  - eexists. split; [reflexivity|]. simpl. split; [|reflexivity].
    apply extends_by_snoc; [exact Logic.I | apply (Hstart (with_event EvBegin (with_event (EvLock u) w)))].
    reflexivity.
  - eapply wp_mono.
    + apply (updateBalanceInTx_emits false (events w ++ [EvLock u; EvBegin]) ({[u]} ∪ mu w)).
      simpl. split; [|reflexivity].
      apply (Hstart (with_event EvBegin (with_event (EvLock u) w))). reflexivity.
    + simpl. intros [[]|e] w' [Hev Hmu]; specialize (Hmu eq_refl); repeat wp_step.
      all: simpl; eexists; (split; [reflexivity|]); split; [|assumption].
      all: repeat (apply extends_by_snoc; [simpl; auto|]); assumption.
Qed.

(** C6, as the code has it. [Transfer] never takes the per-account guard: for
    every request, world and failure schedule it emits no acquisition or
    release of a mutex and creates no mutex in [BalanceService.mu]. The locks
    it takes are the row locks of the store, inside its unit, in the order of
    the request: the sender's row, then the receiver's, whatever the account
    ids. The guard is taken only by [UpdateBalance], for its single account,
    before its unit is opened, and released when it returns. *)
Theorem transfer_takes_no_guard (req : TransferRequest.t) (w : World) :
  extends_by (fun e => ~ guard_event e) (events w) (events (snd (Transfer req w))) /\
  mu (snd (Transfer req w)) = mu w /\
  (exists locks,
     locks_since (events w) (events (snd (Transfer req w))) locks /\
     (locks = [] \/ locks = [TransferRequest.FromUserID req] \/
      locks = [TransferRequest.FromUserID req; TransferRequest.ToUserID req]) /\
     (forall t, fst (Transfer req w) = Ok t ->
        locks = [TransferRequest.FromUserID req; TransferRequest.ToUserID req])) /\
  forall u amt, exists unit,
    events (snd (UpdateBalance u amt w)) =
      events w ++ [EvLock u; EvBegin] ++ unit ++ [EvUnlock u] /\
    Forall (fun e => ~ guard_event e) unit /\
    u ∈ mu (snd (UpdateBalance u amt w)).
Proof.
  destruct (Transfer_emits false (events w) (mu w) req w) as [Hev Hmu].
  { split; [apply extends_by_refl | reflexivity]. }
  split; [|split; [|split]].
  - eapply extends_by_impl; [apply service_event_no_guard | exact Hev].
  - apply Hmu. reflexivity.
  - apply (Transfer_row_locks req w).
  - intros u amt. destruct (UpdateBalance_trace u amt w) as (unit & Hev' & Hunit & Hmu').
    exists unit. split; [exact Hev'|]. split.
    + eapply Forall_impl; [exact Hunit | apply service_event_no_guard].
    + rewrite Hmu'. apply elem_of_union. left. apply elem_of_singleton. reflexivity.
Qed.

(** C6, as stated, fails: the transfer of 50 from account 1 to account 2 on
    the example ledger completes without taking the guard of either account
    before it opens its unit. *)
Lemma transfer_guards_counterexample :
  fst (Transfer (TransferRequest.mk 1 2 50) (world_example [])) =
    Ok (Transaction.mk 1 (Some 1) (Some 2) 50 "transfer" "completed" 10) /\
  ~ guards_in_ascending_order 1 2
      (events (snd (Transfer (TransferRequest.mk 1 2 50) (world_example [])))).
Proof.
  split; [vm_compute; reflexivity|].
  unfold guards_in_ascending_order. vm_compute. discriminate.
Qed.

(** ** C7: reconciliation *)



(** A history insert that fails (here: the account is not a registered user,
    so the foreign key refuses the row) is logged and not propagated:
    [updateBalanceInTx] succeeds, the balance has moved and the history has
    not. *)
Lemma updateBalanceInTx_tolerates_history_failure tx u amt w :
  no_faults w -> u ∉ users (db w) -> 0 <= balance_of (db w) u + amt ->
  wp (updateBalanceInTx tx u amt) w (fun r w' =>
    r = Ok tt /\
    balance_of (db w') u = new_amount (balances (db w)) u amt /\
    balance_history (db w') = balance_history (db w) /\
    exists new,
      events w' = events w ++ new /\
      log_lines new = [("warn", "Failed to record balance history (non-critical)")]).
Proof.
  intros Hnf Hu Hge. unfold updateBalanceInTx, record_history.
  repeat (wp_step; try solve [oracle]).
  all: unfold select_balance, new_amount in *; simpl in *.
  all: rewrite ?float64_add_ltb in *; ltb_to_prop.
  all: try (erewrite balance_of_lookup in * by eassumption).
  all: try (rewrite balance_of_none in * by assumption).
  all: try lia.
  all: try solve [exfalso; unfold insert_balance in *;
                  match goal with H : balances _ !! _ = None |- _ => rewrite H in * end;
                  discriminate].
  all: try match goal with
           | H : inr (update_balance _ _ _ _) = inr _ |- _ => injection H as <-
           end.
  all: try match goal with
           | H : insert_balance _ _ _ _ = inr _ |- _ =>
               apply insert_balance_counter in H as (_ & _ & Hus & Hh & Hb & _)
           end.
  all: try solve [exfalso;
                  match goal with
                  | H : insert_history _ _ _ _ _ _ = inr _ |- _ =>
                      unfold insert_history in H; simpl in H;
                      rewrite ?Hus in H; rewrite decide_False in H by assumption;
                      discriminate
                  end].
  all: split; [reflexivity|].
  all: split; [unfold balance_of, amount_at; simpl; rewrite ?Hb;
               first [rewrite lookup_insert_eq | rewrite lookup_alter_eq];
               repeat match goal with H : balances _ !! _ = _ |- _ => rewrite H end;
               reflexivity|].
  all: split; [simpl; auto|].
  all: rewrite <- ?app_assoc; eexists; split; reflexivity.
Qed.




(** A history insert that fails is only logged: the credit of 50 to account
    3, which is not a registered user, commits the balance without a history
    row, and the next reconciliation of account 3 reports the drift. *)
Example reconcile_after_history_failure :
  let w1 := snd (Credit (CreditRequest.mk 3 50) (world_example [])) in
  let w2 := snd (ReconcileBalance 3 w1) in
  balance_of (db w1) 3 = 50 /\ history_deltas 3 (db w1) = 0 /\
  log_lines (events w1) =
    [("warn", "Failed to record balance history (non-critical)");
     ("info", "Credit transaction completed")] /\
  log_lines (events w2) =
    log_lines (events w1) ++ [("warn", "Balance discrepancy detected")].
Proof. vm_compute. repeat split. Qed.

(** ** C8: the balance at a point in time *)

Lemma head_insert_desc r l :
  head (insert_desc r l) =
    match head l with
    | None => Some r
    | Some x => if HistoryRow.created_at x <? HistoryRow.created_at r then Some r else Some x
    end.
Proof. destruct l as [|x l]; simpl; [reflexivity|]. destruct (_ <? _); reflexivity. Qed.

Lemma head_order_none l : head (order_by_created_at_desc l) = None -> l = [].
Proof.
  destruct l as [|a l]; [reflexivity|]. simpl. rewrite head_insert_desc.
  destruct (head _); [destruct (_ <? _)|]; discriminate.
Qed.

(** The first row of [ORDER BY created_at DESC] is a row of the input, and
    no row of the input is more recent. *)
Lemma head_order_latest l r :
  head (order_by_created_at_desc l) = Some r ->
  r ∈ l /\ forall x, x ∈ l -> HistoryRow.created_at x <= HistoryRow.created_at r.
Proof.
  revert r. induction l as [|a l IH]; intros r; simpl; [discriminate|].
  rewrite head_insert_desc.
  destruct (head (order_by_created_at_desc l)) as [x|] eqn:Hx.
  - destruct (IH x eq_refl) as [Hin Hmax].
    destruct (HistoryRow.created_at x <? HistoryRow.created_at a) eqn:Hlt;
      intros [= <-]; ltb_to_prop.
    + split; [apply elem_of_cons; auto|].
      intros y [->|Hy]%elem_of_cons; [lia|]. specialize (Hmax y Hy). lia.
    + split; [apply elem_of_cons; auto|].
      intros y [->|Hy]%elem_of_cons; [lia | auto].
  - apply head_order_none in Hx as ->. intros [= <-].
    split; [apply elem_of_cons; auto|].
    intros y [->|Hy]%elem_of_cons; [lia|]. inversion Hy.
Qed.

Lemma elem_of_rows_until u t d r : r ∈ rows_until u t d <-> recorded_until u t d r.
Proof.
  unfold rows_until, recorded_until. rewrite list_elem_of_filter. tauto.
Qed.

Lemma select_balance_at_none u t d :
  (forall r, ~ recorded_until u t d r) -> select_balance_at u t d = None.
Proof.
  intros Hnone. unfold select_balance_at.
  destruct (head _) as [r|] eqn:Hr; [|reflexivity].
  apply head_order_latest in Hr as [Hin _].
  apply elem_of_rows_until in Hin. destruct (Hnone r Hin).
Qed.

Lemma select_balance_at_latest u t d r0 :
  recorded_until u t d r0 ->
  exists latest,
    recorded_until u t d latest /\
    (forall r, recorded_until u t d r ->
       HistoryRow.created_at r <= HistoryRow.created_at latest) /\
    select_balance_at u t d = Some (HistoryRow.balance latest).
Proof.
  intros H0. unfold select_balance_at.
  destruct (head _) as [r|] eqn:Hr.
  - apply head_order_latest in Hr as [Hin Hmax]. exists r.
    split; [apply elem_of_rows_until, Hin|]. split; [|reflexivity].
    intros x Hx. apply Hmax, elem_of_rows_until, Hx.
  - apply head_order_none in Hr. apply elem_of_rows_until in H0.
    rewrite Hr in H0. inversion H0.
Qed.

Lemma GetBalanceAtTime_answer u t w :
  no_faults w ->
  GetBalanceAtTime u t w =
    (Ok (default 0 (select_balance_at u t (db w))),
     with_faults [] (with_event (EvSql false (SelectHistoryAt u t)) w)).
Proof.
  unfold no_faults. intros Hnf.
  unfold GetBalanceAtTime, bind, on_err, query, round_trip. rewrite Hnf. simpl.
  destruct (select_balance_at u t (db w)); reflexivity.
Qed.

(** C8. When the store answers the query, [GetBalanceAtTime(account, t)]
    leaves the store as it is and returns, without error: 0 when the account
    has no history row written at or before [t]; otherwise the balance
    recorded by a most recent such row, which is the balance of the row [r]
    itself whenever every other such row is strictly older than [r]. In
    particular, when the rows of the account are three rows written at
    t1 < t2 < t3, every t with t2 <= t < t3 yields the balance recorded at t2
    and every t < t1 yields 0. *)
Theorem balance_at_time (w : World) (u t : Z) :
  no_faults w ->
  let r := GetBalanceAtTime u t w in
  db (snd r) = db w /\
  ((forall row, ~ recorded_until u t (db w) row) -> fst r = Ok 0) /\
  (forall row, recorded_until u t (db w) row ->
     exists latest,
       recorded_until u t (db w) latest /\
       (forall row', recorded_until u t (db w) row' ->
          HistoryRow.created_at row' <= HistoryRow.created_at latest) /\
       fst r = Ok (HistoryRow.balance latest)) /\
  (forall row, recorded_until u t (db w) row ->
     (forall row', recorded_until u t (db w) row' -> row' <> row ->
        HistoryRow.created_at row' < HistoryRow.created_at row) ->
     fst r = Ok (HistoryRow.balance row)) /\
  (forall r1 r2 r3,
     filter (fun row => HistoryRow.user_id row = u) (balance_history (db w)) ≡ₚ [r1; r2; r3] ->
     HistoryRow.created_at r1 < HistoryRow.created_at r2 ->
     HistoryRow.created_at r2 < HistoryRow.created_at r3 ->
     (HistoryRow.created_at r2 <= t < HistoryRow.created_at r3 ->
      fst r = Ok (HistoryRow.balance r2)) /\
     (t < HistoryRow.created_at r1 -> fst r = Ok 0)).
Proof.
  intros Hnf. rewrite (GetBalanceAtTime_answer u t w Hnf). simpl.
  assert (forall row,
            recorded_until u t (db w) row ->
            (forall row', recorded_until u t (db w) row' -> row' <> row ->
               HistoryRow.created_at row' < HistoryRow.created_at row) ->
            Ok (default 0 (select_balance_at u t (db w))) = Ok (HistoryRow.balance row))
    as Hunique.
  { intros row Hrow Hstrict.
    destruct (select_balance_at_latest u t (db w) row Hrow) as (latest & Hl & Hmax & ->).
    simpl. destruct (decide (latest = row)) as [->|Hne]; [reflexivity|].
    specialize (Hstrict latest Hl Hne). specialize (Hmax row Hrow). lia. }
  split; [reflexivity|]. split; [|split; [|split]].
  - intros Hnone. rewrite select_balance_at_none by exact Hnone. reflexivity.
  - intros row Hrow.
    destruct (select_balance_at_latest u t (db w) row Hrow) as (latest & Hl & Hmax & ->).
    exists latest. auto.
  - exact Hunique.
  - intros r1 r2 r3 Hrows H12 H23.
    assert (forall row, recorded_until u t (db w) row <->
                        (row = r1 \/ row = r2 \/ row = r3) /\ HistoryRow.created_at row <= t)
      as Hrec.
    { intros row. unfold recorded_until.
      assert (row ∈ [r1; r2; r3] <-> row ∈ balance_history (db w) /\ HistoryRow.user_id row = u)
        as Hin by (rewrite <- Hrows, list_elem_of_filter; tauto).
      rewrite !elem_of_cons, elem_of_nil in Hin. tauto. }
    split.
    + intros Ht. apply Hunique.
      * apply Hrec. split; [auto | lia].
      * intros row' [[->| [->| ->]] Hle]%Hrec Hne; [lia | contradiction | lia].
    + intros Ht. rewrite select_balance_at_none; [reflexivity|].
      intros row [[->| [->| ->]] Hle]%Hrec; lia.
Qed.

Lemma balance_at_time_witness :
  let h t b := HistoryRow.mk t 1 b b None t in
  let w := mkWorld (mkDB {[1]} ∅ 1 ∅ [h 10 5; h 20 7; h 30 9] 40) false ∅ 50 [] [] in
  fst (GetBalanceAtTime 1 25 w) = Ok 7 /\ fst (GetBalanceAtTime 1 5 w) = Ok 0.
Proof.
  set (h := fun t b => HistoryRow.mk t 1 b b None t).
  set (w := mkWorld (mkDB {[1]} ∅ 1 ∅ [h 10 5; h 20 7; h 30 9] 40) false ∅ 50 [] []).
  simpl. split.
  - destruct (balance_at_time w 1 25 eq_refl) as (_ & _ & _ & _ & Hthree).
    destruct (Hthree (h 10 5) (h 20 7) (h 30 9)) as [H25 _];
      [reflexivity | simpl; lia | simpl; lia |].
    apply H25. simpl. lia.
  - destruct (balance_at_time w 1 5 eq_refl) as (_ & _ & _ & _ & Hthree).
    destruct (Hthree (h 10 5) (h 20 7) (h 30 9)) as [_ H5];
      [reflexivity | simpl; lia | simpl; lia |].
    apply H5. simpl. lia.
Defined.

(** ** C9: the pre-check leaves a zero row behind *)

Ltac no_such_path :=
  exfalso; unfold select_balance in *; ltb_to_prop; simpl in *;
  solve [congruence | lia].

Lemma Debit_precheck_zero_row u amt w :
  balances (db w) !! u = None ->
  wp (Debit (DebitRequest.mk u amt)) w (fun r w' =>
    (no_faults w -> 0 < amt -> r = Err (errors_New "insufficient balance")) /\
    (r = Err (errors_New "insufficient balance") ->
     balances (db w') = <[u := BalancesRow.mk 0 (clock w)]> (balances (db w)) /\
     events w' =
       events w ++ [EvSql false (SelectBalance u false); EvSql false (InsertBalance u 0)])).
Proof.
  intros Hnone. unfold Debit, GetBalance. simpl.
  repeat (wp_step; try no_such_path).
  all: simpl in *.
  all: try solve [exfalso; unfold insert_balance in *; rewrite Hnone in *; discriminate].
  all: split; try discriminate.
  all: try solve [intros Hnf; oracle].
  all: try solve [intros; ltb_to_prop; lia].
  - reflexivity.
  - intros _.
    match goal with H : insert_balance _ _ _ _ = inr _ |- _ =>
      apply insert_balance_counter in H as (_ & _ & _ & _ & -> & _) end.
    rewrite <- app_assoc. auto.
Qed.

Lemma Transfer_precheck_zero_row u to amt w :
  balances (db w) !! u = None -> to <> u ->
  wp (Transfer (TransferRequest.mk u to amt)) w (fun r w' =>
    (no_faults w -> 0 < amt -> r = Err (errors_New "insufficient balance")) /\
    (r = Err (errors_New "insufficient balance") ->
     balances (db w') = <[u := BalancesRow.mk 0 (clock w)]> (balances (db w)) /\
     events w' =
       events w ++ [EvSql false (SelectBalance u false); EvSql false (InsertBalance u 0)])).
Proof.
  intros Hnone Hne. unfold Transfer, GetBalance. simpl.
  repeat (wp_step; try no_such_path).
  all: simpl in *.
  all: try solve [exfalso; unfold insert_balance in *; rewrite Hnone in *; discriminate].
  all: split; try discriminate.
  all: try solve [intros Hnf; oracle].
  all: try solve [intros; ltb_to_prop; lia].
  - reflexivity.
  - intros _.
    match goal with H : insert_balance _ _ _ _ = inr _ |- _ =>
      apply insert_balance_counter in H as (_ & _ & _ & _ & -> & _) end.
    rewrite <- app_assoc. auto.
Qed.

(** C9. For an account without a balance row, a [Debit] or [Transfer]
    rejected by the advisory pre-check (the error is the bare "insufficient
    balance" of the pre-check, which is what a positive amount gets when the
    store answers) leaves a zero balance row for that account behind: the
    trace of the call is the SELECT of [GetBalance] followed by its INSERT,
    both outside any unit, and the row is in the store when the call
    returns. *)
Theorem precheck_persists_zero_row (w : World) (u amt : Z) :
  balances (db w) !! u = None ->
  (let r := Debit (DebitRequest.mk u amt) w in
   (no_faults w -> 0 < amt -> fst r = Err (errors_New "insufficient balance")) /\
   (fst r = Err (errors_New "insufficient balance") ->
    balances (db (snd r)) = <[u := BalancesRow.mk 0 (clock w)]> (balances (db w)) /\
    events (snd r) =
      events w ++ [EvSql false (SelectBalance u false); EvSql false (InsertBalance u 0)])) /\
  (forall to, to <> u ->
   let r := Transfer (TransferRequest.mk u to amt) w in
   (no_faults w -> 0 < amt -> fst r = Err (errors_New "insufficient balance")) /\
   (fst r = Err (errors_New "insufficient balance") ->
    balances (db (snd r)) = <[u := BalancesRow.mk 0 (clock w)]> (balances (db w)) /\
    events (snd r) =
      events w ++ [EvSql false (SelectBalance u false); EvSql false (InsertBalance u 0)])).
Proof.
  intros Hnone. split.
  - apply (Debit_precheck_zero_row u amt w Hnone).
  - intros to Hne. apply (Transfer_precheck_zero_row u to amt w Hnone Hne).
Qed.

Lemma precheck_persists_zero_row_witness :
  let w := world_example [] in
  let r := Debit (DebitRequest.mk 2 30) w in
  balances (db w) !! 2 = None /\
  fst r = Err (errors_New "insufficient balance") /\
  balances (db (snd r)) !! 2 = Some (BalancesRow.mk 0 10).
Proof.
  split; [reflexivity|].
  destruct (precheck_persists_zero_row (world_example []) 2 30 eq_refl)
    as [[Hrej Hrow] _].
  split; [apply Hrej; [reflexivity | lia]|].
  destruct (Hrow (Hrej eq_refl ltac:(lia))) as [-> _]. reflexivity.
Defined.

(** ** C10: history rows are never linked to a transaction *)

(** C10. Every row the core operations append to [balance_history] has a
    NULL transaction id: after any sequence of operations the history is the
    previous one followed by rows whose [transaction_id] is [None] (the
    column and the field of [models.BalanceHistory] exist but are never
    filled), and every INSERT into [balance_history] on the trace carries
    NULL. *)
Theorem history_rows_unlinked (os : list op) (w : World) :
  history_grows_unlinked (db w) (db (run_ops os w)) /\
  extends_by history_write_unlinked (events w) (events (run_ops os w)).
Proof.
  split.
  - apply run_ops_stable;
      [apply history_grows_unlinked_stable | apply history_grows_unlinked_refl].
  - eapply extends_by_impl; [|apply run_ops_emits].
    intros e He. destruct e as [| | | | |? s| |]; simpl; auto.
    destruct s; simpl in *; tauto.
Qed.

(** ** The services when the store answers every call *)

Lemma apply_delta_tables u delta now d :
  users (apply_delta u delta now d) = users d /\
  transactions (apply_delta u delta now d) = transactions d /\
  transactions_auto_increment (apply_delta u delta now d) = transactions_auto_increment d /\
  balances (apply_delta u delta now d) = adjust u delta now (balances d) /\
  balance_history (apply_delta u delta now d) =
    if decide (u ∈ users d)
    then balance_history d ++
           [HistoryRow.mk (balance_history_auto_increment d) u
              (new_amount (balances d) u delta) delta None now]
    else balance_history d.
Proof.
  unfold apply_delta, insert_history. simpl.
  destruct (decide (u ∈ users d)); simpl; auto 6.
Qed.




Lemma apply_delta_update u delta now d r :
  balances d !! u = Some r ->
  apply_delta u delta now d =
    let new := float64_add (BalancesRow.amount r) delta in
    match insert_history u new delta None now (update_balance u new now d) with
    | inr d2 => d2
    | inl _ => update_balance u new now d
    end.
Proof.
  intros Hr. unfold apply_delta, update_balance, new_amount.
  rewrite Hr, (alter_const_insert _ _ _ _ Hr). reflexivity.
Qed.

Lemma apply_delta_insert u delta now d d1 :
  insert_balance u delta now d = inr d1 ->
  apply_delta u delta now d =
    match insert_history u delta delta None now d1 with
    | inr d2 => d2
    | inl _ => d1
    end.
Proof.
  unfold insert_balance. destruct (balances d !! u) eqn:Hr; [discriminate|].
  intros [= <-]. unfold apply_delta, new_amount. rewrite Hr. reflexivity.
Qed.

(** [updateBalanceInTx] when the store answers: the delta is applied, or it
    would take the balance below zero and nothing is written. *)
Lemma wp_updateBalanceInTx_answers tx u delta w Q :
  no_faults w ->
  (balance_of (db w) u + delta < 0 ->
   forall w', frame w w' -> no_faults w' -> db w' = db w ->
     Q (Err (errors_New "insufficient balance")) w') ->
  (0 <= balance_of (db w) u + delta ->
   forall w', frame w w' -> no_faults w' ->
     db w' = apply_delta u delta (clock w) (db w) -> Q (Ok tt) w') ->
  wp (updateBalanceInTx tx u delta) w Q.
Proof.
  intros Hnf Herr Hok. unfold updateBalanceInTx, record_history.
  repeat (wp_step; try solve [oracle]).
  all: unfold select_balance in *; simpl in *.
  all: rewrite ?float64_add_ltb in *; ltb_to_prop.
  all: try solve [exfalso; unfold insert_balance in *;
                  match goal with H : balances _ !! _ = None |- _ => rewrite H in * end;
                  discriminate].
  all: try solve [apply Herr;
                  [ first [erewrite balance_of_lookup by eassumption
                          | rewrite balance_of_none by assumption]; lia
                  | framed | oracle; reflexivity | reflexivity ]].
  all: apply Hok;
    [ first [erewrite balance_of_lookup by eassumption
            | rewrite balance_of_none by assumption]; lia
    | framed | oracle; reflexivity | ].
  all: simpl.
  all: try match goal with
           | H : inr (update_balance _ _ _ _) = inr _ |- _ => injection H as <-
           end.
  all: first [ erewrite apply_delta_update by eassumption
             | erewrite apply_delta_insert by eassumption ].
  all: cbv zeta.
  all: match goal with H : insert_history _ _ _ _ _ _ = _ |- _ => rewrite H end.
  all: reflexivity.
Qed.

Ltac answered :=
  solve [unfold frame, no_faults in *; simpl in *; intuition congruence].

Lemma wp_create_transaction_answers msg from to amt ty w Q :
  no_faults w ->
  (transactions (db w) !! transactions_auto_increment (db w) <> None ->
   forall w', frame w w' -> no_faults w' -> db w' = db w ->
     Q (Err (fmt_Errorf "failed to create transaction" (sql_err ErrDuplicateEntry))) w') ->
  (forall d1 w',
     insert_transaction from to amt ty TransactionStatusPending (clock w) (db w) =
       inr (transactions_auto_increment (db w), d1) ->
     frame w w' -> no_faults w' -> db w' = d1 ->
     Q (Ok (transactions_auto_increment (db w))) w') ->
  wp (create_transaction msg from to amt ty) w Q.
Proof.
  intros Hnf Herr Hok. unfold create_transaction, LastInsertId.
  repeat (wp_step; try solve [oracle]).
  all: simpl in *; try discriminate.
  - unfold insert_transaction in *.
    destruct (transactions (db w) !! transactions_auto_increment (db w)) eqn:E;
      [|discriminate].
    match goal with H : inl _ = inl _ |- _ => injection H as <- end.
    apply Herr; [discriminate | framed | oracle; reflexivity | reflexivity].
  - match goal with H : inr _ = inr _ |- _ => injection H as <- <- end.
    assert (a = transactions_auto_increment (db w)) as ->.
    { unfold insert_transaction in *.
      destruct (transactions (db w) !! _); [discriminate|]. congruence. }
    eapply Hok; [eassumption | framed | oracle; reflexivity | reflexivity].
Qed.

Lemma wp_Rollback_clock tx w Q :
  (open_tx w = false -> Q (Err (sql_err ErrTxDone)) w) ->
  (forall w', open_tx w = true -> open_tx w' = false -> faults w' = faults w ->
     clock w' = clock w -> events w' = events w ++ [EvRollback] ->
     db w' = restore_tables (undo tx) (db w) -> Q (Ok tt) w') ->
  wp (Rollback tx) w Q.
Proof.
  intros Hdone Hok. wp_step; [auto|]. apply Hok; simpl; auto.
Qed.

Ltac astep :=
  lazymatch goal with
  | |- wp (updateBalanceInTx _ _ _) _ _ =>
      apply wp_updateBalanceInTx_answers; [answered | intros | intros]
  | |- wp (create_transaction _ _ _ _ _) _ _ =>
      apply wp_create_transaction_answers; [answered | intros | intros]
  | |- wp (Rollback _) _ _ => apply wp_Rollback_clock; intros; try (exfalso; opened)
  | _ => xstep; try store_answers
  end.

Lemma transactions_apply_delta u delta now d :
  transactions (apply_delta u delta now d) = transactions d.
Proof. apply apply_delta_tables. Qed.


(** Brings the tables of the worlds a unit went through back to those of
    the world it started from. *)
Ltac denote :=
  unfold frame in *; simpl in *;
  repeat match goal with H : _ /\ _ |- _ => destruct H end;
  repeat match goal with
         | H : db ?w = _ |- _ => is_var w; rewrite H in *; clear H; simpl in *
         | H : clock ?w = _ |- _ => is_var w; rewrite H in *; clear H; simpl in *
         end;
  repeat match goal with
         | H : insert_transaction _ _ _ _ _ _ ?d = inr (_, ?d1) |- _ =>
             is_var d1; unfold insert_transaction in H;
             let E := fresh "Hfresh" in
             destruct (transactions d !! transactions_auto_increment d) eqn:E;
               [discriminate|];
             injection H as <-; simpl in *
         end.

Ltac settle :=
  (split; [answered|]);
  (split; [unfold frame in *; simpl in *;
           repeat match goal with H : _ /\ _ |- _ => destruct H end; congruence|]);
  ltb_to_prop; denote; unfold balance_of in *; simpl in *;
  rewrite ?transactions_apply_delta in *; simpl in *;
  rewrite ?lookup_alter_eq, ?lookup_insert_eq in *; simpl in *;
  try discriminate.

Ltac looked_up :=
  unfold amount_at in *;
  repeat match goal with
         | H : balances _ !! _ = _ |- _ => rewrite H in *
         end.







Lemma RollbackTransaction_answers id row w :
  no_faults w ->
  transactions (db w) !! id = Some row ->
  TransactionsRow.status row = TransactionStatusCompleted ->
  wp (RollbackTransaction id) w (fun r w' =>
    no_faults w' /\ clock w' = clock w /\
    ((known_type row /\ affordable (clock w) (compensating_deltas row) (db w)) /\
     r = Ok tt /\
     db w' = update_transaction_status id TransactionStatusRolledBack
               (apply_deltas (clock w) (compensating_deltas row) (db w))
     \/
     ~ (known_type row /\ affordable (clock w) (compensating_deltas row) (db w)) /\
     (exists e, r = Err e /\
        (~ known_type row -> e = errors_New "unknown transaction type")) /\
     same_tables (db w) (db w'))).
Proof.
  intros Hnf Hrow Hst. unfold RollbackTransaction.
  astep. astep; [congruence|].
  assert (row0 = row) as -> by congruence.
  simpl. rewrite Hst. simpl.
  unfold compensate; simpl.
  repeat astep.
  all: settle.
  all: unfold compensating_deltas, known_type, apply_deltas.
  all: repeat match goal with
              | H : decide _ = _ |- _ => rewrite H
              | H : TransactionsRow.from_user_id _ = _ |- _ => rewrite H
              | H : TransactionsRow.to_user_id _ = _ |- _ => rewrite H
              end.
  all: simpl; unfold balance_of; simpl.
  all: try solve [left; repeat split; solve [auto | lia]].
  all: try solve [right; split;
                  [ intros [_ Ha]; simpl in Ha; lia
                  | split; [|repeat split];
                    eexists; split; [reflexivity|];
                    intros Hnk; exfalso; apply Hnk; auto ]].
  right. split; [intros [[?|[?|?]] _]; contradiction|].
  split; [eexists; split; reflexivity | repeat split].
Qed.





(** ** Credit, Debit and Transfer when the store answers *)







(** ** What a transfer moves *)



(** Beyond the exact range a transfer does not conserve: from a sender
    holding 10 to a receiver holding 2^53, the transfer of 1 succeeds, takes
    1 from the sender and leaves the receiver at 2^53, the [float64] nearest
    to 2^53 + 1. *)
Example Transfer_rounds_the_receiver :
  let w := mkWorld (mkDB {[1; 2]} ∅ 1
                      {[1 := BalancesRow.mk 10 0; 2 := BalancesRow.mk 9007199254740992 0]}
                      [] 1) false ∅ 10 [] [] in
  let r := Transfer (TransferRequest.mk 1 2 1) w in
  fst r = Ok (Transaction.mk 1 (Some 1) (Some 2) 1 "transfer" "completed" 10) /\
  balance_of (db (snd r)) 1 = 9 /\
  balance_of (db (snd r)) 2 = 9007199254740992.
Proof. vm_compute. repeat split. Qed.

(** ** RollbackTransaction: all or nothing *)

(** Whichever calls to the store fail, an error from [RollbackTransaction]
    other than the one of its commit means that every table is as it was,
    and success means that the record was completed and is now rolled back,
    no other record has changed, and the balances are those of its
    compensation, each delta added to its account as [float64] adds. What a
    commit that returned an error has left in the store is the affair of
    the driver and the server, and nothing is said about it here. Unlike
    [Credit], [Debit] and [Transfer] it reads nothing after its commit, so a
    success always tells what happened. *)
Theorem RollbackTransaction_all_or_nothing (id : Z) (w : World) :
  let r := RollbackTransaction id w in
  (forall e, fst r = Err e ->
     (forall err, e <> fmt_Errorf "failed to commit rollback" err) ->
     same_tables (db w) (db (snd r))) /\
  (fst r = Ok tt ->
   exists row,
     transactions (db w) !! id = Some row /\
     TransactionsRow.status row = TransactionStatusCompleted /\
     transactions (db (snd r)) =
       <[id := set_status TransactionStatusRolledBack row]> (transactions (db w)) /\
     balances (db (snd r)) = compensation row (clock w) (balances (db w))).
Proof.
  simpl.
  destruct (RollbackTransaction_outcome id w) as [[[e He] Hsame]|[Hok Hrow]].
  - rewrite He. split; [auto | discriminate].
  - rewrite Hok. split; [discriminate | auto].
Qed.

(** ** Requests turned away before a unit is opened *)

Lemma query_answers {A} in_tx s (q : DB -> A) w :
  no_faults w -> query in_tx s q w = (Ok (q (db w)), with_event (EvSql in_tx s) w).
Proof.
  unfold no_faults, query, round_trip. destruct w as [d o m c f ev]. simpl.
  intros ->. reflexivity.
Qed.

Lemma GetTransactionByID_answers id w :
  no_faults w ->
  GetTransactionByID id w =
    (match transactions (db w) !! id with
     | Some row => Ok (scan_transaction id row)
     | None => Err (errors_New "transaction not found")
     end,
     with_event (EvSql false (SelectTransaction id)) w).
Proof.
  intros Hnf. unfold GetTransactionByID, bind, on_err.
  rewrite (query_answers _ _ _ _ Hnf). unfold select_transaction.
  destruct (transactions (db w) !! id); reflexivity.
Qed.

(** Validation comes first. A request with an amount that is not positive,
    and a transfer from an account to itself, are turned away with their
    own errors before the store is asked anything: the world is exactly as
    it was, whatever the state of the store or of the connection. The
    amount is checked before the accounts. *)
Theorem validation_precedes_store (w : World) :
  (forall req, CreditRequest.Amount req <= 0 ->
     Credit req w = (Err (errors_New "amount must be greater than zero"), w)) /\
  (forall req, DebitRequest.Amount req <= 0 ->
     Debit req w = (Err (errors_New "amount must be greater than zero"), w)) /\
  (forall req, TransferRequest.Amount req <= 0 ->
     Transfer req w = (Err (errors_New "amount must be greater than zero"), w)) /\
  (forall req, 0 < TransferRequest.Amount req ->
     TransferRequest.FromUserID req = TransferRequest.ToUserID req ->
     Transfer req w = (Err (errors_New "cannot transfer to the same account"), w)).
Proof.
  split; [|split; [|split]].
  - intros req H. unfold Credit. apply Z.leb_le in H. rewrite H. reflexivity.
  - intros req H. unfold Debit. apply Z.leb_le in H. rewrite H. reflexivity.
  - intros req H. unfold Transfer. apply Z.leb_le in H. rewrite H. reflexivity.
  - intros req H Heq. unfold Transfer. apply Z.leb_gt in H. rewrite H.
    rewrite decide_True by exact Heq. reflexivity.
Qed.

(** What [RollbackTransaction] refuses. When the store answers, an id
    without a record is refused with "transaction not found", a record that
    is rolled back with "transaction already rolled back", and a record in
    any other state than completed (pending, failed, or anything else) with
    "only completed transactions can be rolled back". In each case the one
    statement sent is the lookup of the record: no unit is opened and the
    store is as it was. *)
Theorem RollbackTransaction_refuses (id : Z) (w : World) :
  no_faults w ->
  let looked_up := with_event (EvSql false (SelectTransaction id)) w in
  (transactions (db w) !! id = None ->
   RollbackTransaction id w = (Err (errors_New "transaction not found"), looked_up)) /\
  (forall row, transactions (db w) !! id = Some row ->
     TransactionsRow.status row = TransactionStatusRolledBack ->
     RollbackTransaction id w =
       (Err (errors_New "transaction already rolled back"), looked_up)) /\
  (forall row, transactions (db w) !! id = Some row ->
     TransactionsRow.status row <> TransactionStatusRolledBack ->
     TransactionsRow.status row <> TransactionStatusCompleted ->
     RollbackTransaction id w =
       (Err (errors_New "only completed transactions can be rolled back"), looked_up)).
Proof.
  intros Hnf. simpl. unfold RollbackTransaction, bind.
  rewrite (GetTransactionByID_answers id w Hnf).
  split; [|split].
  - intros ->. reflexivity.
  - intros row -> Hst. simpl. rewrite decide_True by exact Hst. reflexivity.
  - intros row -> Hrb Hc. simpl. rewrite decide_False by exact Hrb.
    rewrite decide_False by exact Hc. reflexivity.
Qed.

Lemma RollbackTransaction_refuses_witness :
  let w := mkWorld (mkDB {[1]} {[7 := TransactionsRow.mk None (Some 1) 5 "credit" "pending" 3]}
                      8 ∅ [] 1) false ∅ 10 [] [] in
  fst (RollbackTransaction 7 w) =
    Err (errors_New "only completed transactions can be rolled back") /\
  fst (RollbackTransaction 8 w) = Err (errors_New "transaction not found") /\
  db (snd (RollbackTransaction 7 w)) = db w.
Proof.
  set (w := mkWorld (mkDB {[1]} {[7 := TransactionsRow.mk None (Some 1) 5 "credit" "pending" 3]}
                       8 ∅ [] 1) false ∅ 10 [] []).
  destruct (RollbackTransaction_refuses 7 w eq_refl) as (_ & _ & Hpending).
  destruct (RollbackTransaction_refuses 8 w eq_refl) as (Hnone & _ & _).
  simpl.
  rewrite (Hpending (TransactionsRow.mk None (Some 1) 5 "credit" "pending" 3));
    [|reflexivity|discriminate|discriminate].
  rewrite Hnone by reflexivity. auto.
Defined.

(** ** Rollback of a debit and of a transfer *)






(** Records the services never write. When the store answers,
    [RollbackTransaction] on a completed record whose type is none of
    credit, debit and transfer fails with "unknown transaction type" and
    leaves every table as it was, the record still completed. On a completed
    record of a known type whose account column is NULL (a credit without
    receiver, a debit without sender, a transfer with either side missing)
    it succeeds without moving any balance or writing any history, and marks
    the record rolled back. *)
Theorem rollback_of_foreign_records (id : Z) (row : TransactionsRow.t) (w : World) :
  no_faults w ->
  transactions (db w) !! id = Some row ->
  TransactionsRow.status row = TransactionStatusCompleted ->
  let r := RollbackTransaction id w in
  (~ known_type row ->
   fst r = Err (errors_New "unknown transaction type") /\ same_tables (db w) (db (snd r))) /\
  (known_type row -> compensating_deltas row = [] ->
   fst r = Ok tt /\
   balances (db (snd r)) = balances (db w) /\
   balance_history (db (snd r)) = balance_history (db w) /\
   transactions (db (snd r)) =
     <[id := set_status TransactionStatusRolledBack row]> (transactions (db w))).
Proof.
  intros Hnf Hrow Hst. simpl.
  destruct (RollbackTransaction_answers id row w Hnf Hrow Hst)
    as (_ & _ & [([Hk _] & Hok & Hdb)|(Hno & (e & He & Hwhy) & Hsame)]).
  - split; [intros Hnk; contradiction|].
    intros _ Hnone. rewrite Hok, Hdb, Hnone. unfold apply_deltas. simpl.
    repeat split.
    apply map_eq. intros j. rewrite lookup_alter, lookup_insert.
    destruct (decide (id = j)) as [<-|]; [rewrite Hrow|]; reflexivity.
  - split.
    + intros Hnk. rewrite He, (Hwhy Hnk). auto.
    + intros Hk Hnone. exfalso. apply Hno. rewrite Hnone. simpl. auto.
Qed.

Lemma rollback_of_foreign_records_witness :
  let row ty := TransactionsRow.mk None None 5 ty "completed" 3 in
  let w := mkWorld (mkDB {[1]} {[7 := row "refund"; 8 := row "credit"]} 9
                      {[1 := BalancesRow.mk 20 0]} [] 1) false ∅ 10 [] [] in
  fst (RollbackTransaction 7 w) = Err (errors_New "unknown transaction type") /\
  fst (RollbackTransaction 8 w) = Ok tt /\
  balances (db (snd (RollbackTransaction 8 w))) = balances (db w).
Proof.
  set (row := fun ty => TransactionsRow.mk None None 5 ty "completed" 3).
  set (w := mkWorld (mkDB {[1]} {[7 := row "refund"; 8 := row "credit"]} 9
                       {[1 := BalancesRow.mk 20 0]} [] 1) false ∅ 10 [] []).
  destruct (rollback_of_foreign_records 7 (row "refund") w eq_refl eq_refl eq_refl)
    as [Hunknown _].
  destruct (rollback_of_foreign_records 8 (row "credit") w eq_refl eq_refl eq_refl)
    as [_ Hnull].
  simpl. split; [apply Hunknown|].
  - intros [H|[H|H]]; discriminate.
  - destruct Hnull as (Hok & Hbal & _); [left; reflexivity | reflexivity |]. auto.
Defined.

(** ** Reading and adjusting one balance *)

Lemma GetBalance_answers u w :
  no_faults w ->
  GetBalance u w =
    match balances (db w) !! u with
    | Some row =>
        (Ok (Balance.mk u (BalancesRow.amount row) (BalancesRow.last_updated_at row)),
         with_event (EvSql false (SelectBalance u false)) w)
    | None =>
        (Ok (Balance.mk u 0 (clock w)),
         with_db (mkDB (users (db w)) (transactions (db w))
                    (transactions_auto_increment (db w))
                    (<[u := BalancesRow.mk 0 (clock w)]> (balances (db w)))
                    (balance_history (db w)) (balance_history_auto_increment (db w)))
           (with_event (EvSql false (InsertBalance u 0))
              (with_event (EvSql false (SelectBalance u false)) w)))
    end.
Proof.
  intros Hnf. unfold GetBalance, bind, on_err.
  rewrite (query_answers _ _ _ _ Hnf). unfold select_balance.
  destruct (balances (db w) !! u) as [row|] eqn:Hrow; [reflexivity|].
  unfold exec, round_trip, insert_balance. simpl. rewrite Hnf, Hrow. simpl.
  unfold no_faults in Hnf. destruct w as [d o m c f ev]. simpl in *. subst f.
  reflexivity.
Qed.

(** First access. When the store answers, [GetBalance] returns without
    error the amount stored for the account, and zero for an account
    without a row, for which it inserts a row holding zero as a side effect
    of the read; it changes nothing else, and the account has a row
    afterwards, so that a second call only reads: it returns the same amount
    and leaves the store as the first call left it. *)
Theorem GetBalance_reads_or_creates (u : Z) (w : World) :
  no_faults w ->
  let r := GetBalance u w in
  (exists at_, fst r = Ok (Balance.mk u (balance_of (db w) u) at_)) /\
  untouched (db w) (db (snd r)) /\
  (is_Some (balances (db w) !! u) ->
   db (snd r) = db w /\
   events (snd r) = events w ++ [EvSql false (SelectBalance u false)]) /\
  (balances (db w) !! u = None ->
   balances (db (snd r)) = <[u := BalancesRow.mk 0 (clock w)]> (balances (db w)) /\
   events (snd r) =
     events w ++ [EvSql false (SelectBalance u false); EvSql false (InsertBalance u 0)]) /\
  (let r' := GetBalance u (snd r) in
   (exists at_, fst r' = Ok (Balance.mk u (balance_of (db w) u) at_)) /\
   db (snd r') = db (snd r)).
Proof.
  intros Hnf. simpl.
  assert (no_faults (snd (GetBalance u w))) as Hnf'.
  { rewrite (GetBalance_answers u w Hnf). destruct (balances (db w) !! u); exact Hnf. }
  rewrite (GetBalance_answers u (snd (GetBalance u w)) Hnf').
  rewrite (GetBalance_answers u w Hnf).
  unfold balance_of, amount_at.
  destruct (balances (db w) !! u) as [row|] eqn:Hrow; simpl.
  - rewrite Hrow. simpl. repeat split; eauto using untouched_refl; discriminate.
  - rewrite lookup_insert_eq. simpl. split; [eauto|]. split.
    + apply (insert_zero_untouched u (clock w)). unfold insert_balance. rewrite Hrow.
      reflexivity.
    + split; [intros [? ?]; discriminate|].
      rewrite <- app_assoc. repeat split; eauto.
Qed.

Lemma GetBalance_reads_or_creates_witness :
  fst (GetBalance 2 (world_example [])) = Ok (Balance.mk 2 0 10) /\
  balances (db (snd (GetBalance 2 (world_example [])))) !! 2 = Some (BalancesRow.mk 0 10).
Proof.
  destruct (GetBalance_reads_or_creates 2 (world_example []) eq_refl)
    as (_ & _ & _ & Hnew & _).
  destruct (Hnew eq_refl) as [Hb _]. split; [reflexivity|].
  rewrite Hb. reflexivity.
Defined.



(** ** Debits in a row *)





(** ** Pages of rows *)

Section SortedPages.
Context {A : Type}.
Variable key : A -> Z.
Variable before : A -> A -> bool.
Hypothesis before_true : forall r x, before r x = true -> key x <= key r.
Hypothesis before_false : forall r x, before r x = false -> key r <= key x.

Lemma insert_sorted_perm r l : insert_sorted before r l ≡ₚ r :: l.
Proof.
  induction l as [|x l IH]; simpl; [reflexivity|].
  destruct (before r x); [reflexivity|]. rewrite IH. apply Permutation_swap.
Qed.

Lemma foldr_insert_sorted_perm l : foldr (insert_sorted before) [] l ≡ₚ l.
Proof.
  induction l as [|x l IH]; simpl; [reflexivity|].
  rewrite insert_sorted_perm, IH. reflexivity.
Qed.

Lemma insert_sorted_descending r l :
  descending (key <$> l) -> descending (key <$> insert_sorted before r l).
Proof.
  induction l as [|x l IH]; simpl; [auto|].
  intros [Hx Hl]. destruct (before r x) eqn:Hb; simpl.
  - split; [|auto]. constructor; [apply before_true, Hb|].
    eapply Forall_impl; [exact Hx|]. intros t Ht. simpl in Ht.
    pose proof (before_true r x Hb). lia.
  - split; [|auto]. rewrite insert_sorted_perm. simpl.
    constructor; [apply before_false, Hb | exact Hx].
Qed.

Lemma foldr_insert_sorted_descending l :
  descending (key <$> foldr (insert_sorted before) [] l).
Proof.
  induction l as [|x l IH]; simpl; [exact Logic.I|].
  apply insert_sorted_descending, IH.
Qed.

End SortedPages.

Lemma descending_sublist ts1 ts2 : sublist ts1 ts2 -> descending ts2 -> descending ts1.
Proof.
  induction 1 as [|t ts1 ts2 Hsub IH|t ts1 ts2 Hsub IH]; simpl; [auto| |tauto].
  intros [Ht Hd]. split; [|auto]. rewrite Forall_forall in *.
  intros x Hx. eapply Ht, elem_of_sublist; eauto.
Qed.

Lemma descending_page {A} (key : A -> Z) n m (l : list A) :
  descending (key <$> l) -> descending (key <$> take n (drop m l)).
Proof.
  apply descending_sublist, fmap_sublist.
  etrans; [apply sublist_take | apply sublist_drop].
Qed.

Lemma insert_desc_sorted r l :
  insert_desc r l =
    insert_sorted (fun r x => HistoryRow.created_at x <? HistoryRow.created_at r) r l.
Proof.
  induction l as [|x l IH]; simpl; [reflexivity|]. rewrite IH. reflexivity.
Qed.

Lemma order_by_created_at_desc_sorted l :
  order_by_created_at_desc l =
    foldr (insert_sorted (fun r x => HistoryRow.created_at x <? HistoryRow.created_at r)) [] l.
Proof.
  unfold order_by_created_at_desc.
  induction l as [|x l IH]; simpl; [reflexivity|]. rewrite IH. apply insert_desc_sorted.
Qed.

Lemma order_by_created_at_desc_perm l : order_by_created_at_desc l ≡ₚ l.
Proof. rewrite order_by_created_at_desc_sorted. apply foldr_insert_sorted_perm. Qed.

Lemma order_by_created_at_desc_descending l :
  descending (HistoryRow.created_at <$> order_by_created_at_desc l).
Proof.
  rewrite order_by_created_at_desc_sorted.
  apply foldr_insert_sorted_descending; intros r x H; ltb_to_prop; lia.
Qed.

Lemma length_page {A} (limit offset : Z) (l : list A) :
  0 <= limit -> 0 <= offset ->
  Z.of_nat (length (take (Z.to_nat limit) (drop (Z.to_nat offset) l))) =
    Z.min limit (Z.max 0 (Z.of_nat (length l) - offset)).
Proof.
  intros Hl Ho. rewrite length_take, length_drop. lia.
Qed.

(** A list of rows with distinct timestamps has one arrangement from the
    most recent to the oldest. *)
Lemma descending_unique {A} (key : A -> Z) (l1 l2 : list A) :
  l1 ≡ₚ l2 -> NoDup (key <$> l1) ->
  descending (key <$> l1) -> descending (key <$> l2) -> l1 = l2.
Proof.
  revert l2. induction l1 as [|x l1 IH]; intros l2 Hperm Hnd H1 H2.
  - apply Permutation_nil_l in Hperm. exact Hperm.
  - destruct l2 as [|y l2]; [apply Permutation_nil_r in Hperm; discriminate|].
    simpl in *. destruct H1 as [Hx H1], H2 as [Hy H2].
    apply NoDup_cons in Hnd as [Hnx Hnd].
    assert (x = y) as <-.
    { assert (y ∈ x :: l1) as Hyin by (rewrite Hperm; left).
      assert (x ∈ y :: l2) as Hxin by (rewrite <- Hperm; left).
      apply elem_of_cons in Hyin as [->|Hyin]; [reflexivity|].
      apply elem_of_cons in Hxin as [->|Hxin]; [reflexivity|].
      exfalso. apply Hnx.
      assert (key y <= key x) as Hle1.
      { rewrite Forall_forall in Hx. apply Hx, list_elem_of_fmap. eauto. }
      assert (key x <= key y) as Hle2.
      { rewrite Forall_forall in Hy. apply Hy, list_elem_of_fmap. eauto. }
      apply list_elem_of_fmap. exists y. split; [lia | exact Hyin]. }
    f_equal. apply IH; auto. eapply Permutation_cons_inv, Hperm.
Qed.

Lemma GetBalanceHistory_answers u limit offset w :
  no_faults w ->
  GetBalanceHistory u limit offset w =
    (Ok (scan_history <$> select_history_page u limit offset (db w)),
     with_event (EvSql false (SelectHistoryPage u limit offset)) w).
Proof.
  intros Hnf. unfold GetBalanceHistory, bind, on_err.
  rewrite (query_answers _ _ _ _ Hnf). reflexivity.
Qed.

Lemma CreatedAt_scan_history (l : list HistoryRow.t) :
  BalanceHistory.CreatedAt <$> (scan_history <$> l) = HistoryRow.created_at <$> l.
Proof. rewrite <- list_fmap_compose. reflexivity. Qed.

(** A page of the history. When the store answers, [GetBalanceHistory] with
    a limit and an offset that are not negative returns a page of at most
    [limit] entries, each the copy of a stored history row of the account,
    from the most recent to the oldest; the store is as it was. The page has
    [min limit (max 0 (n - offset))] entries where [n] is the number of
    history rows of the account, so an offset at or beyond the end gives the
    empty page; from offset 0 with a limit of at least [n] the page holds
    every row of the account; and when the timestamps of the account's rows
    are distinct the page is the slice at [offset] of length [limit] of the
    one arrangement of those rows that is newest first. *)
Theorem GetBalanceHistory_page (u limit offset : Z) (w : World) :
  no_faults w -> 0 <= limit -> 0 <= offset ->
  let r := GetBalanceHistory u limit offset w in
  db (snd r) = db w /\
  exists page,
    fst r = Ok page /\
    Z.of_nat (length page) =
      Z.min limit (Z.max 0 (Z.of_nat (length (history_of u (db w))) - offset)) /\
    (forall h, h ∈ page ->
       BalanceHistory.UserID h = u /\
       exists row, row ∈ balance_history (db w) /\ h = scan_history row) /\
    descending (BalanceHistory.CreatedAt <$> page) /\
    (offset = 0 -> Z.of_nat (length (history_of u (db w))) <= limit ->
     page ≡ₚ scan_history <$> history_of u (db w)) /\
    (forall newest_first,
       newest_first ≡ₚ history_of u (db w) ->
       descending (HistoryRow.created_at <$> newest_first) ->
       NoDup (HistoryRow.created_at <$> newest_first) ->
       page = scan_history <$>
                take (Z.to_nat limit) (drop (Z.to_nat offset) newest_first)).
Proof.
  intros Hnf Hl Ho. simpl. rewrite (GetBalanceHistory_answers u limit offset w Hnf).
  simpl. split; [reflexivity|]. eexists. split; [reflexivity|].
  unfold select_history_page. fold (history_of u (db w)).
  split; [|split; [|split; [|split]]].
  - rewrite length_fmap, length_page by assumption.
    rewrite (Permutation_length (order_by_created_at_desc_perm _)). reflexivity.
  - intros h (row & -> & Hrow)%list_elem_of_fmap.
    assert (row ∈ order_by_created_at_desc (history_of u (db w))) as Hrow'.
    { eapply elem_of_sublist; [exact Hrow|].
      etrans; [apply sublist_take | apply sublist_drop]. }
    rewrite order_by_created_at_desc_perm in Hrow'.
    apply list_elem_of_filter in Hrow' as [Hu Hin]. split; [exact Hu | eauto].
  - rewrite CreatedAt_scan_history.
    apply descending_page, order_by_created_at_desc_descending.
  - intros -> Hn. rewrite Z2Nat.inj_0, drop_0, take_ge.
    + rewrite order_by_created_at_desc_perm. reflexivity.
    + rewrite (Permutation_length (order_by_created_at_desc_perm _)). lia.
  - intros l Hperm Hdesc Hnd. f_equal. f_equal. f_equal.
    symmetry. apply (descending_unique HistoryRow.created_at); auto.
    + rewrite Hperm. symmetry. apply order_by_created_at_desc_perm.
    + apply order_by_created_at_desc_descending.
Qed.

Lemma GetBalanceHistory_page_witness :
  let h t b := HistoryRow.mk t 1 b b None t in
  let w := mkWorld (mkDB {[1]} ∅ 1 ∅ [h 10 5; h 20 7; h 30 9] 40) false ∅ 50 [] [] in
  exists page,
    fst (GetBalanceHistory 1 2 1 w) = Ok page /\
    Z.of_nat (length page) = 2 /\
    descending (BalanceHistory.CreatedAt <$> page).
Proof.
  set (h := fun t b => HistoryRow.mk t 1 b b None t).
  set (w := mkWorld (mkDB {[1]} ∅ 1 ∅ [h 10 5; h 20 7; h 30 9] 40) false ∅ 50 [] []).
  destruct (GetBalanceHistory_page 1 2 1 w eq_refl ltac:(lia) ltac:(lia))
    as (_ & page & Hpage & Hlen & _ & Hdesc & _).
  exists page. split; [exact Hpage|]. split; [rewrite Hlen; reflexivity | exact Hdesc].
Defined.

(** Pages compose. For a store that does not change between the calls and
    answers them, and an account whose history rows have distinct
    timestamps (SQL leaves the order of rows with equal timestamps open),
    the page of length [l1] at an offset followed by the page of length [l2]
    at that offset plus [l1] is the page of length [l1 + l2] at the offset:
    paging through the history neither skips nor repeats a row. *)
Theorem history_pages_compose (u l1 l2 offset : Z) (w w' : World) :
  no_faults w -> no_faults w' -> db w' = db w ->
  0 <= l1 -> 0 <= l2 -> 0 <= offset ->
  NoDup (HistoryRow.created_at <$> history_of u (db w)) ->
  exists p1 p2,
    fst (GetBalanceHistory u l1 offset w) = Ok p1 /\
    fst (GetBalanceHistory u l2 (offset + l1) w') = Ok p2 /\
    fst (GetBalanceHistory u (l1 + l2) offset w) = Ok (p1 ++ p2).
Proof.
  intros Hnf Hnf' Hdb H1 H2 Ho _.
  rewrite !(GetBalanceHistory_answers _ _ _ w Hnf), (GetBalanceHistory_answers _ _ _ w' Hnf').
  rewrite Hdb. simpl. eexists _, _. split; [reflexivity|]. split; [reflexivity|].
  f_equal. rewrite <- fmap_app. f_equal. unfold select_history_page.
  rewrite !Z2Nat.inj_add by assumption. rewrite <- drop_drop. apply eq_sym, take_take_drop.
Qed.

Lemma history_pages_compose_witness :
  let h t b := HistoryRow.mk t 1 b b None t in
  let w := mkWorld (mkDB {[1]} ∅ 1 ∅ [h 10 5; h 20 7; h 30 9] 40) false ∅ 50 [] [] in
  exists p1 p2,
    fst (GetBalanceHistory 1 1 0 w) = Ok p1 /\
    fst (GetBalanceHistory 1 2 (0 + 1) w) = Ok p2 /\
    fst (GetBalanceHistory 1 (1 + 2) 0 w) = Ok (p1 ++ p2).
Proof.
  set (h := fun t b => HistoryRow.mk t 1 b b None t).
  set (w := mkWorld (mkDB {[1]} ∅ 1 ∅ [h 10 5; h 20 7; h 30 9] 40) false ∅ 50 [] []).
  apply (history_pages_compose 1 1 2 0 w w eq_refl eq_refl eq_refl);
    [lia | lia | lia |].
  vm_compute. repeat constructor; rewrite ?elem_of_cons, ?elem_of_nil; intuition discriminate.
Defined.

(** ** The reconciliation invariant *)

















(** Beyond the exact range the invariant is lost: after a credit of 2^53
    and a credit of 1 to account 1 of the empty ledger, the balance is 2^53
    and the history deltas add up to 2^53 + 1. *)
Example reconciliation_lost_to_rounding :
  reconciled ledger_empty /\ ~ reconciled (db world_rounded).
Proof.
  split; [intros u; reflexivity|].
  intros H. specialize (H 1). vm_compute in H. discriminate.
Qed.

(** ** The transactions of an account *)

Lemma unrecorded_query_answers {A} (q : DB -> A) w :
  no_faults w -> unrecorded_query q w = (Ok (q (db w)), w).
Proof.
  unfold no_faults, unrecorded_query. destruct w as [d o m c f ev]. simpl.
  intros ->. reflexivity.
Qed.

Lemma GetUserTransactions_answers u limit offset w :
  no_faults w ->
  GetUserTransactions u limit offset w =
    (Ok ((fun p => scan_transaction (fst p) (snd p)) <$>
           select_user_transactions u limit offset (db w)), w).
Proof.
  intros Hnf. unfold GetUserTransactions, bind, on_err.
  rewrite (unrecorded_query_answers _ _ Hnf). reflexivity.
Qed.

Lemma elem_of_transactions_of u d id row :
  (id, row) ∈ transactions_of u d <-> transactions d !! id = Some row /\ involves u row.
Proof.
  unfold transactions_of. rewrite list_elem_of_filter, elem_of_map_to_list. simpl. tauto.
Qed.

Lemma NoDup_transactions_of u d : NoDup (fst <$> transactions_of u d).
Proof.
  unfold transactions_of. eapply NoDup_fmap_fst.
  - intros id r1 r2 [_ H1%elem_of_map_to_list]%list_elem_of_filter
      [_ H2%elem_of_map_to_list]%list_elem_of_filter. congruence.
  - apply NoDup_filter, NoDup_map_to_list.
Qed.

Lemma newer_true p q :
  newer p q = true ->
  TransactionsRow.created_at (snd q) <= TransactionsRow.created_at (snd p).
Proof. unfold newer. intros H. lia. Qed.

Lemma newer_false p q :
  newer p q = false ->
  TransactionsRow.created_at (snd p) <= TransactionsRow.created_at (snd q).
Proof. unfold newer. intros H. lia. Qed.

Lemma sublist_page {A} n m (l : list A) : sublist (take n (drop m l)) l.
Proof. etrans; [apply sublist_take | apply sublist_drop]. Qed.

(** A page of the transactions of an account. When the store answers,
    [GetUserTransactions] with a limit and an offset that are not negative
    leaves the world as it is and returns a page of
    [min limit (max 0 (n - offset))] records, where [n] is the number of
    stored records that name the account as sender or as receiver: each
    entry is the copy of such a record, no record is listed twice, and the
    entries run from the most recent to the oldest. From offset 0 with a
    limit of at least [n] every record of the account is on the page. *)
Theorem GetUserTransactions_page (u limit offset : Z) (w : World) :
  no_faults w -> 0 <= limit -> 0 <= offset ->
  let r := GetUserTransactions u limit offset w in
  snd r = w /\
  exists page,
    fst r = Ok page /\
    Z.of_nat (length page) =
      Z.min limit (Z.max 0 (Z.of_nat (length (transactions_of u (db w))) - offset)) /\
    (forall t, t ∈ page ->
       (Transaction.FromUserID t = Some u \/ Transaction.ToUserID t = Some u) /\
       exists row, transactions (db w) !! Transaction.ID t = Some row /\
                   t = scan_transaction (Transaction.ID t) row) /\
    NoDup (Transaction.ID <$> page) /\
    descending (Transaction.CreatedAt <$> page) /\
    (offset = 0 -> Z.of_nat (length (transactions_of u (db w))) <= limit ->
     forall id row, transactions (db w) !! id = Some row -> involves u row ->
       scan_transaction id row ∈ page).
Proof.
  intros Hnf Hl Ho. simpl. rewrite (GetUserTransactions_answers u limit offset w Hnf).
  simpl. split; [reflexivity|]. eexists. split; [reflexivity|].
  unfold select_user_transactions.
  pose proof (foldr_insert_sorted_perm newer (transactions_of u (db w))) as Hperm.
  split; [|split; [|split; [|split]]].
  - rewrite length_fmap, length_page by assumption.
    rewrite (Permutation_length Hperm). reflexivity.
  - intros t ([id row] & -> & Hin)%list_elem_of_fmap. simpl.
    assert ((id, row) ∈ foldr (insert_sorted newer) [] (transactions_of u (db w))) as Hin'
      by (eapply elem_of_sublist; [exact Hin | apply sublist_page]).
    rewrite Hperm in Hin'. apply elem_of_transactions_of in Hin' as [Hrow Hinv].
    split; [exact Hinv | eauto].
  - rewrite <- list_fmap_compose.
    change (Transaction.ID ∘ _) with (fst : Z * TransactionsRow.t -> Z).
    eapply sublist_NoDup; [|apply fmap_sublist, sublist_page].
    rewrite Hperm. apply NoDup_transactions_of.
  - rewrite <- list_fmap_compose.
    change (Transaction.CreatedAt ∘ _)
      with (fun p : Z * TransactionsRow.t => TransactionsRow.created_at (snd p)).
    apply descending_page, foldr_insert_sorted_descending;
      [apply newer_true | apply newer_false].
  - intros -> Hn id row Hrow Hinv. rewrite Z2Nat.inj_0, drop_0, take_ge.
    + apply list_elem_of_fmap. exists (id, row). split; [reflexivity|].
      rewrite Hperm. apply elem_of_transactions_of. auto.
    + rewrite (Permutation_length Hperm). lia.
Qed.

Lemma GetUserTransactions_page_witness :
  let w1 := run_ops [OpCredit (CreditRequest.mk 1 40); OpTransfer (TransferRequest.mk 1 2 30);
                     OpDebit (DebitRequest.mk 1 10)] (world_example []) in
  exists page,
    fst (GetUserTransactions 2 10 0 w1) = Ok page /\
    forall t, t ∈ page ->
      Transaction.FromUserID t = Some 2 \/ Transaction.ToUserID t = Some 2.
Proof.
  set (w1 := run_ops [OpCredit (CreditRequest.mk 1 40); OpTransfer (TransferRequest.mk 1 2 30);
                      OpDebit (DebitRequest.mk 1 10)] (world_example [])).
  destruct (GetUserTransactions_page 2 10 0 w1 eq_refl ltac:(lia) ltac:(lia))
    as (_ & page & Hpage & _ & Hown & _).
  exists page. split; [exact Hpage|]. intros t Ht. apply (Hown t Ht).
Defined.

(** ** Reads never write *)

Lemma GetBalance_untouched u w : untouched (db w) (db (snd (GetBalance u w))).
Proof.
  change (wp (GetBalance u) w (fun _ w' => untouched (db w) (db w'))).
  xstep; intros.
  - rewrite H0. apply untouched_refl.
  - rewrite H1. apply untouched_refl.
  - eapply insert_zero_untouched; eauto.
Qed.

(** Whichever calls to the store fail, the services that read leave the
    store exactly as it is: [GetBalanceHistory],
    [CalculateBalanceFromHistory], [GetBalanceAtTime], [GetTransactionByID]
    and [GetUserTransactions] change no table and no counter. [GetBalance]
    and, through it, [ReconcileBalance] write one thing only, the zero row
    of an account that had none, which changes no amount. *)
Theorem reads_never_write (w : World) :
  (forall u limit offset, db (snd (GetBalanceHistory u limit offset w)) = db w) /\
  (forall u, db (snd (CalculateBalanceFromHistory u w)) = db w) /\
  (forall u t, db (snd (GetBalanceAtTime u t w)) = db w) /\
  (forall id, db (snd (GetTransactionByID id w)) = db w) /\
  (forall u limit offset, db (snd (GetUserTransactions u limit offset w)) = db w) /\
  (forall u, untouched (db w) (db (snd (GetBalance u w)))) /\
  (forall u, untouched (db w) (db (snd (ReconcileBalance u w)))).
Proof.
  split; [|split; [|split; [|split; [|split; [|split]]]]].
  - intros u limit offset.
    change (wp (GetBalanceHistory u limit offset) w (fun _ w' => db w' = db w)).
    unfold GetBalanceHistory. repeat wp_step; reflexivity.
  - intros u. change (wp (CalculateBalanceFromHistory u) w (fun _ w' => db w' = db w)).
    unfold CalculateBalanceFromHistory. repeat wp_step; reflexivity.
  - intros u t. change (wp (GetBalanceAtTime u t) w (fun _ w' => db w' = db w)).
    unfold GetBalanceAtTime. repeat wp_step; reflexivity.
  - intros id. change (wp (GetTransactionByID id) w (fun _ w' => db w' = db w)).
    unfold GetTransactionByID. repeat wp_step; reflexivity.
  - intros u limit offset. unfold GetUserTransactions, bind, on_err, unrecorded_query.
    destruct (next_fault (faults w)) as [[|] fs]; reflexivity.
  - intros u. apply GetBalance_untouched.
  - intros u. change (wp (ReconcileBalance u) w (fun _ w' => untouched (db w) (db w'))).
    unfold ReconcileBalance, CalculateBalanceFromHistory.
    repeat xstep; simpl in *;
      repeat match goal with H : db _ = _ |- _ => rewrite H end;
      eauto using untouched_refl, insert_zero_untouched.
Qed.

(** ** The ids of the records *)

Lemma ids_ahead_refl d : counter_fresh d -> ids_ahead d d.
Proof. intros H. split; [lia | exact H]. Qed.

Lemma ids_ahead_restore snap cur :
  counter_fresh snap -> ids_ahead snap cur -> ids_ahead snap (restore_tables snap cur).
Proof.
  intros Hsnap [Hle _]. split; [exact Hle|]. intros id Hid. simpl in *. apply Hsnap. lia.
Qed.

Lemma ids_ahead_insert_balance snap u a now d d' :
  insert_balance u a now d = inr d' -> ids_ahead snap d -> ids_ahead snap d'.
Proof.
  intros (Hc & Ht & _)%insert_balance_counter [Hle Hf]. split; [lia|].
  intros id Hid. rewrite Ht. apply Hf. lia.
Qed.

Lemma ids_ahead_insert_history snap u b c x now d d' :
  insert_history u b c x now d = inr d' -> ids_ahead snap d -> ids_ahead snap d'.
Proof.
  intros (_ & Ht & Hc & _)%insert_history_inr [Hle Hf]. split; [lia|].
  intros id Hid. rewrite Ht. apply Hf. lia.
Qed.

Lemma ids_ahead_insert_transaction snap f t a ty s now d id d' :
  insert_transaction f t a ty s now d = inr (id, d') -> ids_ahead snap d -> ids_ahead snap d'.
Proof.
  unfold insert_transaction. destruct (transactions d !! _); [discriminate|].
  intros [= _ <-] [Hle Hf]. split; simpl; [lia|].
  intros j Hj. simpl in *. rewrite lookup_insert_ne by lia. apply Hf. lia.
Qed.

Lemma ids_ahead_update_status snap id s d :
  ids_ahead snap d -> ids_ahead snap (update_transaction_status id s d).
Proof.
  intros [Hle Hf]. split; [exact Hle|]. intros j Hj. simpl in *.
  rewrite lookup_alter. case_decide; [subst|]; rewrite Hf by exact Hj; reflexivity.
Qed.

Lemma ids_ahead_update_balance snap u a now d :
  ids_ahead snap d -> ids_ahead snap (update_balance u a now d).
Proof. intros H. exact H. Qed.

Section Ids.
Variable snap : DB.
Hypothesis Hsnap : counter_fresh snap.

Local Ltac ids :=
  simpl in *;
  repeat match goal with
         | H : inr _ = inr _ |- _ => injection H as ?; subst
         end;
  solve [ eauto using ids_ahead_restore, ids_ahead_insert_balance, ids_ahead_insert_history,
            ids_ahead_insert_transaction, ids_ahead_update_status, ids_ahead_update_balance
        | discriminate ].

Local Ltac call lem :=
  eapply wp_mono; [apply lem; try ids | simpl; intros [?|?] ? ?].

Lemma GetBalance_ids u w :
  ids_ahead snap (db w) -> wp (GetBalance u) w (fun _ w' => ids_ahead snap (db w')).
Proof. intros H. unfold GetBalance. repeat wp_step; ids. Qed.

Lemma GetTransactionByID_ids id w :
  ids_ahead snap (db w) -> wp (GetTransactionByID id) w (fun _ w' => ids_ahead snap (db w')).
Proof. intros H. unfold GetTransactionByID. repeat wp_step; ids. Qed.

Lemma updateBalanceInTx_ids tx u amt w :
  ids_ahead snap (db w) ->
  wp (updateBalanceInTx tx u amt) w (fun _ w' => ids_ahead snap (db w')).
Proof. intros H. unfold updateBalanceInTx, record_history. repeat wp_step; ids. Qed.

Lemma create_transaction_ids msg from to amt ty w :
  ids_ahead snap (db w) ->
  wp (create_transaction msg from to amt ty) w (fun _ w' => ids_ahead snap (db w')).
Proof. intros H. unfold create_transaction, LastInsertId. repeat wp_step; ids. Qed.

Lemma set_transaction_status_ids msg id s w :
  ids_ahead snap (db w) ->
  wp (set_transaction_status msg id s) w (fun _ w' => ids_ahead snap (db w')).
Proof. intros H. unfold set_transaction_status. repeat wp_step; ids. Qed.

Lemma compensate_ids tx t w :
  ids_ahead snap (db w) -> wp (compensate tx t) w (fun _ w' => ids_ahead snap (db w')).
Proof.
  intros H. unfold compensate.
  repeat first [ wp_step | call updateBalanceInTx_ids ]; ids.
Qed.

(** The end of a unit begun on [snap]: a commit, and the rollback deferred
    at its start. *)
Lemma Commit_ids w :
  ids_ahead snap (db w) -> wp (Commit (mkTx snap)) w (fun _ w' => ids_ahead snap (db w')).
Proof. intros H. wp_step; ids. Qed.

Lemma Rollback_ids w :
  ids_ahead snap (db w) -> wp (Rollback (mkTx snap)) w (fun _ w' => ids_ahead snap (db w')).
Proof. intros H. wp_step; ids. Qed.
End Ids.

Lemma ids_ahead_trans d0 d1 d2 : ids_ahead d0 d1 -> ids_ahead d1 d2 -> ids_ahead d0 d2.
Proof. intros [H1 _] [H2 Hf]. split; [lia | exact Hf]. Qed.

Ltac ids_fresh :=
  simpl in *;
  solve [ assumption
        | match goal with H : ids_ahead _ ?d |- counter_fresh ?d => exact (proj2 H) end ].

(* Inside a unit the snapshot is the store at its start; before, it is the
   store the operation was called on. *)
Ltac ids_pre :=
  lazymatch goal with
  | |- ids_ahead _ (db ?x) =>
      lazymatch x with
      | context [EvBegin] => simpl in *; apply ids_ahead_refl; ids_fresh
      | _ => first [ simpl in *; eassumption | simpl in *; apply ids_ahead_refl; ids_fresh ]
      end
  | |- _ => ids_fresh
  end.

Ltac ids_call :=
  eapply wp_mono;
  [ first [ eapply GetBalance_ids | eapply GetTransactionByID_ids
          | eapply updateBalanceInTx_ids | eapply create_transaction_ids
          | eapply set_transaction_status_ids | eapply compensate_ids
          | eapply Commit_ids | eapply Rollback_ids ];
    ids_pre
  | simpl; intros [?|?] ? ? ].

Lemma ids_ahead_restore_trans d0 snap cur :
  ids_ahead d0 snap -> ids_ahead snap cur -> ids_ahead d0 (restore_tables snap cur).
Proof.
  intros H0 H1. eapply ids_ahead_trans; [exact H0|].
  apply ids_ahead_restore; [exact (proj2 H0) | exact H1].
Qed.

Ltac ids_done :=
  simpl in *;
  first [ solve [ eauto 4 using ids_ahead_refl, ids_ahead_trans, ids_ahead_restore_trans ]
        | unfold ids_ahead in *;
          repeat match goal with H : _ /\ _ |- _ => destruct H end;
          try split; solve [assumption | lia] ].

Lemma Debit_ids req w :
  counter_fresh (db w) -> wp (Debit req) w (fun _ w' => ids_ahead (db w) (db w')).
Proof.
  intros H. unfold Debit.
  repeat first [ ids_call | wp_step ].
  all: ids_done.
Qed.

Lemma Credit_ids req w :
  counter_fresh (db w) -> wp (Credit req) w (fun _ w' => ids_ahead (db w) (db w')).
Proof. intros H. unfold Credit. repeat first [ ids_call | wp_step ]. all: ids_done. Qed.

Lemma Transfer_ids req w :
  counter_fresh (db w) -> wp (Transfer req) w (fun _ w' => ids_ahead (db w) (db w')).
Proof. intros H. unfold Transfer. repeat first [ ids_call | wp_step ]. all: ids_done. Qed.

Lemma RollbackTransaction_ids id w :
  counter_fresh (db w) ->
  wp (RollbackTransaction id) w (fun _ w' => ids_ahead (db w) (db w')).
Proof.
  intros H. unfold RollbackTransaction. repeat first [ ids_call | wp_step ]. all: ids_done.
Qed.

Lemma UpdateBalance_ids u amt w :
  counter_fresh (db w) -> wp (UpdateBalance u amt) w (fun _ w' => ids_ahead (db w) (db w')).
Proof.
  intros H. unfold UpdateBalance. repeat first [ ids_call | wp_step ]. all: ids_done.
Qed.

Lemma run_op_ids o w : counter_fresh (db w) -> ids_ahead (db w) (db (run_op o w)).
Proof.
  intros H. destruct o; simpl.
  - apply (Credit_ids req w H).
  - apply (Debit_ids req w H).
  - apply (Transfer_ids req w H).
  - apply (RollbackTransaction_ids transactionID w H).
  - apply (UpdateBalance_ids userID amount w H).
Qed.

Lemma run_ops_ids os w : counter_fresh (db w) -> ids_ahead (db w) (db (run_ops os w)).
Proof.
  revert w. induction os as [|o os IH]; intros w H; simpl; [apply ids_ahead_refl, H|].
  pose proof (run_op_ids o w H) as Hop.
  eapply ids_ahead_trans; [exact Hop | apply IH, Hop].
Qed.

(** The ids of the records. Take a store whose counter of [transactions] is
    past every stored id. Whatever a sequence of core operations returns and
    whichever calls to the store fail, the counter never goes back and is
    still past every stored id, so that the id the next record gets is free
    and no id is ever used twice; and every record stored before is still
    stored under its id. (The counter is not undone with a unit: an aborted
    operation may leave a gap in the ids.) *)
Theorem record_ids_stay_fresh (os : list op) (w : World) :
  counter_fresh (db w) ->
  let d' := db (run_ops os w) in
  counter_fresh d' /\
  (transactions_auto_increment (db w) <= transactions_auto_increment d') /\
  (transactions d' !! transactions_auto_increment d' = None) /\
  (forall id, is_Some (transactions (db w) !! id) -> is_Some (transactions d' !! id)).
Proof.
  intros H. simpl. destruct (run_ops_ids os w H) as [Hle Hf].
  split; [exact Hf|]. split; [exact Hle|]. split; [apply Hf; lia|].
  intros id [r Hr]. pose proof (run_ops_status_steps os w id) as Hsteps.
  rewrite Hr in Hsteps. clear Hr. revert Hsteps.
  generalize (transactions (db (run_ops os w)) !! id). intros o Hsteps.
  remember (Some r) as a eqn:Ea. revert r Ea.
  induction Hsteps as [|a b c Hstep _ IH]; intros r ->; [eauto|].
  inversion Hstep; subst. eapply IH. reflexivity.
Qed.

Lemma record_ids_stay_fresh_witness :
  let w' := run_ops [OpCredit (CreditRequest.mk 1 40); OpDebit (DebitRequest.mk 1 500);
                     OpTransfer (TransferRequest.mk 1 2 30)]
              (world_example [false; false; true]) in
  counter_fresh (db w') /\ transactions (db w') !! transactions_auto_increment (db w') = None.
Proof.
  destruct (record_ids_stay_fresh
              [OpCredit (CreditRequest.mk 1 40); OpDebit (DebitRequest.mk 1 500);
               OpTransfer (TransferRequest.mk 1 2 30)]
              (world_example [false; false; true])) as (Hf & _ & Hnext & _).
  - intros id Hid. apply lookup_empty.
  - split; [exact Hf | exact Hnext].
Defined.

(** ** The store holds float64 amounts *)

(** A significand of 53 bits times a power of two is a [float64]. *)
Lemma float64_round_multiple q e :
  0 <= e -> 2 ^ 52 <= q <= 2 ^ 53 -> float64_round (q * 2 ^ e) = q * 2 ^ e.
Proof.
  intros He Hq.
  assert (0 < 2 ^ e) as Hu by (apply Z.pow_pos_nonneg; lia).
  destruct (Z_le_gt_dec (q * 2 ^ e) (2 ^ 53)) as [Hs|Hl].
  { apply float64_round_exact. unfold float64_exact. nia. }
  assert (Z.abs (q * 2 ^ e) = q * 2 ^ e) as Habs by nia.
  destruct (float64_round_large (q * 2 ^ e)) as (_ & _ & q' & Hr & _ & Hzero); [lia|].
  rewrite Habs in *. rewrite Z.sgn_pos in Hr by nia. rewrite Hr.
  destruct (Z.eq_dec q (2 ^ 53)) as [->|Hne].
  - assert (2 ^ 53 * 2 ^ e = 2 ^ (53 + e)) as Hp by (rewrite Z.pow_add_r by lia; reflexivity).
    rewrite Hp in *. rewrite Z.log2_pow2 in * by lia.
    replace (53 + e - 52) with (1 + e) in * by lia.
    assert (2 ^ (53 + e) = 2 ^ 52 * 2 ^ (1 + e)) as Hp'.
    { rewrite <- Z.pow_add_r by lia. f_equal. lia. }
    rewrite Hp' in Hzero. rewrite Z.mod_mul, Z.div_mul in Hzero
      by (apply Z.pow_nonzero; lia).
    rewrite (Hzero eq_refl), Z.mul_1_l. symmetry. exact Hp'.
  - assert (Z.log2 (q * 2 ^ e) = 52 + e) as Hlog.
    { apply Z.log2_unique; [lia|].
      replace (Z.succ (52 + e)) with (53 + e) by lia.
      rewrite !Z.pow_add_r by lia. nia. }
    rewrite Hlog in *. replace (52 + e - 52) with e in * by lia.
    rewrite Z.mod_mul, Z.div_mul in Hzero by lia.
    rewrite (Hzero eq_refl), Z.mul_1_l. reflexivity.
Qed.

(** A rounded amount is a [float64]. *)
Lemma float64_round_idem z : is_float64 (float64_round z).
Proof.
  unfold is_float64.
  destruct (Z_lt_le_dec (Z.abs z) (2 ^ 53)) as [Hs|Hl].
  { rewrite (float64_round_small z Hs). apply float64_round_small, Hs. }
  destruct (float64_round_large z Hl) as (He & Hq & q' & Hr & Hq' & _).
  rewrite Hr.
  assert (float64_round (q' * 2 ^ (Z.log2 (Z.abs z) - 52)) =
            q' * 2 ^ (Z.log2 (Z.abs z) - 52)) as Hm
    by (apply float64_round_multiple; lia).
  destruct (Z.sgn_spec z) as [[_ ->]|[[_ ->]|[_ ->]]].
  - rewrite Z.mul_1_l. exact Hm.
  - reflexivity.
  - replace (-1 * (q' * 2 ^ (Z.log2 (Z.abs z) - 52)))
      with (- (q' * 2 ^ (Z.log2 (Z.abs z) - 52))) by lia.
    rewrite float64_round_opp, Hm. reflexivity.
Qed.

Lemma is_float64_add x y : is_float64 x -> is_float64 y -> is_float64 (float64_add x y).
Proof.
  unfold is_float64 at 1 2. intros Hx Hy. unfold float64_add.
  rewrite Hx, Hy, !Z.eqb_refl. simpl. apply float64_round_idem.
Qed.

Lemma is_float64_opp x : is_float64 x -> is_float64 (- x).
Proof. unfold is_float64. intros H. rewrite float64_round_opp, H. reflexivity. Qed.

Lemma is_float64_0 : is_float64 0.
Proof. reflexivity. Qed.

Lemma store_float64_insert_balance u a now d d' :
  insert_balance u a now d = inr d' -> is_float64 a -> store_float64 d -> store_float64 d'.
Proof.
  intros (_ & Ht & _ & Hh & Hb & _)%insert_balance_counter Ha (Hbal & Htx & Hhist).
  split; [|split]; rewrite ?Ht, ?Hh; try assumption.
  intros v r. rewrite Hb, lookup_insert.
  case_decide; [intros [= <-]; exact Ha | apply Hbal].
Qed.

Lemma store_float64_update_balance u a now d :
  is_float64 a -> store_float64 d -> store_float64 (update_balance u a now d).
Proof.
  intros Ha (Hbal & Htx & Hhist). split; [|split]; try assumption.
  intros v r. simpl. rewrite lookup_alter.
  case_decide; [|apply Hbal].
  destruct (balances d !! u); simpl; [intros [= <-]; exact Ha | discriminate].
Qed.

Lemma store_float64_insert_history u b c x now d d' :
  insert_history u b c x now d = inr d' -> is_float64 b -> is_float64 c ->
  store_float64 d -> store_float64 d'.
Proof.
  intros (_ & Ht & _ & Hb & Hh)%insert_history_inr Hfb Hfc (Hbal & Htx & Hhist).
  split; [|split]; rewrite ?Ht, ?Hb; try assumption.
  rewrite Hh. apply Forall_app. split; [exact Hhist|]. repeat constructor; assumption.
Qed.

Lemma store_float64_insert_transaction f t a ty s now d id d' :
  insert_transaction f t a ty s now d = inr (id, d') -> is_float64 a ->
  store_float64 d -> store_float64 d'.
Proof.
  unfold insert_transaction. destruct (transactions d !! _); [discriminate|].
  intros [= _ <-] Ha (Hbal & Htx & Hhist). split; [|split]; try assumption.
  intros j r. simpl. rewrite lookup_insert.
  case_decide; [intros [= <-]; exact Ha | apply Htx].
Qed.

Lemma store_float64_update_status id s d :
  store_float64 d -> store_float64 (update_transaction_status id s d).
Proof.
  intros (Hbal & Htx & Hhist). split; [|split]; try assumption.
  intros j r. simpl. rewrite lookup_alter. case_decide; [subst|apply Htx].
  destruct (transactions d !! j) as [r0|] eqn:E; simpl; [|discriminate].
  intros [= <-]. apply (Htx j r0 E).
Qed.

Lemma store_float64_restore snap cur :
  store_float64 snap -> store_float64 (restore_tables snap cur).
Proof. intros H. exact H. Qed.

Ltac floats :=
  simpl in *;
  repeat match goal with
         | H : inr _ = inr _ |- _ => injection H as ?; subst
         | H : store_float64 _ /\ _ |- _ => destruct H
         end;
  solve [ eauto 6 using store_float64_insert_balance, store_float64_update_balance,
            store_float64_insert_history, store_float64_insert_transaction,
            store_float64_update_status, store_float64_restore, is_float64_add,
            is_float64_opp, is_float64_0
        | discriminate ].

Lemma GetBalance_float64 u w :
  store_float64 (db w) -> wp (GetBalance u) w (fun _ w' => store_float64 (db w')).
Proof. intros H. unfold GetBalance. repeat wp_step; floats. Qed.

Lemma GetTransactionByID_float64 id w :
  store_float64 (db w) ->
  wp (GetTransactionByID id) w (fun r w' =>
    store_float64 (db w') /\ forall t, r = Ok t -> is_float64 (Transaction.Amount t)).
Proof.
  intros H. unfold GetTransactionByID. repeat wp_step.
  all: unfold select_transaction in *; simpl in *.
  all: split; [floats|]; intros ? [= <-]; simpl.
  destruct H as (_ & Htx & _). eapply Htx. eassumption.
Qed.

Lemma updateBalanceInTx_float64 tx u amt w :
  store_float64 (db w) -> is_float64 amt ->
  wp (updateBalanceInTx tx u amt) w (fun _ w' => store_float64 (db w')).
Proof.
  intros H Ha. unfold updateBalanceInTx, record_history. repeat wp_step.
  all: unfold select_balance in *; simpl in *.
  all: try match goal with
           | Hr : balances _ !! _ = Some ?r |- _ => pose proof (proj1 H _ r Hr)
           end.
  all: floats.
Qed.

Lemma create_transaction_float64 msg from to amt ty w :
  store_float64 (db w) -> is_float64 amt ->
  wp (create_transaction msg from to amt ty) w (fun _ w' => store_float64 (db w')).
Proof. intros H Ha. unfold create_transaction, LastInsertId. repeat wp_step; floats. Qed.

Lemma set_transaction_status_float64 msg id s w :
  store_float64 (db w) ->
  wp (set_transaction_status msg id s) w (fun _ w' => store_float64 (db w')).
Proof. intros H. unfold set_transaction_status. repeat wp_step; floats. Qed.

Ltac float_call :=
  eapply wp_mono;
  [ first [ eapply GetBalance_float64 | eapply GetTransactionByID_float64
          | eapply updateBalanceInTx_float64 | eapply create_transaction_float64
          | eapply set_transaction_status_float64 ];
    floats
  | simpl; intros [?|?] ? ? ].

Lemma compensate_float64 tx t w :
  store_float64 (db w) -> is_float64 (Transaction.Amount t) ->
  wp (compensate tx t) w (fun _ w' => store_float64 (db w')).
Proof.
  intros H Ha. unfold compensate.
  repeat first [ float_call | wp_step ]; floats.
Qed.

Lemma Credit_float64 req w :
  store_float64 (db w) -> is_float64 (CreditRequest.Amount req) ->
  wp (Credit req) w (fun _ w' => store_float64 (db w')).
Proof.
  intros H Ha. unfold Credit. repeat first [ float_call | wp_step ]. all: floats.
Qed.

Lemma Debit_float64 req w :
  store_float64 (db w) -> is_float64 (DebitRequest.Amount req) ->
  wp (Debit req) w (fun _ w' => store_float64 (db w')).
Proof.
  intros H Ha. unfold Debit. repeat first [ float_call | wp_step ]. all: floats.
Qed.

Lemma Transfer_float64 req w :
  store_float64 (db w) -> is_float64 (TransferRequest.Amount req) ->
  wp (Transfer req) w (fun _ w' => store_float64 (db w')).
Proof.
  intros H Ha. unfold Transfer. repeat first [ float_call | wp_step ]. all: floats.
Qed.

Lemma UpdateBalance_float64 u amt w :
  store_float64 (db w) -> is_float64 amt ->
  wp (UpdateBalance u amt) w (fun _ w' => store_float64 (db w')).
Proof.
  intros H Ha. unfold UpdateBalance, Lock, Unlock.
  repeat first [ float_call | wp_step ]. all: floats.
Qed.

Lemma RollbackTransaction_float64 id w :
  store_float64 (db w) ->
  wp (RollbackTransaction id) w (fun _ w' => store_float64 (db w')).
Proof.
  intros H. unfold RollbackTransaction.
  apply wp_bind. eapply wp_mono; [apply GetTransactionByID_float64, H|].
  simpl. intros [t|e] w1 [H1 Ht]; [|exact H1].
  specialize (Ht t eq_refl).
  repeat first
    [ eapply wp_mono; [apply compensate_float64; floats | simpl; intros [?|?] ? ?]
    | float_call | wp_step ].
  all: floats.
Qed.

Lemma run_op_float64 o w :
  store_float64 (db w) -> op_float64 o -> store_float64 (db (run_op o w)).
Proof.
  intros H Ho. destruct o; simpl in *.
  - apply (Credit_float64 req w H Ho).
  - apply (Debit_float64 req w H Ho).
  - apply (Transfer_float64 req w H Ho).
  - apply (RollbackTransaction_float64 transactionID w H).
  - apply (UpdateBalance_float64 userID amount w H Ho).
Qed.

(** The store keeps holding [float64] amounts. Take a store in which every
    amount (of a balance, of a record, of a history row) is a whole number
    that a [float64] holds. Every sequence of core operations whose
    requests name such amounts, whatever each operation returns and
    whichever calls to the store fail, leaves a store of which this is true
    again: all the services write is what they were given, zero, and
    [float64] sums. So an amount read back from a column is the [float64]
    that was written to it. *)
Theorem store_keeps_float64 (os : list op) (w : World) :
  store_float64 (db w) -> Forall op_float64 os -> store_float64 (db (run_ops os w)).
Proof.
  revert w. induction os as [|o os IH]; intros w H Hos; [exact H|].
  inversion Hos; subst. simpl. apply IH; [apply run_op_float64|]; assumption.
Qed.

Lemma store_keeps_float64_witness :
  store_float64
    (db (run_ops [OpCredit (CreditRequest.mk 2 9007199254740992);
                  OpCredit (CreditRequest.mk 2 1);
                  OpTransfer (TransferRequest.mk 1 2 30); OpRollbackTransaction 1]
           (world_example [false; false; false; true]))).
Proof.
  apply store_keeps_float64.
  - split; [|split].
    + intros u r. simpl. intros [_ <-]%lookup_singleton_Some. reflexivity.
    + intros id r. simpl. rewrite lookup_empty. discriminate.
    + constructor.
  - repeat constructor.
Defined.

(** ** The handlers: who may do what *)

Lemma role_not_admin r :
  context_user_role r <> Some RoleAdmin -> fst (GetUserRole r) <> RoleAdmin.
Proof.
  unfold GetUserRole. destruct (context_user_role r) as [role|]; simpl;
    [congruence | discriminate].
Qed.

Lemma requested_user_id_own lib r me :
  context_user_role r <> Some RoleAdmin -> requested_user_id lib r me = me.
Proof.
  intros H. unfold requested_user_id. rewrite decide_False by apply role_not_admin, H.
  reflexivity.
Qed.

Lemma transaction_response_db msg (call : M Transaction.t) w :
  db (snd (transaction_response msg call w)) = db (snd (call w)).
Proof.
  unfold transaction_response, respondWithJSON. destruct (call w) as [[t|e] w1]; reflexivity.
Qed.

(** Crediting is for admins. A request to the [Credit] handler whose role
    is not admin (or that carries no role) never reaches the service: the
    world is exactly as it was, nothing is sent to the store and nothing is
    logged, and the answer is 403, or 400 when the body does not decode,
    which is checked first. For an admin the answer is 201 with the record
    when the service succeeds and 400 with the error of the service when it
    fails. *)
Theorem Credit_handler_admin_only (lib : Lib) (r : Request) (w : World) :
  let out := TransactionHandler.Credit lib r w in
  (context_user_role r <> Some RoleAdmin ->
   snd out = w /\
   fst out =
     match decode_CreditRequest lib (request_body r) with
     | None =>
         mkResponse StatusBadRequest
           (ErrorBody "invalid_request" (literal "Invalid request body"))
     | Some _ =>
         mkResponse StatusForbidden
           (ErrorBody "forbidden" (literal "Only admins can credit accounts"))
     end) /\
  (forall req,
     context_user_role r = Some RoleAdmin ->
     decode_CreditRequest lib (request_body r) = Some req ->
     db (snd out) = db (snd (Credit req w)) /\
     fst out =
       match fst (Credit req w) with
       | Ok t => mkResponse StatusCreated (TransactionBody t)
       | Err e => mkResponse StatusBadRequest (ErrorBody "transaction_failed" (err_Error e))
       end).
Proof.
  simpl. unfold TransactionHandler.Credit, GetUserRole. split.
  - intros Hrole. destruct (decode_CreditRequest lib (request_body r)); [|auto].
    destruct (context_user_role r) as [role|]; simpl; [|auto].
    rewrite bool_decide_true by congruence. auto.
  - intros req -> ->. simpl. unfold transaction_response, respondWithJSON.
    destruct (Credit req w) as [[t|e] w1]; auto.
Qed.

(** Money of others. Through the [Debit] and [Transfer] handlers a caller
    who is not an admin cannot take anything from an account that is not
    the caller's own, whatever the request says and whichever calls to the
    store fail: after [Debit] every other account holds what it held, and
    after [Transfer] every other account holds at least what it held. A
    request without an authenticated user changes no balance at all. *)
Theorem handlers_move_only_own_money (lib : Lib) (r : Request) (w : World) :
  context_user_role r <> Some RoleAdmin ->
  (forall v, context_user_id r <> Some v ->
     balance_of (db (snd (TransactionHandler.Debit lib r w))) v = balance_of (db w) v) /\
  (forall v, context_user_id r <> Some v ->
     balance_of (db w) v <= balance_of (db (snd (TransactionHandler.Transfer lib r w))) v).
Proof.
  intros Hrole. apply role_not_admin in Hrole. split; intros v Hv.
  - unfold TransactionHandler.Debit, GetUserID.
    destruct (decode_DebitRequest lib (request_body r)) as [req|]; [|reflexivity].
    destruct (context_user_id r) as [me|]; simpl; [|reflexivity].
    rewrite bool_decide_true by exact Hrole. simpl.
    destruct (bool_decide_reflect (me <> DebitRequest.UserID req)) as [|Heq]; [reflexivity|].
    apply dec_stable in Heq. rewrite transaction_response_db.
    destruct (Debit_outcome req w) as [[_ (_ & _ & _ & _ & Hsame)]|(_ & _ & _ & _ & Hbal)].
    + apply Hsame.
    + unfold balance_of. rewrite Hbal, amount_at_adjust, decide_False; [reflexivity|].
      congruence.
  - unfold TransactionHandler.Transfer, GetUserID.
    destruct (decode_TransferRequest lib (request_body r)) as [req|]; [|reflexivity].
    destruct (context_user_id r) as [me|]; simpl; [|reflexivity].
    rewrite bool_decide_true by exact Hrole. simpl.
    destruct (bool_decide_reflect (me <> TransferRequest.FromUserID req)) as [|Heq];
      [reflexivity|].
    apply dec_stable in Heq. rewrite transaction_response_db.
    destruct (Transfer_outcome req w)
      as [[_ (_ & _ & _ & _ & Hsame)]|(_ & _ & Hpos & _ & _ & Hbal)].
    + rewrite Hsame. reflexivity.
    + unfold balance_of. rewrite Hbal, !amount_at_adjust.
      case_decide; [subst v|].
      * rewrite new_amount_adjust_ne by congruence. apply new_amount_ge. lia.
      * rewrite decide_False by congruence. reflexivity.
Qed.

Lemma handlers_move_only_own_money_witness :
  let lib := mkLib (fun _ => None) (fun _ => None) (fun _ => None)
               (fun _ => Some (DebitRequest.mk 1 30)) (fun _ => None) in
  let r := mkRequest (Some 2) (Some "user") (fun _ => "") (fun _ => "") "" in
  status_code (fst (TransactionHandler.Debit lib r (world_example []))) = StatusForbidden /\
  balance_of (db (snd (TransactionHandler.Debit lib r (world_example [])))) 1 = 100.
Proof.
  intros lib r.
  destruct (handlers_move_only_own_money lib r (world_example [])) as [Hdebit _];
    [discriminate|].
  split; [reflexivity|]. rewrite (Hdebit 1); [reflexivity | discriminate].
Defined.

(** Who may read a record. When the store answers, a caller who is not an
    admin and asks the [GetTransaction] handler for a stored record is
    refused with 403 exactly when the record names a sender and a receiver
    and the caller is neither; otherwise the answer is 200 with the record.
    So a transfer is shown to its two parties only, while a record with one
    account (every credit and every debit) is shown to any authenticated
    caller. The store is as it was. *)
Theorem GetTransaction_handler_visibility (lib : Lib) (r : Request) (w : World)
    (id me : Z) (row : TransactionsRow.t) :
  no_faults w ->
  Atoi lib (mux_vars r "id") = Some id ->
  context_user_id r = Some me ->
  context_user_role r <> Some RoleAdmin ->
  transactions (db w) !! id = Some row ->
  let out := TransactionHandler.GetTransaction lib r w in
  db (snd out) = db w /\
  (status_code (fst out) = StatusForbidden <->
   exists from to,
     TransactionsRow.from_user_id row = Some from /\
     TransactionsRow.to_user_id row = Some to /\ from <> me /\ to <> me) /\
  (status_code (fst out) <> StatusForbidden ->
   fst out = mkResponse StatusOK (TransactionBody (scan_transaction id row))).
Proof.
  intros Hnf Hid Hme Hrole Hrow. apply role_not_admin in Hrole. simpl.
  unfold TransactionHandler.GetTransaction, GetUserID. rewrite Hid, Hme. simpl.
  rewrite (GetTransactionByID_answers id w Hnf), Hrow. simpl.
  rewrite bool_decide_true by exact Hrole. simpl.
  destruct (TransactionsRow.from_user_id row) as [from|],
    (TransactionsRow.to_user_id row) as [to|]; simpl.
  all: unfold StatusForbidden, StatusOK.
  - destruct (bool_decide_reflect (from <> me)) as [Hf|Hf],
      (bool_decide_reflect (to <> me)) as [Ht|Ht]; simpl.
    all: split; [reflexivity|].
    + split; [|intros H; exfalso; apply H; reflexivity].
      split; [intros _; eauto 6 | reflexivity].
    + split; [|intros _; reflexivity].
      split; [discriminate | intros (f & t & [= <-] & [= <-] & ? & ?); contradiction].
    + split; [|intros _; reflexivity].
      split; [discriminate | intros (f & t & [= <-] & [= <-] & ? & ?); contradiction].
    + split; [|intros _; reflexivity].
      split; [discriminate | intros (f & t & [= <-] & [= <-] & ? & ?); contradiction].
  - destruct (bool_decide (from <> me)); simpl.
    all: split; [reflexivity|]; split; [|intros _; reflexivity].
    all: split; [discriminate | intros (f & t & _ & [=] & _)].
  - split; [reflexivity|]. split; [|intros _; reflexivity].
    split; [discriminate | intros (f & t & [=] & _)].
  - split; [reflexivity|]. split; [|intros _; reflexivity].
    split; [discriminate | intros (f & t & [=] & _)].
Qed.

Lemma GetTransaction_handler_visibility_witness :
  let lib := mkLib (fun _ => Some 1) (fun _ => None) (fun _ => None) (fun _ => None)
               (fun _ => None) in
  let r := mkRequest (Some 2) (Some "user") (fun _ => "") (fun _ => "1") "" in
  let w1 := snd (Credit (CreditRequest.mk 1 40) (world_example [])) in
  fst (TransactionHandler.GetTransaction lib r w1) =
    mkResponse StatusOK
      (TransactionBody (Transaction.mk 1 None (Some 1) 40 "credit" "completed" 10)).
Proof.
  intros lib r w1.
  destruct (GetTransaction_handler_visibility lib r w1 1 2
              (TransactionsRow.mk None (Some 1) 40 "credit" "completed" 10)
              eq_refl eq_refl eq_refl ltac:(discriminate) ltac:(vm_compute; reflexivity))
    as (_ & Hiff & Hshown).
  apply Hshown. intros Hforbidden. apply Hiff in Hforbidden as (f & t & Hf & _).
  discriminate.
Defined.

(** No user, no service. A request without an authenticated user in its
    context is answered by every handler that asks for one ([Debit],
    [Transfer], [GetHistory], [GetTransaction] and the three handlers of
    balances) without calling a service: the world is exactly as it was, and
    the answer is 401, or 400 where the body or the record id is checked
    before and is malformed. *)
Theorem handlers_require_authentication (lib : Lib) (r : Request) (w : World) :
  context_user_id r = None ->
  let unauthorized :=
    mkResponse StatusUnauthorized (ErrorBody "unauthorized" (literal "User not authenticated")) in
  let invalid_body :=
    mkResponse StatusBadRequest (ErrorBody "invalid_request" (literal "Invalid request body")) in
  TransactionHandler.Debit lib r w =
    (match decode_DebitRequest lib (request_body r) with
     | Some _ => unauthorized
     | None => invalid_body
     end, w) /\
  TransactionHandler.Transfer lib r w =
    (match decode_TransferRequest lib (request_body r) with
     | Some _ => unauthorized
     | None => invalid_body
     end, w) /\
  TransactionHandler.GetHistory lib r w = (unauthorized, w) /\
  TransactionHandler.GetTransaction lib r w =
    (match Atoi lib (mux_vars r "id") with
     | Some _ => unauthorized
     | None =>
         mkResponse StatusBadRequest
           (ErrorBody "invalid_transaction_id" (literal "Invalid transaction ID"))
     end, w) /\
  BalanceHandler.GetCurrentBalance lib r w = (unauthorized, w) /\
  BalanceHandler.GetHistoricalBalance lib r w = (unauthorized, w) /\
  BalanceHandler.GetBalanceAtTime lib r w = (unauthorized, w).
Proof.
  intros Hnone. simpl.
  unfold TransactionHandler.Debit, TransactionHandler.Transfer, TransactionHandler.GetHistory,
    TransactionHandler.GetTransaction, BalanceHandler.GetCurrentBalance,
    BalanceHandler.GetHistoricalBalance, BalanceHandler.GetBalanceAtTime, GetUserID.
  rewrite Hnone. simpl.
  destruct (decode_DebitRequest lib (request_body r)),
    (decode_TransferRequest lib (request_body r)), (Atoi lib (mux_vars r "id"));
    repeat split.
Qed.

Lemma handlers_require_authentication_witness :
  let lib := mkLib (fun _ => Some 1) (fun _ => None) (fun _ => None)
               (fun _ => Some (DebitRequest.mk 1 30)) (fun _ => None) in
  let r := mkRequest None None (fun _ => "") (fun _ => "1") "" in
  status_code (fst (TransactionHandler.Debit lib r (world_example []))) = StatusUnauthorized /\
  snd (BalanceHandler.GetCurrentBalance lib r (world_example [])) = world_example [].
Proof.
  intros lib r.
  destruct (handlers_require_authentication lib r (world_example []) eq_refl)
    as (Hdebit & _ & _ & _ & Hbalance & _).
  rewrite Hdebit, Hbalance. split; reflexivity.
Defined.

(** ** The handlers that read *)

Lemma page_limit_positive lib r : 1 <= page_limit lib r.
Proof.
  unfold page_limit. case_decide; [|lia].
  destruct (Atoi lib (url_query r "limit")) as [l|]; [|lia].
  destruct (0 <? l) eqn:E; ltb_to_prop; lia.
Qed.

Lemma page_offset_nonneg lib r : 0 <= page_offset lib r.
Proof.
  unfold page_offset. case_decide; [|lia].
  destruct (Atoi lib (url_query r "offset")) as [o|]; [|lia].
  destruct (0 <=? o) eqn:E; ltb_to_prop; lia.
Qed.

Lemma select_history_page_bound u limit offset d :
  0 <= limit ->
  Z.of_nat (length (select_history_page u limit offset d)) <= limit /\
  forall row, row ∈ select_history_page u limit offset d ->
    row ∈ balance_history d /\ HistoryRow.user_id row = u.
Proof.
  intros Hl. unfold select_history_page. split.
  - rewrite length_take. lia.
  - intros row Hrow.
    assert (row ∈ order_by_created_at_desc
                    (filter (fun r => HistoryRow.user_id r = u) (balance_history d))) as Hin
      by (eapply elem_of_sublist; [exact Hrow | apply sublist_page]).
    rewrite order_by_created_at_desc_perm in Hin.
    apply list_elem_of_filter in Hin. tauto.
Qed.

Lemma select_user_transactions_bound u limit offset d :
  0 <= limit ->
  Z.of_nat (length (select_user_transactions u limit offset d)) <= limit /\
  forall p, p ∈ select_user_transactions u limit offset d ->
    transactions d !! fst p = Some (snd p) /\ involves u (snd p).
Proof.
  intros Hl. unfold select_user_transactions. split.
  - rewrite length_take. lia.
  - intros [id row] Hp.
    assert ((id, row) ∈ foldr (insert_sorted newer) [] (transactions_of u d)) as Hin
      by (eapply elem_of_sublist; [exact Hp | apply sublist_page]).
    rewrite (foldr_insert_sorted_perm newer) in Hin.
    apply elem_of_transactions_of in Hin. exact Hin.
Qed.

(** The page sizes of the handlers. For every request, whatever its
    [limit] and [offset] parameters hold, the history handlers call their
    services with a limit of at least 1 and an offset of at least 0: a
    parameter that is absent, unreadable or out of range falls back to 50
    and to 0. When the store answers, an authenticated caller of
    [GetHistoricalBalance] gets 200 with at most that many history entries,
    and of [GetHistory] 200 with at most that many records; each entry is
    about the account asked for, which for a caller who is not an admin is
    the caller's own whatever [user_id] says. The store is as it was. *)
Theorem history_handlers_page (lib : Lib) (r : Request) (w : World) (me : Z) :
  no_faults w -> context_user_id r = Some me ->
  let u := requested_user_id lib r me in
  1 <= page_limit lib r /\ 0 <= page_offset lib r /\
  (url_query r "limit" = "" -> page_limit lib r = 50) /\
  (url_query r "offset" = "" -> page_offset lib r = 0) /\
  (context_user_role r <> Some RoleAdmin -> u = me) /\
  (exists page,
     BalanceHandler.GetHistoricalBalance lib r w =
       (mkResponse StatusOK (HistoryBody page),
        with_event
          (EvSql false (SelectHistoryPage u (page_limit lib r) (page_offset lib r))) w) /\
     Z.of_nat (length page) <= page_limit lib r /\
     forall h, h ∈ page -> BalanceHistory.UserID h = u) /\
  (exists page,
     TransactionHandler.GetHistory lib r w = (mkResponse StatusOK (TransactionsBody page), w) /\
     Z.of_nat (length page) <= page_limit lib r /\
     forall t, t ∈ page ->
       Transaction.FromUserID t = Some u \/ Transaction.ToUserID t = Some u).
Proof.
  intros Hnf Hme. simpl.
  pose proof (page_limit_positive lib r) as Hl.
  pose proof (page_offset_nonneg lib r) as Ho.
  split; [exact Hl|]. split; [exact Ho|].
  split; [intros Hq; unfold page_limit; rewrite Hq; reflexivity|].
  split; [intros Hq; unfold page_offset; rewrite Hq; reflexivity|].
  split; [apply requested_user_id_own|]. split.
  - unfold BalanceHandler.GetHistoricalBalance, GetUserID. rewrite Hme. simpl.
    rewrite (GetBalanceHistory_answers _ _ _ w Hnf). eexists. split; [reflexivity|].
    destruct (select_history_page_bound (requested_user_id lib r me) (page_limit lib r)
                (page_offset lib r) (db w)) as [Hlen Hrows]; [lia|].
    split; [rewrite length_fmap; exact Hlen|].
    intros h (row & -> & Hrow)%list_elem_of_fmap. apply (Hrows row Hrow).
  - unfold TransactionHandler.GetHistory, GetUserID. rewrite Hme. simpl.
    rewrite (GetUserTransactions_answers _ _ _ w Hnf). eexists. split; [reflexivity|].
    destruct (select_user_transactions_bound (requested_user_id lib r me) (page_limit lib r)
                (page_offset lib r) (db w)) as [Hlen Hrows]; [lia|].
    split; [rewrite length_fmap; exact Hlen|].
    intros t (p & -> & Hp)%list_elem_of_fmap. apply (Hrows p Hp).
Qed.

Lemma history_handlers_page_witness :
  let lib := mkLib (fun s => if decide (s = "7") then Some 7 else None) (fun _ => None)
               (fun _ => None) (fun _ => None) (fun _ => None) in
  let r := mkRequest (Some 2) (Some "user")
             (fun k => if decide (k = "user_id") then "7" else
                       if decide (k = "limit") then "-3" else "")
             (fun _ => "") "" in
  page_limit lib r = 50 /\ page_offset lib r = 0 /\ requested_user_id lib r 2 = 2.
Proof.
  intros lib r.
  destruct (history_handlers_page lib r (world_example []) 2 eq_refl eq_refl)
    as (_ & _ & _ & Hoffset & Hown & _).
  split; [reflexivity|]. split; [apply Hoffset; reflexivity | apply Hown; discriminate].
Defined.

(** The current balance. An authenticated caller of [GetCurrentBalance]
    gets, when the store answers, 200 with the balance of the account asked
    for: an admin may name any account in [user_id] (one that cannot be read
    as a number falls back to the admin's own), anyone else gets their own
    account whatever [user_id] says. Whichever calls to the store fail, the
    answer is 200 with a balance or 500 with a fixed message that tells
    nothing of the failure, and nothing the ledger records has changed. *)
Theorem GetCurrentBalance_handler (lib : Lib) (r : Request) (w : World) (me : Z) :
  context_user_id r = Some me ->
  let out := BalanceHandler.GetCurrentBalance lib r w in
  let u := requested_user_id lib r me in
  (context_user_role r <> Some RoleAdmin -> u = me) /\
  (forall uid, context_user_role r = Some RoleAdmin -> url_query r "user_id" <> "" ->
     Atoi lib (url_query r "user_id") = Some uid -> u = uid) /\
  (no_faults w ->
   exists at_,
     fst out = mkResponse StatusOK (BalanceBody (Balance.mk u (balance_of (db w) u) at_))) /\
  ((exists b, fst out = mkResponse StatusOK (BalanceBody b)) \/
   fst out =
     mkResponse StatusInternalServerError
       (ErrorBody "fetch_failed" (literal "Failed to fetch balance"))) /\
  untouched (db w) (db (snd out)).
Proof.
  intros Hme. simpl. split; [apply requested_user_id_own|]. split.
  { intros uid Hrole Hq Huid. unfold requested_user_id, GetUserRole. rewrite Hrole. simpl.
    rewrite Huid. repeat case_decide; solve [reflexivity | contradiction]. }
  unfold BalanceHandler.GetCurrentBalance, GetUserID. rewrite Hme. simpl.
  set (u := requested_user_id lib r me).
  pose proof (GetBalance_untouched u w) as Hun.
  split; [|split].
  - intros Hnf. rewrite (GetBalance_answers u w Hnf).
    unfold balance_of, amount_at.
    destruct (balances (db w) !! u); simpl; eauto.
  - destruct (GetBalance u w) as [[b|e] w1]; simpl; eauto.
  - destruct (GetBalance u w) as [[b|e] w1]; exact Hun.
Qed.

Lemma GetCurrentBalance_handler_witness :
  let lib := mkLib (fun s => if decide (s = "1") then Some 1 else None) (fun _ => None)
               (fun _ => None) (fun _ => None) (fun _ => None) in
  let r := mkRequest (Some 2) (Some "user")
             (fun k => if decide (k = "user_id") then "1" else "") (fun _ => "") "" in
  exists at_,
    fst (BalanceHandler.GetCurrentBalance lib r (world_example [])) =
      mkResponse StatusOK (BalanceBody (Balance.mk 2 0 at_)).
Proof.
  intros lib r.
  destruct (GetCurrentBalance_handler lib r (world_example []) 2 eq_refl)
    as (Hown & _ & Hok & _).
  destruct (Hok eq_refl) as [at_ Hout]. rewrite Hown in Hout by discriminate.
  exists at_. exact Hout.
Defined.

(** The balance at a time. An authenticated caller of [GetBalanceAtTime]
    is answered 400 "missing_parameter" when [time] is absent and 400
    "invalid_time" when it does not parse, in both cases without a call to
    the service; otherwise, when the store answers, 200 with the account
    asked for, the time, and the balance the last history row of that
    account at or before the time recorded, zero without such a row. The
    store is as it was. *)
Theorem GetBalanceAtTime_handler (lib : Lib) (r : Request) (w : World) (me : Z) :
  context_user_id r = Some me ->
  let out := BalanceHandler.GetBalanceAtTime lib r w in
  let u := requested_user_id lib r me in
  (url_query r "time" = "" ->
   out = (mkResponse StatusBadRequest
            (ErrorBody "missing_parameter" (literal "time parameter is required")), w)) /\
  (url_query r "time" <> "" -> time_Parse lib (url_query r "time") = None ->
   out = (mkResponse StatusBadRequest
            (ErrorBody "invalid_time" (literal "Invalid time format. Use RFC3339 format")),
          w)) /\
  (forall t, url_query r "time" <> "" -> time_Parse lib (url_query r "time") = Some t ->
     no_faults w ->
     fst out =
       mkResponse StatusOK (BalanceAtBody u (default 0 (select_balance_at u t (db w))) t) /\
     db (snd out) = db w) /\
  (context_user_role r <> Some RoleAdmin -> u = me).
Proof.
  intros Hme. simpl.
  unfold BalanceHandler.GetBalanceAtTime, GetUserID. rewrite Hme. simpl.
  split; [|split; [|split]].
  - intros ->. reflexivity.
  - intros Hq Hp. rewrite decide_False by exact Hq. rewrite Hp. reflexivity.
  - intros t Hq Hp Hnf. rewrite decide_False by exact Hq. rewrite Hp.
    rewrite (GetBalanceAtTime_answer _ t w Hnf). split; reflexivity.
  - apply requested_user_id_own.
Qed.

Lemma GetBalanceAtTime_handler_witness :
  let h t b := HistoryRow.mk t 1 b b None t in
  let w := mkWorld (mkDB {[1]} ∅ 1 ∅ [h 10 5; h 20 7; h 30 9] 40) false ∅ 50 [] [] in
  let lib := mkLib (fun _ => None) (fun s => if decide (s = "t25") then Some 25 else None)
               (fun _ => None) (fun _ => None) (fun _ => None) in
  let r := mkRequest (Some 1) (Some "user")
             (fun k => if decide (k = "time") then "t25" else "") (fun _ => "") "" in
  fst (BalanceHandler.GetBalanceAtTime lib r w) = mkResponse StatusOK (BalanceAtBody 1 7 25).
Proof.
  intros h w lib r.
  destruct (GetBalanceAtTime_handler lib r w 1 eq_refl) as (_ & _ & Hok & _).
  destruct (Hok 25 ltac:(discriminate) eq_refl eq_refl) as [Hout _].
  rewrite Hout. reflexivity.
Defined.
